(** * CPU accounting for task groups (kernel/sched/cpuacct.c)

    A shallow embedding of the accounting engine of [kernel/sched/cpuacct.c]:
    the per-CPU usage accumulators, the hierarchical charge walks, the reset
    file, the per-CPU usage snapshot with its two reconciliation steps and its
    idle / iowait / steal arithmetic, and the [proc_stat] summation; then the
    other files of the controller ([usage_all], [stat]), the hook called when
    the cpuset of a group changes, and the creation and destruction of a
    group.

    Conventions.
    - A [u64] is a [Z]; every C operation that can leave the range is followed
      by an explicit reduction modulo 2^64 ([u64]).
    - A [struct cpuacct *] is an address ([nat]); [NULL] is [None].  The memory
      holding the [struct cpuacct] objects is a total map from addresses.
    - A [__percpu] pointer is a total map from CPU numbers.
    - Locks, RCU sections and the seqcount retry loop are not represented: the
      model is sequential, so a seqcount read section runs exactly once.
    - The configuration is the one with [CONFIG_SCHED_SLI], [CONFIG_SCHEDSTATS]
      and [CONFIG_64BIT]: the extended statistics are compiled in and no run
      queue lock is taken around the 64-bit accesses. *)

From Stdlib Require Import String ZArith List Bool Lia PeanoNat.
Import ListNotations.
Local Open Scope Z_scope.

(** ** Machine integers *)

Definition U64_MAX : Z := 2 ^ 64 - 1.

(** Reduction of a mathematical integer to the value a [u64] holds. *)
Definition u64 (z : Z) : Z := z mod 2 ^ 64.

(** Values representable in a [u64]. *)
Definition is_u64 (z : Z) : Prop := 0 <= z <= U64_MAX.

(** The value an [s64] holds when it is given the 64 bits of [z]; it is also
    what [%lld] prints for a [u64] argument. *)
Definition s64 (z : Z) : Z :=
  if u64 z <? 2 ^ 63 then u64 z else u64 z - 2 ^ 64.

(** The sum of a list of integers. *)
Definition sum_Z (l : list Z) : Z := fold_right Z.add 0 l.

(** [-EINVAL]; the constant comes from [errno-base.h]. *)
Definition EINVAL : Z := 22.

(** ** Per-CPU storage and memory *)

(** In-place update of one slot of a per-CPU area, an array or the memory. *)
Definition upd {A : Type} (f : nat -> A) (k : nat) (v : A) : nat -> A :=
  fun j => if Nat.eqb j k then v else f j.

(** ** Data model *)

(** [enum cpuacct_stat_index]. *)
Inductive cpuacct_stat_index : Type :=
| CPUACCT_STAT_USER
| CPUACCT_STAT_SYSTEM
| CPUACCT_STAT_NSTATS.

(** The integer value of an enumerator, used as an array index. *)
Definition stat_nr (index : cpuacct_stat_index) : nat :=
  match index with
  | CPUACCT_STAT_USER => 0
  | CPUACCT_STAT_SYSTEM => 1
  | CPUACCT_STAT_NSTATS => 2
  end.

(** [enum cpu_usage_stat] of [kernel_stat.h], the index of
    [kernel_cpustat.cpustat]. *)
Inductive cpu_usage_stat : Type :=
| CPUTIME_USER
| CPUTIME_NICE
| CPUTIME_SYSTEM
| CPUTIME_SOFTIRQ
| CPUTIME_IRQ
| CPUTIME_IDLE
| CPUTIME_IOWAIT
| CPUTIME_STEAL
| CPUTIME_GUEST
| CPUTIME_GUEST_NICE.

Definition cpu_usage_stat_eqb (a b : cpu_usage_stat) : bool :=
  match a, b with
  | CPUTIME_USER, CPUTIME_USER
  | CPUTIME_NICE, CPUTIME_NICE
  | CPUTIME_SYSTEM, CPUTIME_SYSTEM
  | CPUTIME_SOFTIRQ, CPUTIME_SOFTIRQ
  | CPUTIME_IRQ, CPUTIME_IRQ
  | CPUTIME_IDLE, CPUTIME_IDLE
  | CPUTIME_IOWAIT, CPUTIME_IOWAIT
  | CPUTIME_STEAL, CPUTIME_STEAL
  | CPUTIME_GUEST, CPUTIME_GUEST
  | CPUTIME_GUEST_NICE, CPUTIME_GUEST_NICE => true
  | _, _ => false
  end.

(** [struct kernel_cpustat]: its only member is the array [cpustat]. *)
Definition kernel_cpustat : Type := cpu_usage_stat -> Z.

(** [struct prev_cputime] (the lock is not represented). *)
Record prev_cputime : Type := mk_prev_cputime {
  prev_utime : Z;
  prev_stime : Z
}.

(** [struct task_cputime]. *)
Record task_cputime : Type := mk_task_cputime {
  stime : Z;
  utime : Z;
  sum_exec_runtime : Z
}.

(** [struct cpuacct_usage]. *)
Record cpuacct_usage : Type := mk_cpuacct_usage {
  usages : nat -> Z;
  prev_cputime1 : prev_cputime;   (* utime and stime *)
  prev_cputime2 : prev_cputime    (* user and nice *)
}.

(** [struct cpuacct_alistats]. *)
Record cpuacct_alistats : Type := mk_cpuacct_alistats {
  nr_migrations : Z
}.

(** [struct cpuacct].  [css_parent] is [css.parent] seen through [css_ca]:
    the address of the parent group, [None] for the group without one. *)
Record cpuacct : Type := mk_cpuacct {
  css_parent : option nat;
  cpuusage : nat -> cpuacct_usage;
  alistats : nat -> cpuacct_alistats;
  cpustat : nat -> kernel_cpustat
}.

(** The memory that holds the [struct cpuacct] objects. *)
Definition cpuacct_mem : Type := nat -> cpuacct.

(** The address of the static [root_cpuacct]. *)
Definition root_cpuacct : nat := 0%nat.

(** [struct pt_regs], reduced to what [user_mode] reads from it. *)
Record pt_regs : Type := mk_pt_regs {
  user_mode : bool
}.

(** [struct task_struct], reduced to what this file reads from it:
    [task_ca(tsk)] and [task_pt_regs(tsk)]. *)
Record task_struct : Type := mk_task_struct {
  task_ca : option nat;
  task_pt_regs : option pt_regs
}.

(** The scheduler statistics of a [struct sched_entity] read and written by
    this file. *)
Record sched_entity : Type := mk_sched_entity {
  cg_idle_start : Z;
  cg_idle_sum : Z;
  cg_init_time : Z;
  cg_nr_iowait : Z;
  cg_iowait_start : Z;
  cg_iowait_sum : Z;
  cg_ineffective_start : Z;
  cg_ineffective_sum : Z;
  sum_exec_raw : Z
}.

(** [struct task_group]: [se] is the per-CPU array of entity pointers. *)
Record task_group : Type := mk_task_group {
  se : nat -> option sched_entity
}.

(** [struct cpuacct_usage_result]. *)
Record cpuacct_usage_result : Type := mk_cpuacct_usage_result {
  user : Z;
  nice : Z;
  system : Z;
  irq : Z;
  softirq : Z;
  steal : Z;
  iowait : Z;
  idle : Z;
  guest : Z;
  guest_nice : Z
}.

(** The local variables [user], [nice], ... [nr_migrations] of
    [cpuacct_proc_stats_show]. *)
Record proc_stat_sums : Type := mk_proc_stat_sums {
  tot_user : Z;
  tot_nice : Z;
  tot_system : Z;
  tot_idle : Z;
  tot_iowait : Z;
  tot_irq : Z;
  tot_softirq : Z;
  tot_steal : Z;
  tot_guest : Z;
  tot_nr_migrations : Z
}.

Definition zero_proc_stat_sums : proc_stat_sums :=
  mk_proc_stat_sums 0 0 0 0 0 0 0 0 0 0.

(** How a loop over a parent chain can end. *)
Inductive outcome (A : Type) : Type :=
| Done (a : A)          (* the loop left normally *)
| NullDeref             (* a NULL [struct cpuacct *] was dereferenced *)
| OutOfFuel.            (* the bound on the number of iterations was hit *)

Arguments Done {A} a.
Arguments NullDeref {A}.
Arguments OutOfFuel {A}.

(** ** Field updates *)

Definition set_usages (cu : cpuacct_usage) (u : nat -> Z) : cpuacct_usage :=
  mk_cpuacct_usage u (prev_cputime1 cu) (prev_cputime2 cu).

Definition set_cpuusage (ca : cpuacct) (c : nat -> cpuacct_usage) : cpuacct :=
  mk_cpuacct (css_parent ca) c (alistats ca) (cpustat ca).

Definition set_alistats (ca : cpuacct) (a : nat -> cpuacct_alistats) : cpuacct :=
  mk_cpuacct (css_parent ca) (cpuusage ca) a (cpustat ca).

Definition set_cpustat (ca : cpuacct) (c : nat -> kernel_cpustat) : cpuacct :=
  mk_cpuacct (css_parent ca) (cpuusage ca) (alistats ca) c.

Definition set_css_parent (ca : cpuacct) (parent : option nat) : cpuacct :=
  mk_cpuacct parent (cpuusage ca) (alistats ca) (cpustat ca).

(** [ks[index] += val] on a [kernel_cpustat]. *)
Definition cpustat_add (ks : kernel_cpustat) (index : cpu_usage_stat) (val : Z)
  : kernel_cpustat :=
  fun j => if cpu_usage_stat_eqb j index then u64 (ks j + val) else ks j.

(** [parent_ca]. *)
Definition parent_ca (mem : cpuacct_mem) (ca : nat) : option nat :=
  css_parent (mem ca).

(** ** Group creation *)

(** [prev_cputime_init]. *)
Definition prev_cputime_init : prev_cputime := mk_prev_cputime 0 0.

(** [cpuacct_css_alloc] for a non-NULL parent, on the path where no
    allocation fails: the object found at the address it returns.  [kzalloc]
    and [alloc_percpu] hand out zeroed storage, and [prev_cputime_init]
    zeroes both cursors of every possible CPU.  The function tests
    [parent_css] and does not store it: [css.parent] is NULL in the object
    returned, and it is the cgroup core that links the object under its
    parent afterwards. *)
Definition cpuacct_css_alloc (parent_css : nat) : cpuacct :=
  mk_cpuacct None
    (fun _ => mk_cpuacct_usage (fun _ => 0) prev_cputime_init prev_cputime_init)
    (fun _ => mk_cpuacct_alistats 0)
    (fun _ _ => 0).

(** The statically allocated, zero-initialised root group. *)
Definition root_cpuacct_init : cpuacct :=
  mk_cpuacct None
    (fun _ => mk_cpuacct_usage (fun _ => 0) prev_cputime_init prev_cputime_init)
    (fun _ => mk_cpuacct_alistats 0)
    (fun _ _ => 0).

(** [task_ca_increase_nr_migrations], run on CPU [this_cpu].  A task always
    has a group here; a NULL one would be dereferenced. *)
Definition task_ca_increase_nr_migrations (this_cpu : nat) (tsk : task_struct)
    (mem : cpuacct_mem) : outcome cpuacct_mem :=
  match task_ca tsk with
  | None => NullDeref
  | Some ca =>
      let a := alistats (mem ca) this_cpu in
      Done (upd mem ca
              (set_alistats (mem ca)
                 (upd (alistats (mem ca)) this_cpu
                    (mk_cpuacct_alistats (u64 (nr_migrations a + 1))))))
  end.

(** ** Reading and writing the usage accumulators *)

(** [cpuacct_cpuusage_read].  [BUG_ON(index > CPUACCT_STAT_NSTATS)] cannot
    fire on a value of the enumeration. *)
Definition cpuacct_cpuusage_read (mem : cpuacct_mem) (ca cpu : nat)
    (index : cpuacct_stat_index) : Z :=
  let cu := cpuusage (mem ca) cpu in
  match index with
  | CPUACCT_STAT_NSTATS =>
      fold_left (fun data i => u64 (data + usages cu i))
        (seq 0 (stat_nr CPUACCT_STAT_NSTATS)) 0
  | _ => usages cu (stat_nr index)
  end.

(** [cpuacct_cpuusage_write]. *)
Definition cpuacct_cpuusage_write (mem : cpuacct_mem) (ca cpu : nat) (val : Z)
  : cpuacct_mem :=
  let cu := cpuusage (mem ca) cpu in
  let cu' :=
    set_usages cu
      (fold_left (fun us i => upd us i val)
         (seq 0 (stat_nr CPUACCT_STAT_NSTATS)) (usages cu)) in
  upd mem ca (set_cpuusage (mem ca) (upd (cpuusage (mem ca)) cpu cu')).

(** ** The reconciler

    [cputime_adjust] is defined in kernel/sched/cputime.c, which is not part of
    the sources at hand. *)

Module TimeReconciler.

(** Modelled from the spec: the body of [cputime_adjust] is missing; this is
    the algorithm [adjust(raw_total, raw_a, raw_b, cursor)] of section 4.2,
    with [a] the user-like side ([utime], written through [ut]) and [b] the
    system-like side ([stime], written through [st]).  The arithmetic is the
    mathematical one of the text. *)
Definition adjust (curr : task_cputime) (cursor : prev_cputime)
  : prev_cputime * (Z * Z) :=
  let raw_total := sum_exec_runtime curr in
  let raw_a := utime curr in
  let raw_b := stime curr in
  let prev_a := prev_utime cursor in
  let prev_b := prev_stime cursor in
  let sum := raw_a + raw_b in
  if (sum =? 0) && (raw_total =? 0) then (cursor, (prev_a, prev_b))
  else
    let '(a, b) :=
      if sum =? 0 then
        (* the whole total goes to the side that had a share; ties go to b *)
        if negb (prev_a =? 0) && (prev_b =? 0) then (raw_total, 0)
        else (0, raw_total)
      else
        let a := raw_total * raw_a / sum in
        (a, raw_total - a) in
    let a' := if a <? prev_a then prev_a else a in
    let b' := if b <? prev_b then prev_b else b in
    (mk_prev_cputime a' b', (a', b')).

End TimeReconciler.

(** ** The accounting engine

    The machine is described by the number of CPU ids and the possible-CPU
    mask; [for_each_possible_cpu] visits the set bits in increasing order.
    [housekeeping_cpu cpu] stands for [housekeeping_cpu(cpu, HK_FLAG_DOMAIN)]
    (kernel/sched/isolation.c), [nsec_to_clock_t] for the conversion of
    kernel/time/time.c, [get_idle_time] and [get_iowait_time] for the helpers
    of fs/proc/stat.c, and [cputime_adjust] for the reconciler of
    kernel/sched/cputime.c: it receives the sample and the cursor and returns
    the new cursor together with the pair written through [ut] and [st]. *)

Section Engine.

Variable nr_cpu_ids : nat.
Variable cpu_possible : nat -> bool.
Variable housekeeping_cpu : nat -> bool.
Variable nsec_to_clock_t : Z -> Z.
Variable get_idle_time : nat -> Z.
Variable get_iowait_time : nat -> Z.
Variable cputime_adjust : task_cputime -> prev_cputime -> prev_cputime * (Z * Z).

(** The CPUs [for_each_possible_cpu] visits, in order. *)
Definition possible_cpus : list nat := filter cpu_possible (seq 0 nr_cpu_ids).

(** [__cpuusage_read]. *)
Definition __cpuusage_read (mem : cpuacct_mem) (css : nat)
    (index : cpuacct_stat_index) : Z :=
  fold_left (fun totalcpuusage i => u64 (totalcpuusage + cpuacct_cpuusage_read mem css i index))
    possible_cpus 0.

Definition cpuusage_user_read (mem : cpuacct_mem) (css : nat) : Z :=
  __cpuusage_read mem css CPUACCT_STAT_USER.

Definition cpuusage_sys_read (mem : cpuacct_mem) (css : nat) : Z :=
  __cpuusage_read mem css CPUACCT_STAT_SYSTEM.

Definition cpuusage_read (mem : cpuacct_mem) (css : nat) : Z :=
  __cpuusage_read mem css CPUACCT_STAT_NSTATS.

(** [cpuusage_write]: the memory afterwards and the returned status. *)
Definition cpuusage_write (mem : cpuacct_mem) (css : nat) (val : Z)
  : cpuacct_mem * Z :=
  if negb (val =? 0) then (mem, - EINVAL)
  else (fold_left (fun m cpu => cpuacct_cpuusage_write m css cpu 0) possible_cpus mem, 0).

(** [__cpuacct_percpu_seq_show]: the numbers printed on the line. *)
Definition __cpuacct_percpu_seq_show (mem : cpuacct_mem) (ca : nat)
    (index : cpuacct_stat_index) : list Z :=
  map (fun i => cpuacct_cpuusage_read mem ca i index) possible_cpus.

(** One iteration of the loop of [cpuacct_charge]:
    [this_cpu_ptr(ca->cpuusage)->usages[index] += cputime]. *)
Definition charge_one (mem : cpuacct_mem) (ca this_cpu : nat) (index : nat)
    (cputime : Z) : cpuacct_mem :=
  let cu := cpuusage (mem ca) this_cpu in
  upd mem ca
    (set_cpuusage (mem ca)
       (upd (cpuusage (mem ca)) this_cpu
          (set_usages cu (upd (usages cu) index (u64 (usages cu index + cputime)))))).

(** The loop [for (ca = ...; ca; ca = parent_ca(ca))] of [cpuacct_charge],
    bounded by [fuel] iterations. *)
Fixpoint charge_walk (fuel : nat) (this_cpu index : nat) (cputime : Z)
    (ca : option nat) (mem : cpuacct_mem) : outcome cpuacct_mem :=
  match ca with
  | None => Done mem
  | Some g =>
      match fuel with
      | O => OutOfFuel
      | S fuel' =>
          let mem' := charge_one mem g this_cpu index cputime in
          charge_walk fuel' this_cpu index cputime (parent_ca mem' g) mem'
      end
  end.

(** The accumulator [cpuacct_charge] selects for a task. *)
Definition charge_index (tsk : task_struct) : cpuacct_stat_index :=
  match task_pt_regs tsk with
  | Some regs => if user_mode regs then CPUACCT_STAT_USER else CPUACCT_STAT_SYSTEM
  | None => CPUACCT_STAT_SYSTEM
  end.

(** [cpuacct_charge], run on CPU [this_cpu]. *)
Definition cpuacct_charge (fuel : nat) (this_cpu : nat) (tsk : task_struct)
    (cputime : Z) (mem : cpuacct_mem) : outcome cpuacct_mem :=
  charge_walk fuel this_cpu (stat_nr (charge_index tsk)) cputime (task_ca tsk) mem.

(** One iteration of the loop of [cpuacct_account_field]:
    [this_cpu_ptr(ca->cpustat)->cpustat[index] += val]. *)
Definition account_one (mem : cpuacct_mem) (ca this_cpu : nat)
    (index : cpu_usage_stat) (val : Z) : cpuacct_mem :=
  upd mem ca
    (set_cpustat (mem ca)
       (upd (cpustat (mem ca)) this_cpu
          (cpustat_add (cpustat (mem ca) this_cpu) index val))).

(** The loop [for (ca = ...; ca != &root_cpuacct; ca = parent_ca(ca))] of
    [cpuacct_account_field].  A NULL [ca] differs from [&root_cpuacct], so
    the body runs and dereferences it. *)
Fixpoint account_walk (fuel : nat) (this_cpu : nat) (index : cpu_usage_stat)
    (val : Z) (ca : option nat) (mem : cpuacct_mem) : outcome cpuacct_mem :=
  match ca with
  | None => NullDeref
  | Some g =>
      if Nat.eqb g root_cpuacct then Done mem
      else
        match fuel with
        | O => OutOfFuel
        | S fuel' =>
            let mem' := account_one mem g this_cpu index val in
            account_walk fuel' this_cpu index val (parent_ca mem' g) mem'
        end
  end.

(** [cpuacct_account_field], run on CPU [this_cpu]. *)
Definition cpuacct_account_field (fuel : nat) (this_cpu : nat)
    (tsk : task_struct) (index : cpu_usage_stat) (val : Z) (mem : cpuacct_mem)
  : outcome cpuacct_mem :=
  account_walk fuel this_cpu index val (task_ca tsk) mem.

(** ** Idle and iowait windows *)

(** [cgroup_idle_start]; [clock] is [__rq_clock_broken(se->cfs_rq->rq)]. *)
Definition cgroup_idle_start (schedstat_enabled : bool) (clock : Z)
    (e : sched_entity) : sched_entity :=
  if negb schedstat_enabled then e
  else
    mk_sched_entity clock (cg_idle_sum e) (cg_init_time e) (cg_nr_iowait e)
      (if negb (cg_nr_iowait e =? 0) then clock else cg_iowait_start e)
      (cg_iowait_sum e) (cg_ineffective_start e) (cg_ineffective_sum e)
      (sum_exec_raw e).

(** [cgroup_idle_end]. *)
Definition cgroup_idle_end (schedstat_enabled : bool) (clock : Z)
    (e : sched_entity) : sched_entity :=
  if negb schedstat_enabled then e
  else
    let idle_start := cg_idle_start e in
    let iowait_start := cg_iowait_start e in
    mk_sched_entity 0 (u64 (cg_idle_sum e + u64 (clock - idle_start)))
      (cg_init_time e) (cg_nr_iowait e)
      (if negb (cg_nr_iowait e =? 0) then 0 else cg_iowait_start e)
      (if negb (cg_nr_iowait e =? 0)
       then u64 (cg_iowait_sum e + u64 (clock - iowait_start))
       else cg_iowait_sum e)
      (cg_ineffective_start e) (cg_ineffective_sum e) (sum_exec_raw e).

(** ** The per-CPU usage snapshot *)

(** What the [memset] of [res] to zero leaves. *)
Definition zero_usage_result : cpuacct_usage_result :=
  mk_cpuacct_usage_result 0 0 0 0 0 0 0 0 0 0.

(** [__cpuacct_get_usage_result]; [clock] is what [cpu_clock(cpu)] returns.
    The function advances the two cursors of [(ca, cpu)] and fills [res]. *)
Definition __cpuacct_get_usage_result (schedstat_enabled : bool)
    (mem : cpuacct_mem) (ca cpu : nat) (tg : option task_group) (clock : Z)
  : cpuacct_mem * cpuacct_usage_result :=
  let kcpustat := cpustat (mem ca) cpu in
  match tg with
  | None => (mem, zero_usage_result)
  | Some tg =>
      let se := se tg cpu in
      let cu := cpuusage (mem ca) cpu in
      let tick_user := kcpustat CPUTIME_USER in
      let tick_nice := kcpustat CPUTIME_NICE in
      let tick_sys := kcpustat CPUTIME_SYSTEM in
      (* Calculate system run time *)
      let cputime :=
        {| sum_exec_runtime :=
             u64 (usages cu (stat_nr CPUACCT_STAT_USER)
                  + usages cu (stat_nr CPUACCT_STAT_SYSTEM));
           utime := u64 (tick_user + tick_nice);
           stime := tick_sys |} in
      let '(p1, (left1, right1)) := cputime_adjust cputime (prev_cputime1 cu) in
      let res_system := right1 in
      (* Calculate user and nice run time *)
      let cputime :=
        {| sum_exec_runtime := left1; (* user + nice *)
           utime := tick_user;
           stime := tick_nice |} in
      let '(p2, (left2, right2)) := cputime_adjust cputime (prev_cputime2 cu) in
      let res_user := left2 in
      let res_nice := right2 in
      let res_irq := kcpustat CPUTIME_IRQ in
      let res_softirq := kcpustat CPUTIME_SOFTIRQ in
      let '(res_idle, res_iowait, res_steal) :=
        match se with
        | Some se =>
            if schedstat_enabled then
              let res_idle := cg_idle_sum se in
              let idle_start := cg_idle_start se in
              let res_idle :=
                if negb (idle_start =? 0) && (idle_start <? clock)
                then u64 (res_idle + u64 (clock - idle_start))
                else res_idle in
              let ineff := cg_ineffective_sum se in
              let ineff_start := cg_ineffective_start se in
              let ineff :=
                if negb (ineff_start =? 0)
                then u64 (ineff + u64 (clock - ineff_start))
                else ineff in
              let res_iowait := cg_iowait_sum se in
              let iowait_start := cg_iowait_start se in
              let res_iowait :=
                if negb (iowait_start =? 0)
                then u64 (res_iowait + u64 (clock - iowait_start))
                else res_iowait in
              let elapse := u64 (clock - cg_init_time se) in
              let complement := u64 (u64 (res_idle + sum_exec_raw se) + ineff) in
              let res_steal :=
                if complement <? elapse then u64 (elapse - complement) else 0 in
              let res_idle := u64 (res_idle - res_iowait) in
              (res_idle, res_iowait, res_steal)
            else (0, 0, 0)
        | None => (0, 0, 0)
        end in
      let res_guest := kcpustat CPUTIME_GUEST in
      let res_guest_nice := kcpustat CPUTIME_GUEST_NICE in
      (upd mem ca
         (set_cpuusage (mem ca)
            (upd (cpuusage (mem ca)) cpu (mk_cpuacct_usage (usages cu) p1 p2))),
       mk_cpuacct_usage_result res_user res_nice res_system res_irq res_softirq
         res_steal res_iowait res_idle res_guest res_guest_nice)
  end.

(** ** The [proc_stat] file *)

(** One pass of the loop of [cpuacct_proc_stats_show] for a group other than
    the root.  [cpu_clock cpu] is the reading [cpu_clock(cpu)] returns during
    this pass. *)
Definition proc_stats_step (schedstat_enabled : bool) (tg : option task_group)
    (cpu_clock : nat -> Z) (ca : nat) (s : cpuacct_mem * proc_stat_sums)
    (cpu : nat) : cpuacct_mem * proc_stat_sums :=
  if negb (housekeeping_cpu cpu) then s
  else
    let '(mem, acc) := s in
    let '(mem', res) :=
      __cpuacct_get_usage_result schedstat_enabled mem ca cpu tg (cpu_clock cpu) in
    let alistats := alistats (mem' ca) cpu in
    (mem',
     {| tot_user := u64 (tot_user acc + user res);
        tot_nice := u64 (tot_nice acc + nice res);
        tot_system := u64 (tot_system acc + system res);
        tot_idle := u64 (tot_idle acc + idle res);
        tot_iowait := u64 (tot_iowait acc + iowait res);
        tot_irq := u64 (tot_irq acc + irq res);
        tot_softirq := u64 (tot_softirq acc + softirq res);
        tot_steal := u64 (tot_steal acc + steal res);
        tot_guest := u64 (u64 (tot_guest acc + guest res) + guest_nice res);
        tot_nr_migrations := u64 (tot_nr_migrations acc + nr_migrations alistats) |}).

(** One pass of the loop of [cpuacct_proc_stats_show] for the root group.
    [kcpustat_cpu(cpu)] is the per-CPU [kernel_cpustat], which is the root
    group's [cpustat]. *)
Definition proc_stats_root_step (mem : cpuacct_mem) (ca : nat)
    (acc : proc_stat_sums) (cpu : nat) : proc_stat_sums :=
  let kcpustat := cpustat (mem ca) cpu in
  let alistats := alistats (mem ca) cpu in
  {| tot_user := u64 (tot_user acc + kcpustat CPUTIME_USER);
     tot_nice := u64 (tot_nice acc + kcpustat CPUTIME_NICE);
     tot_system := u64 (tot_system acc + kcpustat CPUTIME_SYSTEM);
     tot_idle := u64 (tot_idle acc + get_idle_time cpu);
     tot_iowait := u64 (tot_iowait acc + get_iowait_time cpu);
     tot_irq := u64 (tot_irq acc + kcpustat CPUTIME_IRQ);
     tot_softirq := u64 (tot_softirq acc + kcpustat CPUTIME_SOFTIRQ);
     tot_steal := u64 (tot_steal acc + cpustat (mem root_cpuacct) cpu CPUTIME_STEAL);
     tot_guest :=
       u64 (u64 (tot_guest acc + kcpustat CPUTIME_GUEST) + kcpustat CPUTIME_GUEST_NICE);
     tot_nr_migrations := u64 (tot_nr_migrations acc + nr_migrations alistats) |}.

(** The sums [cpuacct_proc_stats_show] holds when its loop is over, and the
    memory the loop leaves. *)
Definition proc_stats_sums (schedstat_enabled : bool) (tg : option task_group)
    (cpu_clock : nat -> Z) (mem : cpuacct_mem) (ca : nat)
  : cpuacct_mem * proc_stat_sums :=
  if negb (Nat.eqb ca root_cpuacct) then
    fold_left (proc_stats_step schedstat_enabled tg cpu_clock ca)
      possible_cpus (mem, zero_proc_stat_sums)
  else
    (mem, fold_left (proc_stats_root_step mem ca) possible_cpus zero_proc_stat_sums).

(** [cpuacct_proc_stats_show]: the memory afterwards and the lines printed,
    each a name and the number [seq_printf] prints for it.  Every number is a
    [u64] printed with [%lld], so as a signed 64-bit value. *)
Definition cpuacct_proc_stats_show (schedstat_enabled : bool)
    (tg : option task_group) (cpu_clock : nat -> Z) (mem : cpuacct_mem)
    (ca : nat) : cpuacct_mem * list (string * Z) :=
  let '(mem', t) := proc_stats_sums schedstat_enabled tg cpu_clock mem ca in
  (mem',
   [ ("user"%string, s64 (nsec_to_clock_t (tot_user t)));
     ("nice"%string, s64 (nsec_to_clock_t (tot_nice t)));
     ("system"%string, s64 (nsec_to_clock_t (tot_system t)));
     ("idle"%string, s64 (nsec_to_clock_t (tot_idle t)));
     ("iowait"%string, s64 (nsec_to_clock_t (tot_iowait t)));
     ("irq"%string, s64 (nsec_to_clock_t (tot_irq t)));
     ("softirq"%string, s64 (nsec_to_clock_t (tot_softirq t)));
     ("steal"%string, s64 (nsec_to_clock_t (tot_steal t)));
     ("guest"%string, s64 (nsec_to_clock_t (tot_guest t)));
     ("nr_migrations"%string, s64 (tot_nr_migrations t)) ]).

End Engine.

(** * Auxiliary definitions

    What the loops do to one object, the hierarchy, the samples of the two
    reconciliation steps, the window sums, and a concrete machine. *)

(** ** Object-level view of the loops *)

(** What [cpuacct_cpuusage_write] does to the object it is given. *)
Definition usage_write_ca (cpu : nat) (val : Z) (c : cpuacct) : cpuacct :=
  set_cpuusage c
    (upd (cpuusage c) cpu
       (set_usages (cpuusage c cpu)
          (fold_left (fun us i => upd us i val)
             (seq 0 (stat_nr CPUACCT_STAT_NSTATS)) (usages (cpuusage c cpu))))).

(** ** The two reconciliation steps of a snapshot *)

(** The sample of the first step: the total execution time is the sum of the
    user and system accumulators, to be split along the ticks
    [(utime + unice, stime)]. *)
Definition exec_sample (mem : cpuacct_mem) (ca cpu : nat) : task_cputime :=
  let cu := cpuusage (mem ca) cpu in
  let k := cpustat (mem ca) cpu in
  {| sum_exec_runtime :=
       u64 (usages cu (stat_nr CPUACCT_STAT_USER) + usages cu (stat_nr CPUACCT_STAT_SYSTEM));
     utime := u64 (k CPUTIME_USER + k CPUTIME_NICE);
     stime := k CPUTIME_SYSTEM |}.

(** The sample of the second step: the user+nice share [user_nice] of the
    first step, to be split along the ticks [(utime, unice)]. *)
Definition user_nice_sample (mem : cpuacct_mem) (ca cpu : nat) (user_nice : Z)
  : task_cputime :=
  let k := cpustat (mem ca) cpu in
  {| sum_exec_runtime := user_nice;
     utime := k CPUTIME_USER;
     stime := k CPUTIME_NICE |}.

(** The first call of the reconciler in a snapshot of [(ca, cpu)]. *)
Definition first_adjust
    (cputime_adjust : task_cputime -> prev_cputime -> prev_cputime * (Z * Z))
    (mem : cpuacct_mem) (ca cpu : nat) : prev_cputime * (Z * Z) :=
  cputime_adjust (exec_sample mem ca cpu) (prev_cputime1 (cpuusage (mem ca) cpu)).

(** The second call of the reconciler in a snapshot of [(ca, cpu)]. *)
Definition second_adjust
    (cputime_adjust : task_cputime -> prev_cputime -> prev_cputime * (Z * Z))
    (mem : cpuacct_mem) (ca cpu : nat) : prev_cputime * (Z * Z) :=
  cputime_adjust
    (user_nice_sample mem ca cpu (fst (snd (first_adjust cputime_adjust mem ca cpu))))
    (prev_cputime2 (cpuusage (mem ca) cpu)).

(** ** Runs of the reconciler *)

(** A sequence of adjustments on one cursor: the cursor each call leaves is
    the one the next call receives; the result lists what each call reported. *)
Fixpoint adjust_run (cursor : prev_cputime) (samples : list task_cputime)
  : list (Z * Z) :=
  match samples with
  | [] => []
  | s :: rest =>
      let '(cursor', out) := TimeReconciler.adjust s cursor in
      out :: adjust_run cursor' rest
  end.

(** Every pair of a list is componentwise at least the pair before it,
    starting from [lo]. *)
Fixpoint nondecreasing_from (lo : Z * Z) (l : list (Z * Z)) : Prop :=
  match l with
  | [] => True
  | p :: rest => fst lo <= fst p /\ snd lo <= snd p /\ nondecreasing_from p rest
  end.

(** What the callers in this file rely on from [cputime_adjust]: a call
    stores in the cursor the pair it reports, and reports no component below
    what the cursor held. *)
Definition reconciler_monotone
    (adjust : task_cputime -> prev_cputime -> prev_cputime * (Z * Z)) : Prop :=
  forall (curr : task_cputime) (cursor : prev_cputime),
    prev_utime (fst (adjust curr cursor)) = fst (snd (adjust curr cursor)) /\
    prev_stime (fst (adjust curr cursor)) = snd (snd (adjust curr cursor)) /\
    prev_utime cursor <= fst (snd (adjust curr cursor)) /\
    prev_stime cursor <= snd (snd (adjust curr cursor)).

(** ** The group hierarchy *)

(** [path_to_root mem g l]: following [parent_ca] from [g] visits exactly the
    groups of [l], in order, and ends at the root group, which has no parent.
    The hierarchy manager keeps such a path in place for every group. *)
Inductive path_to_root (mem : cpuacct_mem) : nat -> list nat -> Prop :=
| path_root :
    parent_ca mem root_cpuacct = None ->
    path_to_root mem root_cpuacct [root_cpuacct]
| path_step (g p : nat) (l : list nat) :
    g <> root_cpuacct ->
    parent_ca mem g = Some p ->
    path_to_root mem p l ->
    path_to_root mem g (g :: l).

(** ** Charges along a path *)

(** What one iteration of the loop of [cpuacct_charge] does to the object it
    visits. *)
Definition charge_ca (cpu index : nat) (x : Z) (c : cpuacct) : cpuacct :=
  set_cpuusage c
    (upd (cpuusage c) cpu
       (set_usages (cpuusage c cpu)
          (upd (usages (cpuusage c cpu)) index
             (u64 (usages (cpuusage c cpu) index + x))))).

(** The charges [cpuacct_charge] makes along a list of groups. *)
Definition charge_along (cpu index : nat) (x : Z) (l : list nat)
    (mem : cpuacct_mem) : cpuacct_mem :=
  fold_left (fun m g => upd m g (charge_ca cpu index x (m g))) l mem.

(** A sequence of charges delivered on one CPU. *)
Fixpoint cpuacct_charges (fuel this_cpu : nat) (charges : list (task_struct * Z))
    (mem : cpuacct_mem) : outcome cpuacct_mem :=
  match charges with
  | [] => Done mem
  | (tsk, cputime) :: rest =>
      match cpuacct_charge fuel this_cpu tsk cputime mem with
      | Done mem' => cpuacct_charges fuel this_cpu rest mem'
      | NullDeref => NullDeref
      | OutOfFuel => OutOfFuel
      end
  end.

(** What one iteration of the loop of [cpuacct_account_field] does to the
    object it visits. *)
Definition account_ca (cpu : nat) (index : cpu_usage_stat) (val : Z) (c : cpuacct)
  : cpuacct :=
  set_cpustat c (upd (cpustat c) cpu (cpustat_add (cpustat c cpu) index val)).

(** The increments [cpuacct_account_field] makes along a list of groups. *)
Definition account_along (cpu : nat) (index : cpu_usage_stat) (val : Z)
    (l : list nat) (mem : cpuacct_mem) : cpuacct_mem :=
  fold_left (fun m g => upd m g (account_ca cpu index val (m g))) l mem.

(** ** Window sums at a clock reading *)

(** The idle sum at [clock]: the accumulated sum, extended by
    [clock - start] when the window is open (a non-zero start) and [clock] is
    later than its start. *)
Definition idle_sum_at (e : sched_entity) (clock : Z) : Z :=
  if (cg_idle_start e =? 0) || (clock <=? cg_idle_start e)
  then cg_idle_sum e
  else u64 (cg_idle_sum e + (clock - cg_idle_start e)).

(** The iowait sum at [clock]: the accumulated sum, extended by
    [clock - start] (modulo 2^64) when the window is open. *)
Definition iowait_sum_at (e : sched_entity) (clock : Z) : Z :=
  if cg_iowait_start e =? 0
  then cg_iowait_sum e
  else u64 (cg_iowait_sum e + (clock - cg_iowait_start e)).

(** The ineffective sum at [clock], extended like the iowait sum. *)
Definition ineffective_sum_at (e : sched_entity) (clock : Z) : Z :=
  if cg_ineffective_start e =? 0
  then cg_ineffective_sum e
  else u64 (cg_ineffective_sum e + (clock - cg_ineffective_start e)).

(** ** The sums of [proc_stat] *)

(** What one pass of the loop adds to the local sums, given the snapshot of
    the CPU and its migration count. *)
Definition add_usage_result (acc : proc_stat_sums) (res : cpuacct_usage_result)
    (migrations : Z) : proc_stat_sums :=
  {| tot_user := u64 (tot_user acc + user res);
     tot_nice := u64 (tot_nice acc + nice res);
     tot_system := u64 (tot_system acc + system res);
     tot_idle := u64 (tot_idle acc + idle res);
     tot_iowait := u64 (tot_iowait acc + iowait res);
     tot_irq := u64 (tot_irq acc + irq res);
     tot_softirq := u64 (tot_softirq acc + softirq res);
     tot_steal := u64 (tot_steal acc + steal res);
     tot_guest := u64 (u64 (tot_guest acc + guest res) + guest_nice res);
     tot_nr_migrations := u64 (tot_nr_migrations acc + migrations) |}.

(** The snapshot of one CPU, taken on the memory found when the file is read. *)
Definition cpu_snapshot
    (cputime_adjust : task_cputime -> prev_cputime -> prev_cputime * (Z * Z))
    (en : bool) (tg : option task_group) (cpu_clock : nat -> Z)
    (mem : cpuacct_mem) (ca cpu : nat) : cpuacct_mem * cpuacct_usage_result :=
  __cpuacct_get_usage_result cputime_adjust en mem ca cpu tg (cpu_clock cpu).

(** ** A concrete machine

    Two possible CPUs, of which CPU 1 is isolated from the scheduler domains
    (not a housekeeping CPU); [USER_HZ] is 100, so a clock tick is 10^7 ns.
    The memory holds the root group at address 0, a group at address 1 whose
    parent is the root, and a group at address 2 whose parent is group 1, all
    as created and then linked under their parents. *)

Definition demo_nr_cpu_ids : nat := 2.

Definition demo_cpu_possible (cpu : nat) : bool := true.

Definition demo_housekeeping_cpu (cpu : nat) : bool := Nat.eqb cpu 0.

Definition demo_nsec_to_clock_t (x : Z) : Z := x / 10000000.

Definition demo_mem : cpuacct_mem :=
  fun a =>
    match a with
    | 1%nat => set_css_parent (cpuacct_css_alloc 0) (Some 0%nat)
    | 2%nat => set_css_parent (cpuacct_css_alloc 1) (Some 1%nat)
    | _ => root_cpuacct_init
    end.

(** A task of group 2 running in user mode, and one running in kernel mode. *)
Definition demo_user_task : task_struct :=
  {| task_ca := Some 2%nat; task_pt_regs := Some {| user_mode := true |} |}.

Definition demo_kernel_task : task_struct :=
  {| task_ca := Some 2%nat; task_pt_regs := Some {| user_mode := false |} |}.

(** A kernel thread of the root group. *)
Definition demo_root_task : task_struct :=
  {| task_ca := Some root_cpuacct; task_pt_regs := None |}.

(** A task of group 1. *)
Definition demo_task1 : task_struct :=
  {| task_ca := Some 1%nat; task_pt_regs := None |}.

(** A scheduling entity created at time 10 that has run for 30 and has
    accumulated 20 of idle time, with every window closed. *)
Definition demo_se : sched_entity :=
  {| cg_idle_start := 0; cg_idle_sum := 20; cg_init_time := 10;
     cg_nr_iowait := 0; cg_iowait_start := 0; cg_iowait_sum := 0;
     cg_ineffective_start := 0; cg_ineffective_sum := 0;
     sum_exec_raw := 30 |}.

(** The same entity with an idle window whose recorded start, 120, is ahead
    of the clock of the reader. *)
Definition demo_se_idle_ahead : sched_entity :=
  {| cg_idle_start := 120; cg_idle_sum := 20; cg_init_time := 10;
     cg_nr_iowait := 0; cg_iowait_start := 0; cg_iowait_sum := 0;
     cg_ineffective_start := 0; cg_ineffective_sum := 0;
     sum_exec_raw := 30 |}.

Definition demo_tg (e : sched_entity) : task_group := {| se := fun _ => Some e |}.

(** The user accumulator of [(g, CPU 0)] holds 2^64 - 1 in [m1] and 0 in [m2],
    and neither it nor the total usage of [g] is one more in [m2] than in [m1]. *)
Definition wrapped_by_one (m1 m2 : cpuacct_mem) (g : nat) : Prop :=
  usages (cpuusage (m1 g) 0%nat) 0%nat = U64_MAX /\
  usages (cpuusage (m2 g) 0%nat) 0%nat = 0 /\
  usages (cpuusage (m2 g) 0%nat) 0%nat <> usages (cpuusage (m1 g) 0%nat) 0%nat + 1 /\
  cpuusage_read demo_nr_cpu_ids demo_cpu_possible m2 g
  <> cpuusage_read demo_nr_cpu_ids demo_cpu_possible m1 g + 1.

(** An entity idle since 40 and in iowait since 60, with 20 of idle time and
    5 of iowait time accumulated before. *)
Definition demo_se_waiting : sched_entity :=
  {| cg_idle_start := 40; cg_idle_sum := 20; cg_init_time := 10;
     cg_nr_iowait := 1; cg_iowait_start := 60; cg_iowait_sum := 5;
     cg_ineffective_start := 0; cg_ineffective_sum := 0;
     sum_exec_raw := 30 |}.

(** Group 2 after 100 units of user time were charged to it on CPU 0. *)
Definition demo_mem_busy : cpuacct_mem := charge_one demo_mem 2 0 0 100.

(** Group 1 after three migrations into it on CPU 0 and four on CPU 1. *)
Definition demo_mem_migrated : cpuacct_mem :=
  upd demo_mem 1
    (set_alistats (demo_mem 1%nat)
       (fun cpu => mk_cpuacct_alistats (if Nat.eqb cpu 0 then 3 else 4))).

(** * The other files and hooks of cpuacct.c *)

(** [-ENOMEM]; the constant comes from [errno-base.h]. *)
Definition ENOMEM : Z := 12.

(** [cpuacct_stat_desc]; the array has the two entries [user] and [system]. *)
Definition cpuacct_stat_desc (index : nat) : string :=
  match index with
  | 0%nat => "user"%string
  | 1%nat => "system"%string
  | _ => ""%string   (* outside the array *)
  end.

Section Files.

Variable nr_cpu_ids : nat.
Variable cpu_possible : nat -> bool.
Variable nsec_to_clock_t : Z -> Z.

(** [cpuacct_all_seq_show]: the words of the header line, and for every
    possible CPU its number followed by the numbers printed after it. *)
Definition cpuacct_all_seq_show (mem : cpuacct_mem) (ca : nat)
  : list string * list (nat * list Z) :=
  ("cpu"%string :: map cpuacct_stat_desc (seq 0 (stat_nr CPUACCT_STAT_NSTATS)),
   map (fun cpu =>
          let cpuusage := cpuusage (mem ca) cpu in
          (cpu, map (fun index => usages cpuusage index)
                  (seq 0 (stat_nr CPUACCT_STAT_NSTATS))))
     (possible_cpus nr_cpu_ids cpu_possible)).

(** One pass of the loop of [cpuacct_stats_show] over the possible CPUs.
    [val] holds [s64] values; each [+=] adds a [u64] to it. *)
Definition stats_show_step (mem : cpuacct_mem) (ca : nat) (val : nat -> Z)
    (cpu : nat) : nat -> Z :=
  let cpustat := cpustat (mem ca) cpu in
  let USER := stat_nr CPUACCT_STAT_USER in
  let SYSTEM := stat_nr CPUACCT_STAT_SYSTEM in
  let val := upd val USER (s64 (val USER + cpustat CPUTIME_USER)) in
  let val := upd val USER (s64 (val USER + cpustat CPUTIME_NICE)) in
  let val := upd val SYSTEM (s64 (val SYSTEM + cpustat CPUTIME_SYSTEM)) in
  let val := upd val SYSTEM (s64 (val SYSTEM + cpustat CPUTIME_IRQ)) in
  let val := upd val SYSTEM (s64 (val SYSTEM + cpustat CPUTIME_SOFTIRQ)) in
  val.

(** The array [val] of [cpuacct_stats_show] when that loop is over; the
    [memset] has zeroed it before. *)
Definition cpuacct_stats_vals (mem : cpuacct_mem) (ca : nat) : nat -> Z :=
  fold_left (stats_show_step mem ca)
    (possible_cpus nr_cpu_ids cpu_possible) (fun _ => 0).

(** [cpuacct_stats_show]: the lines printed, each a name and the number
    printed with [%lld].  [nsec_to_clock_t] takes and returns a [u64]. *)
Definition cpuacct_stats_show (mem : cpuacct_mem) (ca : nat) : list (string * Z) :=
  map (fun stat =>
         (cpuacct_stat_desc stat,
          s64 (nsec_to_clock_t (u64 (cpuacct_stats_vals mem ca stat)))))
    (seq 0 (stat_nr CPUACCT_STAT_NSTATS)).

End Files.

(** ** CPUs entering and leaving the cpuset of a group *)

(** The body of the loop over [added] in [cpuacct_cpuset_changed], for the
    entity of one CPU; [clock] is the clock of the run queue of that CPU, read
    by [cgroup_idle_start] through the entity and by the loop through
    [cpu_rq(cpu)].  The caller has checked that schedstats are enabled. *)
Definition cpuset_cpu_added (clock : Z) (e : sched_entity) : sched_entity :=
  let e := cgroup_idle_start true clock e in
  mk_sched_entity (cg_idle_start e) (cg_idle_sum e) (cg_init_time e)
    (cg_nr_iowait e) (cg_iowait_start e) (cg_iowait_sum e)
    0 (u64 (cg_ineffective_sum e + u64 (clock - cg_ineffective_start e)))
    (sum_exec_raw e).

(** The body of the loop over [deleted] in [cpuacct_cpuset_changed]. *)
Definition cpuset_cpu_deleted (clock : Z) (e : sched_entity) : sched_entity :=
  let e := cgroup_idle_end true clock e in
  mk_sched_entity (cg_idle_start e) (cg_idle_sum e) (cg_init_time e)
    (cg_nr_iowait e) (cg_iowait_start e) (cg_iowait_sum e)
    clock (cg_ineffective_sum e) (sum_exec_raw e).

(** A loop [for_each_cpu(cpu, mask)] that rewrites [tg->se[cpu]] in place.
    The entity pointer is dereferenced without a check. *)
Fixpoint for_each_se (body : nat -> sched_entity -> sched_entity)
    (cpus : list nat) (tg : task_group) : outcome task_group :=
  match cpus with
  | [] => Done tg
  | cpu :: rest =>
      match se tg cpu with
      | None => NullDeref
      | Some e =>
          for_each_se body rest (mk_task_group (upd (se tg) cpu (Some (body cpu e))))
      end
  end.

(** [cpuacct_cpuset_changed].  [tg] is [cgroup_tg(cgrp)]; a mask is a bit per
    CPU number below [nr_cpu_ids], and either mask pointer may be NULL. *)
Definition cpuacct_cpuset_changed (nr_cpu_ids : nat) (schedstat_enabled : bool)
    (rq_clock : nat -> Z) (tg : option task_group)
    (deleted added : option (nat -> bool)) : outcome (option task_group) :=
  if negb schedstat_enabled then Done tg
  else
    match tg with
    | None => Done None
    | Some tg =>
        let after_added :=
          match added with
          | Some mask =>
              (* Mark newly added cpus as newly-idle *)
              for_each_se (fun cpu => cpuset_cpu_added (rq_clock cpu))
                (filter mask (seq 0 nr_cpu_ids)) tg
          | None => Done tg
          end in
        match after_added with
        | Done tg =>
            match deleted with
            | Some mask =>
                (* Mark ineffective_cpus as idle-invalid *)
                match for_each_se (fun cpu => cpuset_cpu_deleted (rq_clock cpu))
                        (filter mask (seq 0 nr_cpu_ids)) tg with
                | Done tg => Done (Some tg)
                | NullDeref => NullDeref
                | OutOfFuel => OutOfFuel
                end
            | None => Done (Some tg)
            end
        | NullDeref => NullDeref
        | OutOfFuel => OutOfFuel
        end
    end.

(** ** Creation and destruction of a group *)

(** The four allocations of [cpuacct_css_alloc]. *)
Inductive allocation : Type :=
| the_ca            (* kzalloc(sizeof( *ca)) *)
| the_cpuusage      (* alloc_percpu(struct cpuacct_usage) *)
| the_cpustat       (* alloc_percpu(struct kernel_cpustat) *)
| the_alistats.     (* alloc_percpu(struct cpuacct_alistats) *)

(** What the allocator is asked to do, in order. *)
Inductive heap_event : Type :=
| Allocated (a : allocation)
| Freed (a : allocation).

(** Whether each request of [cpuacct_css_alloc] is granted. *)
Record allocator : Type := mk_allocator {
  grants_ca : bool;
  grants_cpuusage : bool;
  grants_cpustat : bool;
  grants_alistats : bool
}.

(** What [cpuacct_css_alloc] returns: [&root_cpuacct.css], the css of a new
    object, or an [ERR_PTR]. *)
Inductive css_alloc_result : Type :=
| css_root
| css_new (ca : cpuacct)
| css_err (errno : Z).

(** [cpuacct_css_alloc] on every path: the value returned and the requests
    made to the allocator, a failed request leaving no event. *)
Definition cpuacct_css_alloc_paths (parent_css : option nat) (a : allocator)
  : css_alloc_result * list heap_event :=
  match parent_css with
  | None => (css_root, [])
  | Some parent =>
      if negb (grants_ca a) then (css_err (- ENOMEM), [])
      else if negb (grants_cpuusage a) then
        (* out_free_ca *)
        (css_err (- ENOMEM), [Allocated the_ca; Freed the_ca])
      else if negb (grants_cpustat a) then
        (* out_free_cpuusage *)
        (css_err (- ENOMEM),
         [Allocated the_ca; Allocated the_cpuusage;
          Freed the_cpuusage; Freed the_ca])
      else if negb (grants_alistats a) then
        (* out_free_cpustat *)
        (css_err (- ENOMEM),
         [Allocated the_ca; Allocated the_cpuusage; Allocated the_cpustat;
          Freed the_cpustat; Freed the_cpuusage; Freed the_ca])
      else
        (css_new (cpuacct_css_alloc parent),
         [Allocated the_ca; Allocated the_cpuusage; Allocated the_cpustat;
          Allocated the_alistats])
  end.

(** [cpuacct_css_free]: the requests made to the allocator. *)
Definition cpuacct_css_free : list heap_event :=
  [Freed the_cpustat; Freed the_cpuusage; Freed the_alistats; Freed the_ca].

Definition allocation_eqb (a b : allocation) : bool :=
  match a, b with
  | the_ca, the_ca | the_cpuusage, the_cpuusage
  | the_cpustat, the_cpustat | the_alistats, the_alistats => true
  | _, _ => false
  end.

(** Replays a sequence of requests on the set [live] of allocations held:
    [None] when an allocation is requested while held, or freed while not
    held. *)
Fixpoint replay (events : list heap_event) (live : list allocation)
  : option (list allocation) :=
  match events with
  | [] => Some live
  | Allocated a :: rest =>
      if existsb (allocation_eqb a) live then None else replay rest (a :: live)
  | Freed a :: rest =>
      if existsb (allocation_eqb a) live
      then replay rest (filter (fun b => negb (allocation_eqb a b)) live)
      else None
  end.

(** ** Masks and a further entity *)

(** Whether a loop [for_each_cpu(cpu, mask)] guarded by [if (mask)] visits
    [cpu]: the mask pointer is not NULL, the CPU number is below
    [nr_cpu_ids], and its bit is set. *)
Definition in_mask (nr_cpu_ids : nat) (mask : option (nat -> bool)) (cpu : nat)
  : bool :=
  match mask with
  | Some m => Nat.ltb cpu nr_cpu_ids && m cpu
  | None => false
  end.

(** An entity created at time 10 that has run for 10 and has accumulated 5 of
    idle time, idle again since 40. *)
Definition demo_se_light : sched_entity :=
  {| cg_idle_start := 40; cg_idle_sum := 5; cg_init_time := 10;
     cg_nr_iowait := 0; cg_iowait_start := 0; cg_iowait_sum := 0;
     cg_ineffective_start := 0; cg_ineffective_sum := 0;
     sum_exec_raw := 10 |}.

(** * Properties *)

(** ** Arithmetic modulo 2^64 *)

Lemma u64_range (z : Z) : 0 <= u64 z <= U64_MAX.
Proof.
  unfold u64, U64_MAX.
  pose proof (Z.mod_pos_bound z (2 ^ 64) ltac:(lia)). lia.
Qed.

Lemma u64_small (z : Z) : is_u64 z -> u64 z = z.
Proof.
  unfold is_u64, U64_MAX, u64. intros H. apply Z.mod_small. lia.
Qed.

Lemma u64_idem (z : Z) : u64 (u64 z) = u64 z.
Proof. unfold u64. apply Z.mod_mod. lia. Qed.

Lemma u64_add_l (a b : Z) : u64 (u64 a + b) = u64 (a + b).
Proof. unfold u64. apply Zplus_mod_idemp_l. Qed.

Lemma u64_add_r (a b : Z) : u64 (a + u64 b) = u64 (a + b).
Proof. unfold u64. apply Zplus_mod_idemp_r. Qed.

Lemma u64_sub_l (a b : Z) : u64 (u64 a - b) = u64 (a - b).
Proof. unfold u64. apply Zminus_mod_idemp_l. Qed.

Lemma u64_sub_r (a b : Z) : u64 (a - u64 b) = u64 (a - b).
Proof. unfold u64. apply Zminus_mod_idemp_r. Qed.

Lemma u64_0 : u64 0 = 0.
Proof. reflexivity. Qed.

(** A loop that accumulates [f x] into a [u64] computes the sum modulo 2^64. *)
Lemma fold_u64_sum_from {A : Type} (f : A -> Z) (l : list A) (a0 : Z) :
  fold_left (fun a x => u64 (a + f x)) l (u64 a0) = u64 (a0 + sum_Z (map f l)).
Proof.
  revert a0. induction l as [|x l IH]; intros a0; simpl.
  - now rewrite Z.add_0_r.
  - rewrite u64_add_l, IH. f_equal. lia.
Qed.

Lemma fold_u64_sum {A : Type} (f : A -> Z) (l : list A) :
  fold_left (fun a x => u64 (a + f x)) l 0 = u64 (sum_Z (map f l)).
Proof.
  rewrite <- u64_0 at 1. now rewrite fold_u64_sum_from.
Qed.

Lemma sum_Z_map_zero {A : Type} (f : A -> Z) (l : list A) :
  (forall x, In x l -> f x = 0) -> sum_Z (map f l) = 0.
Proof.
  induction l as [|a l IH]; intros H; simpl; [reflexivity|].
  rewrite H by (now left). rewrite IH by (intros x Hx; apply H; now right).
  reflexivity.
Qed.

(** ** Slots *)

Lemma upd_same {A : Type} (f : nat -> A) (k : nat) (v : A) : upd f k v k = v.
Proof. unfold upd. now rewrite Nat.eqb_refl. Qed.

Lemma upd_other {A : Type} (f : nat -> A) (k j : nat) (v : A) :
  j <> k -> upd f k v j = f j.
Proof.
  intros H. unfold upd. destruct (Nat.eqb_spec j k); [contradiction | reflexivity].
Qed.

Lemma cpu_usage_stat_eqb_spec (a b : cpu_usage_stat) :
  reflect (a = b) (cpu_usage_stat_eqb a b).
Proof.
  destruct a, b; simpl; constructor; congruence.
Qed.

(** A memory update that rewrites each listed object in place:
    the shape of every walk and of every per-CPU loop on one group. *)
Lemma fold_upd_notin (h : cpuacct -> cpuacct) (l : list nat) (mem : cpuacct_mem) (g : nat) :
  ~ In g l ->
  fold_left (fun m a => upd m a (h (m a))) l mem g = mem g.
Proof.
  revert mem. induction l as [|a l IH]; intros mem Hnotin; simpl; [reflexivity|].
  rewrite IH by (intros H; apply Hnotin; now right).
  apply upd_other. intros ->. apply Hnotin. now left.
Qed.

Lemma fold_upd_in (h : cpuacct -> cpuacct) (l : list nat) (mem : cpuacct_mem) (g : nat) :
  NoDup l -> In g l ->
  fold_left (fun m a => upd m a (h (m a))) l mem g = h (mem g).
Proof.
  revert mem. induction l as [|a l IH]; intros mem Hnd Hin; [easy|].
  inversion Hnd as [|? ? Hnotin Hnd']; subst. simpl.
  destruct Hin as [->|Hin].
  - rewrite fold_upd_notin by assumption. apply upd_same.
  - rewrite IH by assumption. rewrite upd_other; [reflexivity|].
    intros ->. contradiction.
Qed.

Arguments u64 z : simpl never.

(** ** The reset file *)

Lemma cpuacct_cpuusage_write_at (mem : cpuacct_mem) (ca cpu : nat) (val : Z) (g : nat) :
  cpuacct_cpuusage_write mem ca cpu val g
  = if Nat.eqb g ca then usage_write_ca cpu val (mem ca) else mem g.
Proof. reflexivity. Qed.

Lemma usage_write_loop_at (l : list nat) (mem : cpuacct_mem) (css : nat) (val : Z) (g : nat) :
  fold_left (fun m cpu => cpuacct_cpuusage_write m css cpu val) l mem g
  = if Nat.eqb g css
    then fold_left (fun c cpu => usage_write_ca cpu val c) l (mem css)
    else mem g.
Proof.
  revert mem. induction l as [|cpu l IH]; intros mem; simpl.
  - destruct (Nat.eqb_spec g css); congruence.
  - rewrite IH. rewrite !cpuacct_cpuusage_write_at, Nat.eqb_refl.
    destruct (Nat.eqb g css); reflexivity.
Qed.

(** The loop over CPUs keeps everything of the object but [usages]. *)
Lemma usage_write_loop_frame (l : list nat) (val : Z) (c : cpuacct) :
  let c' := fold_left (fun c cpu => usage_write_ca cpu val c) l c in
  css_parent c' = css_parent c /\ alistats c' = alistats c /\ cpustat c' = cpustat c /\
  forall cpu,
    prev_cputime1 (cpuusage c' cpu) = prev_cputime1 (cpuusage c cpu) /\
    prev_cputime2 (cpuusage c' cpu) = prev_cputime2 (cpuusage c cpu) /\
    (~ In cpu l -> usages (cpuusage c' cpu) = usages (cpuusage c cpu)).
Proof.
  revert c. induction l as [|a l IH]; intros c; simpl.
  - repeat split; reflexivity.
  - destruct (IH (usage_write_ca a val c)) as (Hp & Ha & Hs & Hcpu).
    repeat split; try assumption.
    + destruct (Hcpu cpu) as (H1 & _). rewrite H1. unfold usage_write_ca. simpl.
      unfold upd. destruct (Nat.eqb cpu a) eqn:E; [|reflexivity].
      apply Nat.eqb_eq in E. now subst.
    + destruct (Hcpu cpu) as (_ & H2 & _). rewrite H2. unfold usage_write_ca. simpl.
      unfold upd. destruct (Nat.eqb cpu a) eqn:E; [|reflexivity].
      apply Nat.eqb_eq in E. now subst.
    + intros Hnotin. destruct (Hcpu cpu) as (_ & _ & H3).
      rewrite H3 by tauto. unfold usage_write_ca. simpl.
      rewrite upd_other; [reflexivity|]. intros ->. tauto.
Qed.

(** The loop over CPUs stores [val] in both accumulators of every CPU it visits. *)
Lemma usage_write_loop_in (l : list nat) (val : Z) (c : cpuacct) (cpu i : nat) :
  In cpu l -> (i < stat_nr CPUACCT_STAT_NSTATS)%nat ->
  usages (cpuusage (fold_left (fun c cpu => usage_write_ca cpu val c) l c) cpu) i = val.
Proof.
  revert c. induction l as [|a l IH]; intros c Hin Hi; [easy|]. simpl.
  destruct (in_dec Nat.eq_dec cpu l) as [Hl|Hl].
  - now apply IH.
  - destruct Hin as [->|Hin]; [|contradiction].
    destruct (usage_write_loop_frame l val (usage_write_ca cpu val c)) as (_ & _ & _ & Hcpu).
    destruct (Hcpu cpu) as (_ & _ & H3). rewrite H3 by assumption.
    unfold usage_write_ca. simpl. rewrite upd_same. simpl.
    simpl in Hi. unfold upd.
    destruct i as [|[|i]]; simpl; try reflexivity. lia.
Qed.

(** ** The two reconciliation steps of a snapshot *)

Section Snapshot.

Variable cputime_adjust : task_cputime -> prev_cputime -> prev_cputime * (Z * Z).

Local Abbreviation get_usage_result := (__cpuacct_get_usage_result cputime_adjust).

Lemma get_usage_result_mem (en : bool) (mem : cpuacct_mem) (ca cpu : nat)
    (tg : task_group) (clock : Z) (g : nat) :
  fst (get_usage_result en mem ca cpu (Some tg) clock) g
  = if Nat.eqb g ca
    then set_cpuusage (mem ca)
           (upd (cpuusage (mem ca)) cpu
              (mk_cpuacct_usage (usages (cpuusage (mem ca) cpu))
                 (fst (first_adjust cputime_adjust mem ca cpu)) (fst (second_adjust cputime_adjust mem ca cpu))))
    else mem g.
Proof.
  unfold __cpuacct_get_usage_result, second_adjust, first_adjust,
    user_nice_sample, exec_sample.
  destruct (cputime_adjust _ (prev_cputime1 _)) as [p1 [l1 r1]]; simpl.
  destruct (cputime_adjust _ (prev_cputime2 _)) as [p2 [l2 r2]]; simpl.
  destruct (se tg cpu) as [e|]; [destruct en|]; reflexivity.
Qed.

Lemma get_usage_result_reconciled (en : bool) (mem : cpuacct_mem) (ca cpu : nat)
    (tg : task_group) (clock : Z) :
  let r := snd (get_usage_result en mem ca cpu (Some tg) clock) in
  system r = snd (snd (first_adjust cputime_adjust mem ca cpu)) /\
  user r = fst (snd (second_adjust cputime_adjust mem ca cpu)) /\
  nice r = snd (snd (second_adjust cputime_adjust mem ca cpu)).
Proof.
  unfold __cpuacct_get_usage_result, second_adjust, first_adjust,
    user_nice_sample, exec_sample.
  destruct (cputime_adjust _ (prev_cputime1 _)) as [p1 [l1 r1]]; simpl.
  destruct (cputime_adjust _ (prev_cputime2 _)) as [p2 [l2 r2]]; simpl.
  destruct (se tg cpu) as [e|]; [destruct en|]; simpl; auto.
Qed.


(** C7.  A snapshot of [(ca, cpu)] for an existing task group calls the
    reconciler twice, in sequence, each call on its own cursor.  The first call
    receives the sum of the user and system accumulators as total, the ticks
    [utime + unice] and [stime], and the cursor [prev_cputime1]; its [st]
    output is reported as [system].  The second call receives the [ut] output
    of the first call (user + nice) as total, the ticks [utime] and [unice],
    and the cursor [prev_cputime2]; its outputs are reported as [user] and
    [nice].  Each cursor is replaced by what its own call returns, and the
    accumulators are left as they were. *)
Theorem get_usage_result_two_splits (en : bool) (mem : cpuacct_mem)
    (ca cpu : nat) (tg : task_group) (clock : Z) :
  let cu := cpuusage (mem ca) cpu in
  let k := cpustat (mem ca) cpu in
  let step1 :=
    cputime_adjust
      {| sum_exec_runtime :=
           u64 (usages cu (stat_nr CPUACCT_STAT_USER)
                + usages cu (stat_nr CPUACCT_STAT_SYSTEM));
         utime := u64 (k CPUTIME_USER + k CPUTIME_NICE);
         stime := k CPUTIME_SYSTEM |}
      (prev_cputime1 cu) in
  let step2 :=
    cputime_adjust
      {| sum_exec_runtime := fst (snd step1);
         utime := k CPUTIME_USER;
         stime := k CPUTIME_NICE |}
      (prev_cputime2 cu) in
  let out := get_usage_result en mem ca cpu (Some tg) clock in
  let cu' := cpuusage (fst out ca) cpu in
  system (snd out) = snd (snd step1) /\
  user (snd out) = fst (snd step2) /\
  nice (snd out) = snd (snd step2) /\
  prev_cputime1 cu' = fst step1 /\
  prev_cputime2 cu' = fst step2 /\
  usages cu' = usages cu.
Proof.
  intros cu k step1 step2 out cu'.
  pose proof (get_usage_result_reconciled en mem ca cpu tg clock) as (Hs & Hu & Hn).
  pose proof (get_usage_result_mem en mem ca cpu tg clock ca) as Hm.
  rewrite Nat.eqb_refl in Hm.
  subst cu'. subst out. rewrite Hm. simpl. rewrite upd_same. simpl.
  repeat split; assumption || reflexivity.
Qed.

End Snapshot.

(** ** Monotonicity of the reconciler *)

(** The reconciler of the text stores what it reports and reports nothing
    below the cursor it received. *)
Lemma adjust_cursor : reconciler_monotone TimeReconciler.adjust.
Proof.
  intros curr cursor. unfold TimeReconciler.adjust.
  destruct ((utime curr + stime curr =? 0) && (sum_exec_runtime curr =? 0)).
  - simpl. repeat split; lia.
  - destruct (if utime curr + stime curr =? 0 then _ else _) as [a b].
    simpl.
    destruct (Z.ltb_spec a (prev_utime cursor));
      destruct (Z.ltb_spec b (prev_stime cursor)); repeat split; lia.
Qed.

Lemma adjust_run_from_cursor (cursor : prev_cputime) (samples : list task_cputime) :
  nondecreasing_from (prev_utime cursor, prev_stime cursor) (adjust_run cursor samples).
Proof.
  revert cursor. induction samples as [|s rest IH]; intros cursor; simpl; [exact I|].
  pose proof (adjust_cursor s cursor) as H.
  destruct (TimeReconciler.adjust s cursor) as [cursor' [a b]].
  destruct H as (Ha & Hb & Hla & Hlb). simpl in *.
  repeat split; try assumption.
  specialize (IH cursor'). rewrite Ha, Hb in IH. exact IH.
Qed.

Section SnapshotMonotone.

Variable cputime_adjust : task_cputime -> prev_cputime -> prev_cputime * (Z * Z).
Hypothesis adjust_ok : reconciler_monotone cputime_adjust.

(** Two snapshots of the same [(ca, cpu)]: if the cursors the second one finds
    are those the first one left, none of [system], [user], [nice] is lower
    the second time. *)
Lemma get_usage_result_monotone (en en' : bool) (mem mem2 : cpuacct_mem)
    (ca cpu : nat) (tg tg' : task_group) (clock clock' : Z) :
  let out1 := __cpuacct_get_usage_result cputime_adjust en mem ca cpu (Some tg) clock in
  let out2 := __cpuacct_get_usage_result cputime_adjust en' mem2 ca cpu (Some tg') clock' in
  prev_cputime1 (cpuusage (mem2 ca) cpu) = prev_cputime1 (cpuusage (fst out1 ca) cpu) ->
  prev_cputime2 (cpuusage (mem2 ca) cpu) = prev_cputime2 (cpuusage (fst out1 ca) cpu) ->
  system (snd out1) <= system (snd out2) /\
  user (snd out1) <= user (snd out2) /\
  nice (snd out1) <= nice (snd out2).
Proof.
  intros out1 out2 H1 H2.
  pose proof (get_usage_result_reconciled cputime_adjust en mem ca cpu tg clock)
    as (Hs & Hu & Hn).
  pose proof (get_usage_result_reconciled cputime_adjust en' mem2 ca cpu tg' clock')
    as (Hs' & Hu' & Hn').
  pose proof (get_usage_result_mem cputime_adjust en mem ca cpu tg clock ca) as Hm.
  rewrite Nat.eqb_refl in Hm.
  fold out1 in Hs, Hu, Hn, Hm. fold out2 in Hs', Hu', Hn'.
  rewrite Hm in H1, H2. simpl in H1, H2. rewrite upd_same in H1, H2. simpl in H1, H2.
  (* what the cursors hold when the second snapshot starts *)
  assert (C1 : prev_stime (prev_cputime1 (cpuusage (mem2 ca) cpu)) = system (snd out1)).
  { rewrite H1, Hs.
    exact (proj1 (proj2 (adjust_ok (exec_sample mem ca cpu)
                           (prev_cputime1 (cpuusage (mem ca) cpu))))). }
  assert (C2 : prev_utime (prev_cputime2 (cpuusage (mem2 ca) cpu)) = user (snd out1)
               /\ prev_stime (prev_cputime2 (cpuusage (mem2 ca) cpu)) = nice (snd out1)).
  { rewrite H2, Hu, Hn.
    pose proof (adjust_ok
                  (user_nice_sample mem ca cpu
                     (fst (snd (first_adjust cputime_adjust mem ca cpu))))
                  (prev_cputime2 (cpuusage (mem ca) cpu))) as (Ha & Hb & _).
    split; assumption. }
  destruct C2 as [C2 C3].
  rewrite <- C1, <- C2, <- C3, Hs', Hu', Hn'.
  pose proof (adjust_ok (exec_sample mem2 ca cpu)
                (prev_cputime1 (cpuusage (mem2 ca) cpu))) as (_ & _ & _ & G1).
  pose proof (adjust_ok
                (user_nice_sample mem2 ca cpu
                   (fst (snd (first_adjust cputime_adjust mem2 ca cpu))))
                (prev_cputime2 (cpuusage (mem2 ca) cpu))) as (_ & _ & G2 & G3).
  repeat split; assumption.
Qed.

End SnapshotMonotone.

(** C3.  On any cursor and for any sequence of samples, each component the
    reconciler reports is at least the component it reported at the previous
    adjustment of that cursor (and the first report is at least what the
    cursor held); in particular two consecutive adjustments never report a
    lower user-like or system-like value the second time, whatever the raw
    totals are.  As invoked from [__cpuacct_get_usage_result]: of two
    snapshots of the same [(ca, cpu)], the second taken on the memory the
    first one left, the second reports no lower [system], [user] or [nice]. *)
Theorem adjust_monotone (cursor : prev_cputime) (samples : list task_cputime)
    (s1 s2 : task_cputime) :
  nondecreasing_from (prev_utime cursor, prev_stime cursor) (adjust_run cursor samples) /\
  (let first := TimeReconciler.adjust s1 cursor in
   let second := TimeReconciler.adjust s2 (fst first) in
   fst (snd first) <= fst (snd second) /\ snd (snd first) <= snd (snd second)) /\
  (forall en en' mem ca cpu tg tg' clock clock',
     let out1 :=
       __cpuacct_get_usage_result TimeReconciler.adjust en mem ca cpu (Some tg) clock in
     let out2 :=
       __cpuacct_get_usage_result TimeReconciler.adjust en' (fst out1) ca cpu
         (Some tg') clock' in
     system (snd out1) <= system (snd out2) /\
     user (snd out1) <= user (snd out2) /\
     nice (snd out1) <= nice (snd out2)).
Proof.
  split; [apply adjust_run_from_cursor|]. split.
  - pose proof (adjust_run_from_cursor cursor [s1; s2]) as H. simpl in H.
    destruct (TimeReconciler.adjust s1 cursor) as [c1 [a1 b1]].
    simpl. destruct (TimeReconciler.adjust s2 c1) as [c2 [a2 b2]].
    simpl in *. lia.
  - intros en en' mem ca cpu tg tg' clock clock' out1 out2.
    apply (get_usage_result_monotone TimeReconciler.adjust adjust_cursor);
      reflexivity.
Qed.

(** ** Reset *)

Section Reset.

Variable nr_cpu_ids : nat.
Variable cpu_possible : nat -> bool.

Local Abbreviation cpus := (possible_cpus nr_cpu_ids cpu_possible).
Local Abbreviation reset := (cpuusage_write nr_cpu_ids cpu_possible).

Lemma possible_cpus_NoDup : NoDup cpus.
Proof.
  unfold possible_cpus. apply NoDup_filter, seq_NoDup.
Qed.

(** The memory a zero-valued write leaves, object by object. *)
Lemma reset_zero_at (mem : cpuacct_mem) (css g : nat) :
  fst (reset mem css 0) g
  = if Nat.eqb g css
    then fold_left (fun c cpu => usage_write_ca cpu 0 c) cpus (mem css)
    else mem g.
Proof.
  unfold cpuusage_write. simpl. apply usage_write_loop_at.
Qed.

Lemma reset_zero_frame (mem : cpuacct_mem) (css g : nat) :
  let mem' := fst (reset mem css 0) in
  css_parent (mem' g) = css_parent (mem g) /\
  alistats (mem' g) = alistats (mem g) /\
  cpustat (mem' g) = cpustat (mem g) /\
  forall cpu,
    prev_cputime1 (cpuusage (mem' g) cpu) = prev_cputime1 (cpuusage (mem g) cpu) /\
    prev_cputime2 (cpuusage (mem' g) cpu) = prev_cputime2 (cpuusage (mem g) cpu).
Proof.
  intros mem'. subst mem'. rewrite reset_zero_at.
  destruct (Nat.eqb_spec g css) as [->|_].
  - destruct (usage_write_loop_frame cpus 0 (mem css)) as (Hp & Ha & Hs & Hc).
    repeat split; try assumption; apply Hc.
  - repeat split; reflexivity.
Qed.

(** C5.  The reset file accepts only the value zero.  A write of any other
    value returns [-EINVAL] and leaves the memory as it was.  A write of zero
    returns 0, and afterwards every read of the group's usage, for either
    accumulator or for their sum, on any possible CPU and summed over the
    possible CPUs, returns zero. *)
Theorem cpuusage_write_reset (mem : cpuacct_mem) (css : nat) :
  (forall val, val <> 0 -> reset mem css val = (mem, - EINVAL)) /\
  snd (reset mem css 0) = 0 /\
  (forall cpu index,
      In cpu cpus ->
      cpuacct_cpuusage_read (fst (reset mem css 0)) css cpu index = 0) /\
  (forall index,
      __cpuusage_read nr_cpu_ids cpu_possible (fst (reset mem css 0)) css index = 0).
Proof.
  assert (Hread : forall cpu index, In cpu cpus ->
            cpuacct_cpuusage_read (fst (reset mem css 0)) css cpu index = 0).
  { intros cpu index Hin. unfold cpuacct_cpuusage_read.
    rewrite reset_zero_at, Nat.eqb_refl.
    assert (H0 : forall i, (i < stat_nr CPUACCT_STAT_NSTATS)%nat ->
              usages (cpuusage (fold_left (fun c cpu => usage_write_ca cpu 0 c) cpus (mem css)) cpu) i = 0)
      by (intros i Hi; now apply usage_write_loop_in).
    destruct index; simpl.
    - apply H0. simpl. lia.
    - apply H0. simpl. lia.
    - rewrite !H0 by (simpl; lia). reflexivity. }
  split; [|split; [|split]].
  - intros val Hval. unfold cpuusage_write.
    destruct (Z.eqb_spec val 0); [contradiction | reflexivity].
  - reflexivity.
  - exact Hread.
  - intros index. unfold __cpuusage_read.
    rewrite fold_u64_sum.
    rewrite sum_Z_map_zero by (intros cpu Hin; now apply Hread). reflexivity.
Qed.

End Reset.

Section ResetAndSnapshot.

Variable nr_cpu_ids : nat.
Variable cpu_possible : nat -> bool.
Variable cputime_adjust : task_cputime -> prev_cputime -> prev_cputime * (Z * Z).

Local Abbreviation reset := (cpuusage_write nr_cpu_ids cpu_possible).

(** C10.  A zero-valued reset of a group writes only the [usages] arrays of
    that group: in every object the parent link, the migration counters, the
    [cpustat] counters and both cursors of every CPU are what they were, and
    every other group is untouched.  Hence, the reconciler keeping its
    contract (it stores what it reports and reports nothing below its
    cursor), a snapshot of [(css, cpu)] taken after the reset reports
    [system], [user] and [nice] values that are not below those of a snapshot
    taken before it. *)
Theorem reset_keeps_cursors (mem : cpuacct_mem) (css : nat) :
  (forall g,
      css_parent (fst (reset mem css 0) g) = css_parent (mem g) /\
      alistats (fst (reset mem css 0) g) = alistats (mem g) /\
      cpustat (fst (reset mem css 0) g) = cpustat (mem g)) /\
  (forall g cpu,
      prev_cputime1 (cpuusage (fst (reset mem css 0) g) cpu)
      = prev_cputime1 (cpuusage (mem g) cpu) /\
      prev_cputime2 (cpuusage (fst (reset mem css 0) g) cpu)
      = prev_cputime2 (cpuusage (mem g) cpu)) /\
  (forall g, g <> css -> fst (reset mem css 0) g = mem g) /\
  (reconciler_monotone cputime_adjust ->
   forall cpu tg tg' clock clock' en en',
      let before :=
        __cpuacct_get_usage_result cputime_adjust en mem css cpu (Some tg) clock in
      let after :=
        __cpuacct_get_usage_result cputime_adjust en'
          (fst (reset (fst before) css 0)) css cpu (Some tg') clock' in
      system (snd before) <= system (snd after) /\
      user (snd before) <= user (snd after) /\
      nice (snd before) <= nice (snd after)).
Proof.
  split; [|split; [|split]].
  - intros g.
    destruct (reset_zero_frame nr_cpu_ids cpu_possible mem css g) as (Hp & Ha & Hs & _).
    auto.
  - intros g cpu.
    destruct (reset_zero_frame nr_cpu_ids cpu_possible mem css g) as (_ & _ & _ & Hc).
    apply Hc.
  - intros g Hg. rewrite reset_zero_at.
    destruct (Nat.eqb_spec g css); [contradiction | reflexivity].
  - intros adjust_ok cpu tg tg' clock clock' en en' before after.
    destruct (reset_zero_frame nr_cpu_ids cpu_possible (fst before) css css)
      as (_ & _ & _ & Hc).
    destruct (Hc cpu) as [H1 H2].
    apply get_usage_result_monotone; assumption.
Qed.

End ResetAndSnapshot.

(** ** The group hierarchy *)

Lemma path_head (mem : cpuacct_mem) (g : nat) (l : list nat) :
  path_to_root mem g l -> exists rest, l = g :: rest.
Proof. destruct 1; eauto. Qed.

Lemma path_ends_at_root (mem : cpuacct_mem) (g : nat) (l : list nat) :
  path_to_root mem g l ->
  In g l /\ In root_cpuacct l /\ ~ In root_cpuacct (removelast l) /\
  l = removelast l ++ [root_cpuacct].
Proof.
  induction 1 as [Hroot | g p l Hg Hp Hpath IH].
  - simpl. intuition.
  - destruct IH as (Hin & Hr & Hnr & Hl).
    destruct (path_head _ _ _ Hpath) as [rest ->].
    split; [now left|]. split; [now right|].
    change (removelast (g :: p :: rest)) with (g :: removelast (p :: rest)).
    split.
    + intros [Heq | Hin']; [congruence | contradiction].
    + change ((g :: removelast (p :: rest)) ++ [root_cpuacct])
        with (g :: (removelast (p :: rest) ++ [root_cpuacct])).
      now rewrite <- Hl.
Qed.

Lemma path_deterministic (mem : cpuacct_mem) (g : nat) (l1 l2 : list nat) :
  path_to_root mem g l1 -> path_to_root mem g l2 -> l1 = l2.
Proof.
  intros H1. revert l2.
  induction H1 as [Hroot | g p l Hg Hp Hpath IH]; intros l2 H2.
  - inversion H2; subst; [reflexivity | congruence].
  - inversion H2 as [| g' p' l' Hg' Hp' Hpath']; subst; [congruence|].
    rewrite Hp in Hp'. injection Hp' as <-. f_equal. now apply IH.
Qed.

Lemma path_suffix (mem : cpuacct_mem) (g x : nat) (l : list nat) :
  path_to_root mem g l -> In x l ->
  exists pre suf, l = pre ++ suf /\ path_to_root mem x suf.
Proof.
  induction 1 as [Hroot | g p l Hg Hp Hpath IH]; intros Hin.
  - destruct Hin as [<- | []]. exists [], [root_cpuacct]. split; [reflexivity|].
    now constructor.
  - destruct Hin as [<- | Hin].
    + exists [], (g :: l). split; [reflexivity|]. econstructor; eassumption.
    + destruct (IH Hin) as (pre & suf & -> & Hsuf).
      exists (g :: pre), suf. split; [reflexivity | assumption].
Qed.

(** A path to the root visits no group twice. *)
Lemma path_NoDup (mem : cpuacct_mem) (g : nat) (l : list nat) :
  path_to_root mem g l -> NoDup l.
Proof.
  induction 1 as [Hroot | g p l Hg Hp Hpath IH].
  - constructor; [simpl; tauto | constructor].
  - constructor; [|assumption].
    intros Hin.
    destruct (path_suffix _ _ _ _ Hpath Hin) as (pre & suf & Hl & Hsuf).
    assert (Hfull : path_to_root mem g (g :: l)) by (econstructor; eassumption).
    pose proof (path_deterministic _ _ _ _ Hsuf Hfull) as ->.
    apply (f_equal (@List.length nat)) in Hl.
    rewrite length_app in Hl. simpl in Hl. lia.
Qed.

(** A path depends on the parent links only. *)
Lemma path_same_parents (mem mem' : cpuacct_mem) (g : nat) (l : list nat) :
  (forall a, parent_ca mem' a = parent_ca mem a) ->
  path_to_root mem g l -> path_to_root mem' g l.
Proof.
  intros Hsame. induction 1 as [Hroot | g p l Hg Hp Hpath IH].
  - constructor. now rewrite Hsame.
  - econstructor; [assumption | rewrite Hsame; eassumption | assumption].
Qed.

(** ** Charging execution time *)

Lemma charge_one_parent (mem : cpuacct_mem) (g cpu index : nat) (x : Z) (a : nat) :
  parent_ca (charge_one mem g cpu index x) a = parent_ca mem a.
Proof.
  unfold parent_ca, charge_one, upd.
  destruct (Nat.eqb_spec a g) as [->|]; reflexivity.
Qed.

(** With enough fuel the walk of [cpuacct_charge] ends, having charged every
    group of the path. *)
Lemma charge_walk_path (mem0 : cpuacct_mem) (g : nat) (l : list nat)
    (cpu index : nat) (x : Z) :
  path_to_root mem0 g l ->
  forall (fuel : nat) (mem : cpuacct_mem),
    (length l <= fuel)%nat ->
    (forall a, parent_ca mem a = parent_ca mem0 a) ->
    charge_walk fuel cpu index x (Some g) mem = Done (charge_along cpu index x l mem).
Proof.
  induction 1 as [Hroot | g p l Hg Hp Hpath IH]; intros fuel mem Hfuel Hsame.
  - destruct fuel as [|fuel]; [simpl in Hfuel; lia|]. simpl.
    rewrite charge_one_parent, Hsame, Hroot. now destruct fuel.
  - destruct fuel as [|fuel]; [simpl in Hfuel; lia|]. simpl.
    rewrite charge_one_parent, Hsame, Hp.
    rewrite IH.
    + reflexivity.
    + simpl in Hfuel. lia.
    + intros a. now rewrite charge_one_parent.
Qed.

Lemma charge_along_in (cpu index : nat) (x : Z) (l : list nat)
    (mem : cpuacct_mem) (g : nat) :
  NoDup l -> In g l -> charge_along cpu index x l mem g = charge_ca cpu index x (mem g).
Proof. apply fold_upd_in. Qed.

Lemma charge_along_notin (cpu index : nat) (x : Z) (l : list nat)
    (mem : cpuacct_mem) (g : nat) :
  ~ In g l -> charge_along cpu index x l mem g = mem g.
Proof. apply fold_upd_notin. Qed.

Lemma charge_along_parent (cpu index : nat) (x : Z) (l : list nat)
    (mem : cpuacct_mem) (a : nat) :
  parent_ca (charge_along cpu index x l mem) a = parent_ca mem a.
Proof.
  revert mem. induction l as [|g l IH]; intros mem; [reflexivity|].
  change (charge_along cpu index x (g :: l) mem)
    with (charge_along cpu index x l (charge_one mem g cpu index x)).
  rewrite IH. apply charge_one_parent.
Qed.

(** The sum a read with the index [CPUACCT_STAT_NSTATS] returns for a CPU. *)
Lemma cpuusage_read_nstats (mem : cpuacct_mem) (ca cpu : nat) :
  cpuacct_cpuusage_read mem ca cpu CPUACCT_STAT_NSTATS
  = u64 (usages (cpuusage (mem ca) cpu) 0%nat + usages (cpuusage (mem ca) cpu) 1%nat).
Proof.
  unfold cpuacct_cpuusage_read. simpl. now rewrite u64_add_l.
Qed.

Lemma sum_Z_replace (f f' : nat -> Z) (l : list nat) (c : nat) :
  NoDup l -> In c l ->
  (forall x, In x l -> x <> c -> f' x = f x) ->
  sum_Z (map f' l) = sum_Z (map f l) + (f' c - f c).
Proof.
  induction l as [|a l IH]; intros Hnd Hin Hsame; [easy|].
  inversion Hnd as [|? ? Hnotin Hnd']; subst. simpl.
  destruct Hin as [->|Hin].
  - assert (Heq : map f' l = map f l).
    { apply map_ext_in. intros x Hx. apply Hsame; [now right|].
      intros ->. contradiction. }
    rewrite Heq. lia.
  - rewrite IH by (auto; intros x Hx; apply Hsame; now right).
    rewrite (Hsame a) by (auto using in_eq; intros ->; contradiction). lia.
Qed.

Lemma u64_replace (s a x : Z) : u64 (s + (u64 (a + x) - u64 a)) = u64 (s + x).
Proof.
  replace (s + (u64 (a + x) - u64 a)) with ((s - u64 a) + u64 (a + x)) by lia.
  rewrite u64_add_r.
  replace (s - u64 a + (a + x)) with ((s + a + x) - u64 a) by lia.
  rewrite u64_sub_r. f_equal. lia.
Qed.

Lemma charge_ca_usages (cpu index : nat) (x : Z) (c : cpuacct) (cpu' j : nat) :
  usages (cpuusage (charge_ca cpu index x c) cpu') j
  = if Nat.eqb cpu' cpu && Nat.eqb j index
    then u64 (usages (cpuusage c cpu) index + x)
    else usages (cpuusage c cpu') j.
Proof.
  unfold charge_ca. simpl. unfold upd.
  destruct (Nat.eqb_spec cpu' cpu) as [->|]; simpl; [|reflexivity].
  destruct (Nat.eqb_spec j index) as [->|]; reflexivity.
Qed.

Lemma charge_index_nr (tsk : task_struct) :
  stat_nr (charge_index tsk) = 0%nat \/ stat_nr (charge_index tsk) = 1%nat.
Proof.
  unfold charge_index. destruct (task_pt_regs tsk) as [r|]; [destruct (user_mode r)|];
    simpl; auto.
Qed.

Section Charge.

Variable nr_cpu_ids : nat.
Variable cpu_possible : nat -> bool.

Local Abbreviation cpus := (possible_cpus nr_cpu_ids cpu_possible).
Local Abbreviation usage_total := (cpuusage_read nr_cpu_ids cpu_possible).

(** A charge of [x] to one accumulator of [(g, this_cpu)] adds [x], modulo
    2^64, to the total of [g] over the possible CPUs. *)
Lemma charged_total (mem mem' : cpuacct_mem) (g this_cpu index : nat) (x : Z) :
  mem' g = charge_ca this_cpu index x (mem g) ->
  index = 0%nat \/ index = 1%nat ->
  In this_cpu cpus ->
  usage_total mem' g = u64 (usage_total mem g + x).
Proof.
  intros Hg Hindex Hin.
  unfold cpuusage_read, __cpuusage_read. rewrite !fold_u64_sum.
  rewrite (sum_Z_replace
             (fun i => cpuacct_cpuusage_read mem g i CPUACCT_STAT_NSTATS)
             (fun i => cpuacct_cpuusage_read mem' g i CPUACCT_STAT_NSTATS)
             cpus this_cpu).
  - rewrite !cpuusage_read_nstats, Hg, !charge_ca_usages, Nat.eqb_refl. simpl.
    rewrite u64_add_l.
    destruct Hindex as [-> | ->]; simpl.
    + rewrite u64_add_l.
      replace (usages (cpuusage (mem g) this_cpu) 0%nat + x
               + usages (cpuusage (mem g) this_cpu) 1%nat)
        with (usages (cpuusage (mem g) this_cpu) 0%nat
              + usages (cpuusage (mem g) this_cpu) 1%nat + x) by lia.
      apply u64_replace.
    + rewrite u64_add_r.
      replace (usages (cpuusage (mem g) this_cpu) 0%nat
               + (usages (cpuusage (mem g) this_cpu) 1%nat + x))
        with (usages (cpuusage (mem g) this_cpu) 0%nat
              + usages (cpuusage (mem g) this_cpu) 1%nat + x) by lia.
      apply u64_replace.
  - apply possible_cpus_NoDup.
  - assumption.
  - intros cpu _ Hne. rewrite !cpuusage_read_nstats, Hg, !charge_ca_usages.
    destruct (Nat.eqb_spec cpu this_cpu); [contradiction | reflexivity].
Qed.

Lemma cpuacct_charge_done (mem : cpuacct_mem) (tsk : task_struct) (leaf : nat)
    (path : list nat) (this_cpu : nat) (x : Z) (fuel : nat) :
  task_ca tsk = Some leaf ->
  path_to_root mem leaf path ->
  (length path <= fuel)%nat ->
  cpuacct_charge fuel this_cpu tsk x mem
  = Done (charge_along this_cpu (stat_nr (charge_index tsk)) x path mem).
Proof.
  intros Hca Hpath Hfuel. unfold cpuacct_charge. rewrite Hca.
  now apply (charge_walk_path mem).
Qed.

(** C2 (as amended).  A charge of [X] made by [cpuacct_charge] on CPU
    [this_cpu] for a task of group [leaf] ends, given fuel for the length of
    the path to the root, and reaches every group of that path: [leaf], each
    of its ancestors, and the root.  In each of them the accumulator selected
    for the task, on [this_cpu], becomes its old value plus [X] reduced modulo
    2^64, and so does the total usage of the group over the possible CPUs;
    both grow by exactly [X] whenever the sum still fits in 64 bits.  Groups
    off the path are untouched. *)
Theorem cpuacct_charge_propagates (mem : cpuacct_mem) (this_cpu : nat)
    (tsk : task_struct) (leaf : nat) (path : list nat) (X : Z) :
  task_ca tsk = Some leaf ->
  path_to_root mem leaf path ->
  In this_cpu cpus ->
  exists mem',
    (forall fuel, (length path <= fuel)%nat ->
                  cpuacct_charge fuel this_cpu tsk X mem = Done mem') /\
    In leaf path /\ In root_cpuacct path /\
    (forall g, In g path ->
       let i := stat_nr (charge_index tsk) in
       let old := usages (cpuusage (mem g) this_cpu) i in
       usages (cpuusage (mem' g) this_cpu) i = u64 (old + X) /\
       (is_u64 (old + X) -> usages (cpuusage (mem' g) this_cpu) i = old + X) /\
       usage_total mem' g = u64 (usage_total mem g + X) /\
       (is_u64 (usage_total mem g + X) ->
        usage_total mem' g = usage_total mem g + X)) /\
    (forall g, ~ In g path -> mem' g = mem g).
Proof.
  intros Hca Hpath Hcpu.
  exists (charge_along this_cpu (stat_nr (charge_index tsk)) X path mem).
  pose proof (path_NoDup _ _ _ Hpath) as Hnd.
  destruct (path_ends_at_root _ _ _ Hpath) as (Hleaf & Hroot & _).
  split; [|split; [|split; [|split]]]; try assumption.
  - intros fuel Hfuel. now apply cpuacct_charge_done with (leaf := leaf).
  - intros g Hg. cbv zeta.
    set (i := stat_nr (charge_index tsk)).
    set (old := usages (cpuusage (mem g) this_cpu) i).
    assert (Hobj : charge_along this_cpu i X path mem g = charge_ca this_cpu i X (mem g))
      by now apply charge_along_in.
    assert (Hacc : usages (cpuusage (charge_along this_cpu i X path mem g) this_cpu) i
                   = u64 (old + X)).
    { rewrite Hobj, charge_ca_usages, !Nat.eqb_refl. reflexivity. }
    assert (Htot : usage_total (charge_along this_cpu i X path mem) g
                   = u64 (usage_total mem g + X)).
    { apply charged_total with (this_cpu := this_cpu) (index := i); auto.
      apply charge_index_nr. }
    repeat split.
    + exact Hacc.
    + intros Hfit. rewrite Hacc. now apply u64_small.
    + exact Htot.
    + intros Hfit. rewrite Htot. now apply u64_small.
  - intros g Hg. now apply charge_along_notin.
Qed.

(** C1 (as amended).  A sequence of charges delivered by [cpuacct_charge] on
    one CPU to tasks of one group [g], with nothing else touching the group in
    between, ends (given fuel for the length of the path to the root) and
    leaves a group total, read with the sum index over the possible CPUs,
    equal to the total before plus the sum of the charged amounts, reduced
    modulo 2^64.  Starting from a total of zero, the total read is exactly the
    sum of the charged amounts whenever that sum fits in 64 bits. *)
Theorem charges_total (mem : cpuacct_mem) (g : nat) (path : list nat)
    (this_cpu : nat) (charges : list (task_struct * Z)) :
  path_to_root mem g path ->
  In this_cpu cpus ->
  Forall (fun c => task_ca (fst c) = Some g) charges ->
  exists mem',
    (forall fuel, (length path <= fuel)%nat ->
                  cpuacct_charges fuel this_cpu charges mem = Done mem') /\
    usage_total mem' g = u64 (usage_total mem g + sum_Z (map snd charges)) /\
    (usage_total mem g = 0 -> is_u64 (sum_Z (map snd charges)) ->
     usage_total mem' g = sum_Z (map snd charges)).
Proof.
  intros Hpath Hcpu Hall.
  assert (Hmain : exists mem',
            (forall fuel, (length path <= fuel)%nat ->
                          cpuacct_charges fuel this_cpu charges mem = Done mem') /\
            usage_total mem' g = u64 (usage_total mem g + sum_Z (map snd charges))).
  { revert mem Hpath. induction Hall as [|[tsk x] rest Hca _ IH]; intros mem Hpath.
    - exists mem. split; [reflexivity|]. simpl. rewrite Z.add_0_r.
      unfold cpuusage_read, __cpuusage_read. rewrite fold_u64_sum. now rewrite u64_idem.
    - simpl in Hca.
      set (mem1 := charge_along this_cpu (stat_nr (charge_index tsk)) x path mem).
      assert (Hpath1 : path_to_root mem1 g path).
      { apply path_same_parents with (mem := mem); [|assumption].
        intros a. apply charge_along_parent. }
      destruct (IH mem1 Hpath1) as (mem' & Hrun & Htot).
      exists mem'. split.
      + intros fuel Hfuel. simpl.
        rewrite (cpuacct_charge_done mem tsk g path this_cpu x fuel Hca Hpath Hfuel).
        fold mem1. now apply Hrun.
      + rewrite Htot.
        rewrite (charged_total mem mem1 g this_cpu (stat_nr (charge_index tsk)) x).
        * rewrite u64_add_l. simpl. f_equal. lia.
        * apply charge_along_in; [eapply path_NoDup; eassumption|].
          now destruct (path_ends_at_root _ _ _ Hpath).
        * apply charge_index_nr.
        * assumption. }
  destruct Hmain as (mem' & Hrun & Htot).
  exists mem'. repeat split; try assumption.
  intros Hzero Hfit. rewrite Htot, Hzero. simpl. now apply u64_small.
Qed.

End Charge.

(** ** Accounting the tick-sampled categories *)

Lemma account_one_parent (mem : cpuacct_mem) (g cpu : nat) (index : cpu_usage_stat)
    (val : Z) (a : nat) :
  parent_ca (account_one mem g cpu index val) a = parent_ca mem a.
Proof.
  unfold parent_ca, account_one, upd.
  destruct (Nat.eqb_spec a g) as [->|]; reflexivity.
Qed.

(** With enough fuel the walk of [cpuacct_account_field] ends without
    dereferencing NULL, having visited the path up to, and not including, the
    root. *)
Lemma account_walk_path (mem0 : cpuacct_mem) (g : nat) (l : list nat)
    (cpu : nat) (index : cpu_usage_stat) (val : Z) :
  path_to_root mem0 g l ->
  forall (fuel : nat) (mem : cpuacct_mem),
    (length l <= fuel)%nat ->
    (forall a, parent_ca mem a = parent_ca mem0 a) ->
    account_walk fuel cpu index val (Some g) mem
    = Done (account_along cpu index val (removelast l) mem).
Proof.
  induction 1 as [Hroot | g p l Hg Hp Hpath IH]; intros fuel mem Hfuel Hsame.
  - destruct fuel; reflexivity.
  - destruct fuel as [|fuel]; [simpl in Hfuel; lia|]. simpl account_walk.
    destruct (Nat.eqb_spec g root_cpuacct) as [|_]; [contradiction|].
    rewrite account_one_parent, Hsame, Hp.
    rewrite IH.
    + destruct (path_head _ _ _ Hpath) as [rest ->]. reflexivity.
    + simpl in Hfuel. lia.
    + intros a. now rewrite account_one_parent.
Qed.

(** C6.  [cpuacct_account_field], called for a task of group [g] with any
    category index (irq, softirq, guest and guest_nice among them) and any
    value, ends given fuel for the length of the path to the root, and stops
    before the root: the root object is left exactly as it was, while in the
    task's group and in each of its ancestors other than the root the counter
    of that category on the current CPU becomes its old value plus [val]
    (modulo 2^64); the other categories, the other CPUs, the usage
    accumulators and the migration counters of these groups keep their
    values, and groups off the path are untouched. *)
Theorem cpuacct_account_field_stops_before_root (mem : cpuacct_mem)
    (this_cpu : nat) (tsk : task_struct) (g : nat) (path : list nat)
    (index : cpu_usage_stat) (val : Z) :
  task_ca tsk = Some g ->
  path_to_root mem g path ->
  exists mem',
    (forall fuel, (length path <= fuel)%nat ->
                  cpuacct_account_field fuel this_cpu tsk index val mem = Done mem') /\
    mem' root_cpuacct = mem root_cpuacct /\
    (forall a, In a path -> a <> root_cpuacct ->
       cpustat (mem' a) this_cpu index = u64 (cpustat (mem a) this_cpu index + val) /\
       (forall j, j <> index -> cpustat (mem' a) this_cpu j = cpustat (mem a) this_cpu j) /\
       (forall cpu, cpu <> this_cpu -> cpustat (mem' a) cpu = cpustat (mem a) cpu) /\
       cpuusage (mem' a) = cpuusage (mem a) /\
       alistats (mem' a) = alistats (mem a) /\
       css_parent (mem' a) = css_parent (mem a)) /\
    (forall a, ~ In a path -> mem' a = mem a).
Proof.
  intros Hca Hpath.
  exists (account_along this_cpu index val (removelast path) mem).
  destruct (path_ends_at_root _ _ _ Hpath) as (_ & _ & Hnr & Hsplit).
  assert (Hnd : NoDup (removelast path)).
  { pose proof (path_NoDup _ _ _ Hpath) as Hnd. rewrite Hsplit in Hnd.
    now apply NoDup_remove_1 in Hnd; rewrite app_nil_r in Hnd. }
  split; [|split; [|split]].
  - intros fuel Hfuel. unfold cpuacct_account_field. rewrite Hca.
    now apply (account_walk_path mem).
  - now apply fold_upd_notin.
  - intros a Ha Hne.
    assert (Hin : In a (removelast path)).
    { rewrite Hsplit in Ha. apply in_app_or in Ha.
      destruct Ha as [Ha | [Ha | []]]; [assumption | congruence]. }
    unfold account_along. rewrite fold_upd_in by assumption.
    unfold account_ca. simpl. rewrite upd_same.
    repeat split.
    + unfold cpustat_add. now destruct (cpu_usage_stat_eqb_spec index index).
    + intros j Hj. unfold cpustat_add.
      now destruct (cpu_usage_stat_eqb_spec j index).
    + intros cpu Hcpu. now apply upd_other.
  - intros a Ha. apply fold_upd_notin. intros Hin. apply Ha.
    rewrite Hsplit. apply in_or_app. now left.
Qed.

(** ** Idle, iowait, ineffective time and steal in a snapshot *)

Section Windows.

Variable cputime_adjust : task_cputime -> prev_cputime -> prev_cputime * (Z * Z).

Local Abbreviation get_usage_result := (__cpuacct_get_usage_result cputime_adjust).

(** The three window-derived fields of a snapshot, as the code computes them. *)
Lemma get_usage_result_windows (en : bool) (mem : cpuacct_mem) (ca cpu : nat)
    (tg : task_group) (clock : Z) :
  let r := snd (get_usage_result en mem ca cpu (Some tg) clock) in
  match se tg cpu with
  | Some e =>
      if en then
        iowait r = iowait_sum_at e clock /\
        idle r = u64 (idle_sum_at e clock - iowait_sum_at e clock) /\
        steal r =
          (let elapse := u64 (clock - cg_init_time e) in
           let complement :=
             u64 (idle_sum_at e clock + sum_exec_raw e + ineffective_sum_at e clock) in
           if complement <? elapse then elapse - complement else 0)
      else iowait r = 0 /\ idle r = 0 /\ steal r = 0
  | None => iowait r = 0 /\ idle r = 0 /\ steal r = 0
  end.
Proof.
  unfold __cpuacct_get_usage_result.
  destruct (cputime_adjust _ (prev_cputime1 _)) as [p1 [l1 r1]]; simpl.
  destruct (cputime_adjust _ (prev_cputime2 _)) as [p2 [l2 r2]]; simpl.
  destruct (se tg cpu) as [e|]; [destruct en|]; simpl; auto.
  assert (Hidle : (if negb (cg_idle_start e =? 0) && (cg_idle_start e <? clock)
                   then u64 (cg_idle_sum e + u64 (clock - cg_idle_start e))
                   else cg_idle_sum e) = idle_sum_at e clock).
  { unfold idle_sum_at. rewrite u64_add_r.
    destruct (cg_idle_start e =? 0); simpl; [reflexivity|].
    destruct (Z.ltb_spec (cg_idle_start e) clock), (Z.leb_spec clock (cg_idle_start e));
      reflexivity || lia. }
  assert (Hio : (if negb (cg_iowait_start e =? 0)
                 then u64 (cg_iowait_sum e + u64 (clock - cg_iowait_start e))
                 else cg_iowait_sum e) = iowait_sum_at e clock).
  { unfold iowait_sum_at. rewrite u64_add_r. now destruct (cg_iowait_start e =? 0). }
  assert (Hin : (if negb (cg_ineffective_start e =? 0)
                 then u64 (cg_ineffective_sum e + u64 (clock - cg_ineffective_start e))
                 else cg_ineffective_sum e) = ineffective_sum_at e clock).
  { unfold ineffective_sum_at. rewrite u64_add_r.
    now destruct (cg_ineffective_start e =? 0). }
  rewrite Hidle, Hio, Hin. rewrite u64_add_l.
  repeat split.
  destruct (Z.ltb_spec
              (u64 (idle_sum_at e clock + sum_exec_raw e + ineffective_sum_at e clock))
              (u64 (clock - cg_init_time e))) as [Hlt|Hge]; [|reflexivity].
  apply u64_small.
  pose proof (u64_range (idle_sum_at e clock + sum_exec_raw e + ineffective_sum_at e clock)).
  pose proof (u64_range (clock - cg_init_time e)).
  unfold is_u64. lia.
Qed.

(** C8 (as amended).  In a snapshot of [(ca, cpu)] for an existing task
    group, when the group has a scheduling entity on that CPU and schedstats
    are enabled: the iowait sum is the accumulated sum extended by
    [clock - start] (modulo 2^64) when its window is open; the idle sum is the
    accumulated sum extended by [clock - start] when its window is open and
    [clock] is later than the start, and is left unextended otherwise; the
    idle value reported is that idle sum minus that iowait sum (modulo 2^64).
    Without an entity, or with schedstats disabled, both are reported as 0. *)
Theorem snapshot_idle_iowait (en : bool) (mem : cpuacct_mem) (ca cpu : nat)
    (tg : task_group) (clock : Z) :
  let r := snd (get_usage_result en mem ca cpu (Some tg) clock) in
  match se tg cpu with
  | Some e =>
      if en then
        iowait r = iowait_sum_at e clock /\
        idle r = u64 (idle_sum_at e clock - iowait_sum_at e clock) /\
        (cg_iowait_start e = 0 -> iowait r = cg_iowait_sum e) /\
        (cg_iowait_start e <> 0 ->
         iowait r = u64 (cg_iowait_sum e + (clock - cg_iowait_start e))) /\
        (cg_idle_start e = 0 \/ clock <= cg_idle_start e ->
         idle r = u64 (cg_idle_sum e - iowait r)) /\
        (cg_idle_start e <> 0 -> cg_idle_start e < clock ->
         idle r = u64 (cg_idle_sum e + (clock - cg_idle_start e) - iowait r))
      else iowait r = 0 /\ idle r = 0
  | None => iowait r = 0 /\ idle r = 0
  end.
Proof.
  intros r. pose proof (get_usage_result_windows en mem ca cpu tg clock) as H.
  fold r in H.
  destruct (se tg cpu) as [e|]; [destruct en|];
    destruct H as (Hio & Hidle & _); try (split; assumption).
  split; [assumption|]. split; [assumption|].
  rewrite Hidle, Hio. unfold iowait_sum_at, idle_sum_at.
  repeat split.
  - intros ->. reflexivity.
  - intros Hopen. now destruct (Z.eqb_spec (cg_iowait_start e) 0).
  - intros [-> | Hle]; [reflexivity|].
    destruct (Z.leb_spec clock (cg_idle_start e)); [|lia].
    now rewrite orb_true_r.
  - intros Hopen Hlater.
    destruct (Z.eqb_spec (cg_idle_start e) 0); [contradiction|].
    destruct (Z.leb_spec clock (cg_idle_start e)); [lia|]. simpl.
    now rewrite u64_sub_l.
Qed.

(** C9 (as amended).  In a snapshot of [(ca, cpu)] for an existing task
    group the reported steal time is never negative.  When the group has a
    scheduling entity on that CPU and schedstats are enabled it is
    [max(0, elapse - complement)], where [elapse] is [clock - cg_init_time]
    and [complement] is the idle sum at [clock] (before iowait is taken off)
    plus [sum_exec_raw] plus the ineffective sum at [clock], each reduced
    modulo 2^64; so it is [max(0, elapsed - idle - rawExec - ineffective)]
    whenever neither of the two wraps.  Without an entity, or with schedstats
    disabled, the steal time reported is 0. *)
Theorem snapshot_steal (en : bool) (mem : cpuacct_mem) (ca cpu : nat)
    (tg : task_group) (clock : Z) :
  let r := snd (get_usage_result en mem ca cpu (Some tg) clock) in
  0 <= steal r /\
  match se tg cpu with
  | Some e =>
      if en then
        let elapsed := clock - cg_init_time e in
        let idle_sum := idle_sum_at e clock in
        let rawExec := sum_exec_raw e in
        let ineffective := ineffective_sum_at e clock in
        steal r = Z.max 0 (u64 elapsed - u64 (idle_sum + rawExec + ineffective)) /\
        (is_u64 elapsed -> is_u64 (idle_sum + rawExec + ineffective) ->
         steal r = Z.max 0 (elapsed - idle_sum - rawExec - ineffective))
      else steal r = 0
  | None => steal r = 0
  end.
Proof.
  intros r. pose proof (get_usage_result_windows en mem ca cpu tg clock) as H.
  fold r in H.
  destruct (se tg cpu) as [e|]; [destruct en|];
    try (destruct H as (_ & _ & ->); split; [lia | reflexivity]).
  destruct H as (_ & _ & Hsteal). cbv zeta in *.
  assert (Hmax : steal r
                 = Z.max 0 (u64 (clock - cg_init_time e)
                            - u64 (idle_sum_at e clock + sum_exec_raw e
                                   + ineffective_sum_at e clock))).
  { rewrite Hsteal.
    destruct (Z.ltb_spec
                (u64 (idle_sum_at e clock + sum_exec_raw e + ineffective_sum_at e clock))
                (u64 (clock - cg_init_time e))); lia. }
  split; [rewrite Hmax; lia|]. split; [exact Hmax|].
  intros He Hc. rewrite Hmax, (u64_small _ He), (u64_small _ Hc). f_equal. lia.
Qed.

End Windows.

(** ** The sums of [proc_stat] *)

Lemma add_usage_result_sums (res : nat -> cpuacct_usage_result) (mig : nat -> Z)
    (l : list nat) (acc : proc_stat_sums) :
  let t := fold_left (fun a cpu => add_usage_result a (res cpu) (mig cpu)) l acc in
  tot_user t = fold_left (fun a cpu => u64 (a + user (res cpu))) l (tot_user acc) /\
  tot_nice t = fold_left (fun a cpu => u64 (a + nice (res cpu))) l (tot_nice acc) /\
  tot_system t = fold_left (fun a cpu => u64 (a + system (res cpu))) l (tot_system acc) /\
  tot_idle t = fold_left (fun a cpu => u64 (a + idle (res cpu))) l (tot_idle acc) /\
  tot_iowait t = fold_left (fun a cpu => u64 (a + iowait (res cpu))) l (tot_iowait acc) /\
  tot_irq t = fold_left (fun a cpu => u64 (a + irq (res cpu))) l (tot_irq acc) /\
  tot_softirq t = fold_left (fun a cpu => u64 (a + softirq (res cpu))) l (tot_softirq acc) /\
  tot_steal t = fold_left (fun a cpu => u64 (a + steal (res cpu))) l (tot_steal acc) /\
  tot_guest t
  = fold_left (fun a cpu => u64 (a + (guest (res cpu) + guest_nice (res cpu)))) l
      (tot_guest acc) /\
  tot_nr_migrations t
  = fold_left (fun a cpu => u64 (a + mig cpu)) l (tot_nr_migrations acc).
Proof.
  revert acc. induction l as [|cpu l IH]; intros acc; simpl.
  - repeat split; reflexivity.
  - specialize (IH (add_usage_result acc (res cpu) (mig cpu))). simpl in IH.
    rewrite u64_add_l in IH. rewrite Z.add_assoc. exact IH.
Qed.

Section ProcStat.

Variable nr_cpu_ids : nat.
Variable cpu_possible : nat -> bool.
Variable housekeeping_cpu : nat -> bool.
Variable cputime_adjust : task_cputime -> prev_cputime -> prev_cputime * (Z * Z).

Local Abbreviation cpus := (possible_cpus nr_cpu_ids cpu_possible).
Local Abbreviation get_usage_result := (__cpuacct_get_usage_result cputime_adjust).

(** A snapshot writes nothing but the cursors of its own [(ca, cpu)]. *)
Lemma get_usage_result_frame (en : bool) (mem : cpuacct_mem) (ca cpu : nat)
    (tg : option task_group) (clock : Z) :
  let mem' := fst (get_usage_result en mem ca cpu tg clock) in
  cpustat (mem' ca) = cpustat (mem ca) /\
  alistats (mem' ca) = alistats (mem ca) /\
  (forall cpu', cpu' <> cpu -> cpuusage (mem' ca) cpu' = cpuusage (mem ca) cpu') /\
  (forall g, g <> ca -> mem' g = mem g).
Proof.
  destruct tg as [tg|].
  - cbv zeta.
    split; [|split; [|split]].
    + rewrite get_usage_result_mem, Nat.eqb_refl. reflexivity.
    + rewrite get_usage_result_mem, Nat.eqb_refl. reflexivity.
    + intros cpu' Hne. rewrite get_usage_result_mem, Nat.eqb_refl. simpl.
      now apply upd_other.
    + intros g Hne. rewrite get_usage_result_mem.
      now destruct (Nat.eqb_spec g ca).
  - simpl. repeat split; reflexivity.
Qed.

(** A snapshot of [(ca, cpu)] reads nothing but the [cpustat] bank and the
    usage slot of that CPU in that group. *)
Lemma get_usage_result_local (en : bool) (m1 m2 : cpuacct_mem) (ca cpu : nat)
    (tg : option task_group) (clock : Z) :
  cpustat (m1 ca) cpu = cpustat (m2 ca) cpu ->
  cpuusage (m1 ca) cpu = cpuusage (m2 ca) cpu ->
  snd (get_usage_result en m1 ca cpu tg clock) = snd (get_usage_result en m2 ca cpu tg clock) /\
  cpuusage (fst (get_usage_result en m1 ca cpu tg clock) ca) cpu
  = cpuusage (fst (get_usage_result en m2 ca cpu tg clock) ca) cpu.
Proof.
  intros Hs Hu. destruct tg as [tg|]; [|simpl; auto].
  split.
  - unfold __cpuacct_get_usage_result. rewrite Hs, Hu.
    destruct (cputime_adjust _ (prev_cputime1 _)) as [p1 [l1 r1]].
    destruct (cputime_adjust _ (prev_cputime2 _)) as [p2 [l2 r2]].
    destruct (se tg cpu) as [e|]; [destruct en|]; reflexivity.
  - rewrite !get_usage_result_mem, Nat.eqb_refl. simpl. rewrite !upd_same.
    unfold second_adjust, first_adjust, user_nice_sample, exec_sample.
    rewrite Hs, Hu. reflexivity.
Qed.

Lemma proc_stats_step_eq (en : bool) (tg : option task_group) (cpu_clock : nat -> Z)
    (ca : nat) (m : cpuacct_mem) (acc : proc_stat_sums) (c : nat) :
  proc_stats_step housekeeping_cpu cputime_adjust en tg cpu_clock ca (m, acc) c
  = if housekeeping_cpu c
    then
      let out := get_usage_result en m ca c tg (cpu_clock c) in
      (fst out,
       add_usage_result acc (snd out) (nr_migrations (alistats (fst out ca) c)))
    else (m, acc).
Proof.
  unfold proc_stats_step. destruct (housekeeping_cpu c); [|reflexivity]. simpl.
  now destruct (get_usage_result en m ca c tg (cpu_clock c)).
Qed.

(** The loop over the CPUs, for a group other than the root: the CPUs that
    are not housekeeping CPUs are skipped; every other one contributes the
    snapshot it would give on the initial memory, and only its own cursors
    are advanced. *)
Lemma proc_stats_loop (en : bool) (tg : option task_group) (cpu_clock : nat -> Z)
    (mem : cpuacct_mem) (ca : nat) (l : list nat) :
  NoDup l ->
  forall (m : cpuacct_mem) (acc : proc_stat_sums),
    cpustat (m ca) = cpustat (mem ca) ->
    alistats (m ca) = alistats (mem ca) ->
    (forall cpu, In cpu l -> cpuusage (m ca) cpu = cpuusage (mem ca) cpu) ->
    let out :=
      fold_left (proc_stats_step housekeeping_cpu cputime_adjust en tg cpu_clock ca)
        l (m, acc) in
    snd out
    = fold_left
        (fun a cpu =>
           add_usage_result a (snd (cpu_snapshot cputime_adjust en tg cpu_clock mem ca cpu))
             (nr_migrations (alistats (mem ca) cpu)))
        (filter housekeeping_cpu l) acc /\
    cpustat (fst out ca) = cpustat (mem ca) /\
    alistats (fst out ca) = alistats (mem ca) /\
    (forall cpu, In cpu (filter housekeeping_cpu l) ->
       cpuusage (fst out ca) cpu
       = cpuusage (fst (cpu_snapshot cputime_adjust en tg cpu_clock mem ca cpu) ca) cpu) /\
    (forall cpu, ~ In cpu (filter housekeeping_cpu l) ->
       cpuusage (fst out ca) cpu = cpuusage (m ca) cpu) /\
    (forall g, g <> ca -> fst out g = m g).
Proof.
  induction l as [|c l IH]; intros Hnd m acc Hs Ha Hu.
  - simpl. repeat split; try assumption; try reflexivity. intros cpu [].
  - inversion Hnd as [|? ? Hnotin Hnd']; subst.
    cbv zeta. simpl fold_left. simpl filter. rewrite proc_stats_step_eq.
    destruct (housekeeping_cpu c) eqn:Hhk.
    + cbv zeta.
      set (G := get_usage_result en m ca c tg (cpu_clock c)).
      destruct (get_usage_result_frame en m ca c tg (cpu_clock c))
        as (Fs & Fa & Fu & Fg).
      destruct (get_usage_result_local en m mem ca c tg (cpu_clock c))
        as (Lr & Lu).
      { now rewrite Hs. }
      { apply Hu. now left. }
      fold G in Fs, Fa, Fu, Fg, Lr, Lu.
      destruct (IH Hnd' (fst G)
                  (add_usage_result acc (snd G) (nr_migrations (alistats (fst G ca) c))))
        as (Isnd & Is & Ia & Iin & Iout & Ig).
      { congruence. }
      { congruence. }
      { intros cpu Hin. rewrite Fu; [apply Hu; now right|].
        intros ->. contradiction. }
      split; [|split; [|split; [|split; [|split]]]].
      * rewrite Isnd. simpl fold_left.
        change (snd (cpu_snapshot cputime_adjust en tg cpu_clock mem ca c))
          with (snd (get_usage_result en mem ca c tg (cpu_clock c))).
        rewrite <- Lr, Fa, Ha. reflexivity.
      * exact Is.
      * exact Ia.
      * intros cpu [<- | Hin].
        -- rewrite Iout.
           ++ unfold cpu_snapshot. rewrite <- Lu. reflexivity.
           ++ intros Hin. apply filter_In in Hin. now destruct Hin.
        -- now apply Iin.
      * intros cpu Hout. rewrite Iout.
        -- apply Fu. intros ->. apply Hout. now left.
        -- intros Hin. apply Hout. now right.
      * intros g Hg. rewrite Ig by assumption. now apply Fg.
    + destruct (IH Hnd' m acc Hs Ha) as (Isnd & Is & Ia & Iin & Iout & Ig).
      { intros cpu Hin. apply Hu. now right. }
      repeat split; assumption.
Qed.

(** The loop of the other branch when the cgroup has no task group. *)
Lemma proc_stats_loop_no_tg (en : bool) (cpu_clock : nat -> Z) (mem : cpuacct_mem)
    (ca : nat) (l : list nat) :
  forall m : Z,
    fold_left (proc_stats_step housekeeping_cpu cputime_adjust en None cpu_clock ca) l
      (mem, {| tot_user := 0; tot_nice := 0; tot_system := 0; tot_idle := 0;
               tot_iowait := 0; tot_irq := 0; tot_softirq := 0; tot_steal := 0;
               tot_guest := 0; tot_nr_migrations := m |})
    = (mem, {| tot_user := 0; tot_nice := 0; tot_system := 0; tot_idle := 0;
               tot_iowait := 0; tot_irq := 0; tot_softirq := 0; tot_steal := 0;
               tot_guest := 0;
               tot_nr_migrations :=
                 fold_left (fun a cpu => u64 (a + nr_migrations (alistats (mem ca) cpu)))
                   (filter housekeeping_cpu l) m |}).
Proof.
  induction l as [|c l IH]; intros m; [reflexivity|].
  simpl fold_left. simpl filter. rewrite proc_stats_step_eq.
  destruct (housekeeping_cpu c); [|apply IH].
  simpl. unfold add_usage_result. simpl. rewrite !u64_0. apply IH.
Qed.

Variable nsec_to_clock_t : Z -> Z.
Variable get_idle_time : nat -> Z.
Variable get_iowait_time : nat -> Z.


End ProcStat.

(** * The concrete machine *)

Lemma demo_path : path_to_root demo_mem 2 [2; 1; 0]%nat.
Proof.
  apply path_step with (p := 1%nat); [discriminate | reflexivity |].
  apply path_step with (p := 0%nat); [discriminate | reflexivity |].
  apply path_root. reflexivity.
Qed.

(** ** The scenarios of the specification *)

(** Group charged on CPU 0 with 100 units of user time and 50 of system time:
    the user total reads 100, the system total 50, and the root has received
    both. *)
Example scenario_user_system :
  match cpuacct_charges 3 0 [(demo_user_task, 100); (demo_kernel_task, 50)] demo_mem with
  | Done mem' =>
      cpuusage_user_read demo_nr_cpu_ids demo_cpu_possible mem' 2 = 100 /\
      cpuusage_sys_read demo_nr_cpu_ids demo_cpu_possible mem' 2 = 50 /\
      cpuusage_read demo_nr_cpu_ids demo_cpu_possible mem' root_cpuacct = 150
  | _ => False
  end.
Proof. vm_compute. repeat split; reflexivity. Qed.

(** An idle window opened at 10 and read at 15 adds 5 to the idle sum; closed
    at 20, the sum stays at 10 however late it is read. *)
Example scenario_idle_window :
  let fresh := {| cg_idle_start := 0; cg_idle_sum := 0; cg_init_time := 1;
                  cg_nr_iowait := 0; cg_iowait_start := 0; cg_iowait_sum := 0;
                  cg_ineffective_start := 0; cg_ineffective_sum := 0;
                  sum_exec_raw := 0 |} in
  let opened := cgroup_idle_start true 10 fresh in
  let closed := cgroup_idle_end true 20 opened in
  let read e clock :=
    idle (snd (__cpuacct_get_usage_result TimeReconciler.adjust true demo_mem 1 0
                 (Some (demo_tg e)) clock)) in
  read opened 15 = 5 /\ read closed 25 = 10 /\ read closed 1000 = 10.
Proof. vm_compute. repeat split; reflexivity. Qed.

(** A second adjustment whose scaled value falls below the previous report is
    clamped to the previous report. *)
Example scenario_clamp :
  let s1 := {| sum_exec_runtime := 100; utime := 9; stime := 1 |} in
  let s2 := {| sum_exec_runtime := 100; utime := 1; stime := 9 |} in
  let first := TimeReconciler.adjust s1 prev_cputime_init in
  let second := TimeReconciler.adjust s2 (fst first) in
  snd first = (90, 10) /\ snd second = (90, 90).
Proof. vm_compute. split; reflexivity. Qed.

(** ** Where the accumulators wrap *)

(** Two charges of 2^63 to the root group on CPU 0: the exact sum of the
    charged amounts is 2^64, and the group total reads 0. *)
Lemma charges_total_wraps :
  match cpuacct_charges 1 0 [(demo_root_task, 2 ^ 63); (demo_root_task, 2 ^ 63)] demo_mem with
  | Done mem' =>
      sum_Z [2 ^ 63; 2 ^ 63] = 2 ^ 64 /\
      cpuusage_read demo_nr_cpu_ids demo_cpu_possible demo_mem root_cpuacct = 0 /\
      cpuusage_read demo_nr_cpu_ids demo_cpu_possible mem' root_cpuacct = 0 /\
      cpuusage_read demo_nr_cpu_ids demo_cpu_possible mem' root_cpuacct
      <> sum_Z [2 ^ 63; 2 ^ 63]
  | _ => False
  end.
Proof. vm_compute. repeat split; try reflexivity. discriminate. Qed.

(** A charge of 2^64 - 1 followed by a charge of 1, both for a user-mode task
    of group 2 on CPU 0: the second charge takes the user accumulator of the
    group, of its parent and of the root from 2^64 - 1 to 0, and the total
    usage of each likewise; none of them has grown by 1. *)
Lemma charge_wraps_accumulator :
  match cpuacct_charge 3 0 demo_user_task U64_MAX demo_mem with
  | Done m1 =>
      match cpuacct_charge 3 0 demo_user_task 1 m1 with
      | Done m2 =>
          wrapped_by_one m1 m2 2 /\ wrapped_by_one m1 m2 1 /\
          wrapped_by_one m1 m2 root_cpuacct
      | _ => False
      end
  | _ => False
  end.
Proof.
  vm_compute. repeat split; try reflexivity; discriminate.
Qed.

(** ** Where the snapshot differs from the plain window arithmetic *)


(** An idle window is open (its start, 120, is not zero) while the clock
    reads 100: extending the idle sum 20 by [clock - start] would give 0,
    modulo 2^64 or not; the snapshot reports 20. *)
Lemma idle_not_extended_before_start :
  cg_idle_start demo_se_idle_ahead <> 0 /\
  cg_idle_sum demo_se_idle_ahead + (100 - cg_idle_start demo_se_idle_ahead) = 0 /\
  iowait (snd (__cpuacct_get_usage_result TimeReconciler.adjust true demo_mem 1 0
                 (Some (demo_tg demo_se_idle_ahead)) 100)) = 0 /\
  idle (snd (__cpuacct_get_usage_result TimeReconciler.adjust true demo_mem 1 0
               (Some (demo_tg demo_se_idle_ahead)) 100)) = 20.
Proof. vm_compute. repeat split; try reflexivity. discriminate. Qed.

(** With schedstats disabled, an entity created at 10 that has run for 30 and
    idled for 20 is read at 100: elapsed - idle - rawExec - ineffective is
    90 - 20 - 30 - 0 = 40, yet the steal time reported is 0.  With schedstats
    enabled the same read reports 40. *)
Lemma steal_zero_without_schedstats :
  Z.max 0 (100 - cg_init_time demo_se - idle_sum_at demo_se 100
           - sum_exec_raw demo_se - ineffective_sum_at demo_se 100) = 40 /\
  steal (snd (__cpuacct_get_usage_result TimeReconciler.adjust false demo_mem 1 0
                (Some (demo_tg demo_se)) 100)) = 0 /\
  steal (snd (__cpuacct_get_usage_result TimeReconciler.adjust true demo_mem 1 0
                (Some (demo_tg demo_se)) 100)) = 40.
Proof. vm_compute. repeat split; reflexivity. Qed.

(** ** The theorems at work on the concrete machine *)

(** C1 at work: 100 and 50 charged to group 2 on CPU 0; the total reads 150. *)
Lemma charges_total_witness :
  exists mem',
    cpuacct_charges 3 0 [(demo_user_task, 100); (demo_kernel_task, 50)] demo_mem
    = Done mem' /\
    cpuusage_read demo_nr_cpu_ids demo_cpu_possible mem' 2 = 150.
Proof.
  destruct (charges_total demo_nr_cpu_ids demo_cpu_possible demo_mem 2
              [2; 1; 0]%nat 0%nat [(demo_user_task, 100); (demo_kernel_task, 50)])
    as (mem' & Hrun & _ & Hexact).
  - exact demo_path.
  - simpl. auto.
  - repeat constructor.
  - exists mem'. split.
    + apply Hrun. simpl. lia.
    + apply Hexact; [reflexivity | unfold is_u64; simpl; vm_compute; split; discriminate].
Defined.

(** C2 at work: 100 charged for a user-mode task of group 2 on CPU 0 reaches
    group 2, group 1 and the root. *)
Lemma cpuacct_charge_propagates_witness :
  exists mem',
    cpuacct_charge 3 0 demo_user_task 100 demo_mem = Done mem' /\
    usages (cpuusage (mem' 2%nat) 0%nat) 0%nat = 100 /\
    usages (cpuusage (mem' 1%nat) 0%nat) 0%nat = 100 /\
    usages (cpuusage (mem' root_cpuacct) 0%nat) 0%nat = 100 /\
    cpuusage_read demo_nr_cpu_ids demo_cpu_possible mem' root_cpuacct = 100.
Proof.
  destruct (cpuacct_charge_propagates demo_nr_cpu_ids demo_cpu_possible demo_mem
              0%nat demo_user_task 2%nat [2; 1; 0]%nat 100)
    as (mem' & Hrun & _ & _ & Hpath & _).
  - reflexivity.
  - exact demo_path.
  - simpl. auto.
  - exists mem'. split; [apply Hrun; simpl; lia|].
    destruct (Hpath 2%nat) as (H2 & _); [simpl; auto|].
    destruct (Hpath 1%nat) as (H1 & _); [simpl; auto|].
    destruct (Hpath 0%nat) as (H0 & _ & T0 & _); [simpl; auto|].
    repeat split.
    + exact H2.
    + exact H1.
    + exact H0.
    + exact T0.
Defined.

(** C6 at work: 7 units of irq time accounted for a task of group 2 on CPU 1
    reach groups 2 and 1 and leave the root as it was. *)
Lemma cpuacct_account_field_witness :
  exists mem',
    cpuacct_account_field 3 1 demo_user_task CPUTIME_IRQ 7 demo_mem = Done mem' /\
    cpustat (mem' 2%nat) 1%nat CPUTIME_IRQ = 7 /\
    cpustat (mem' 1%nat) 1%nat CPUTIME_IRQ = 7 /\
    mem' root_cpuacct = demo_mem root_cpuacct.
Proof.
  destruct (cpuacct_account_field_stops_before_root demo_mem 1%nat demo_user_task
              2%nat [2; 1; 0]%nat CPUTIME_IRQ 7)
    as (mem' & Hrun & Hroot & Hpath & _).
  - reflexivity.
  - exact demo_path.
  - exists mem'. split; [apply Hrun; simpl; lia|].
    destruct (Hpath 2%nat) as (H2 & _); [simpl; auto | discriminate |].
    destruct (Hpath 1%nat) as (H1 & _); [simpl; auto | discriminate |].
    repeat split.
    + exact H2.
    + exact H1.
    + exact Hroot.
Defined.


(** C5 at work: a write of 5 is refused and changes nothing; after a write of
    0 the system accumulator of group 2 on CPU 1 reads 0. *)
Lemma cpuusage_write_reset_witness :
  cpuusage_write demo_nr_cpu_ids demo_cpu_possible demo_mem 2 5 = (demo_mem, - EINVAL) /\
  cpuacct_cpuusage_read
    (fst (cpuusage_write demo_nr_cpu_ids demo_cpu_possible demo_mem 2 0)) 2 1
    CPUACCT_STAT_SYSTEM = 0.
Proof.
  destruct (cpuusage_write_reset demo_nr_cpu_ids demo_cpu_possible demo_mem 2)
    as (Hrefused & _ & Hzero & _).
  split.
  - apply Hrefused. discriminate.
  - apply Hzero. simpl. auto.
Defined.

(** C8 at work: read at 100, the iowait sum is 5 + 40 and the idle value
    reported is 20 + 60 less that iowait sum. *)
Lemma snapshot_idle_iowait_witness :
  iowait (snd (__cpuacct_get_usage_result TimeReconciler.adjust true demo_mem 1 0
                 (Some (demo_tg demo_se_waiting)) 100)) = 45 /\
  idle (snd (__cpuacct_get_usage_result TimeReconciler.adjust true demo_mem 1 0
               (Some (demo_tg demo_se_waiting)) 100)) = 35.
Proof.
  pose proof (snapshot_idle_iowait TimeReconciler.adjust true demo_mem 1 0
                (demo_tg demo_se_waiting) 100) as H.
  cbv zeta in H. simpl se in H. cbv iota in H.
  destruct H as (_ & _ & _ & Hio & _ & Hidle).
  split.
  - rewrite Hio by discriminate. reflexivity.
  - rewrite Hidle by (simpl; discriminate || lia).
    rewrite Hio by discriminate. reflexivity.
Defined.

(** C9 at work: the entity created at 10 that has run for 30 and idled for 20,
    read at 100 with schedstats enabled, has 40 of steal time. *)
Lemma snapshot_steal_witness :
  steal (snd (__cpuacct_get_usage_result TimeReconciler.adjust true demo_mem 1 0
                (Some (demo_tg demo_se)) 100)) = 40.
Proof.
  pose proof (snapshot_steal TimeReconciler.adjust true demo_mem 1 0
                (demo_tg demo_se) 100) as H.
  cbv zeta in H. simpl se in H. cbv iota in H.
  destruct H as (_ & _ & Hexact).
  rewrite Hexact.
  - reflexivity.
  - unfold is_u64. vm_compute. split; discriminate.
  - unfold is_u64. vm_compute. split; discriminate.
Defined.

(** C10 at work, with the reconciler of the text: group 2 is read on CPU 0,
    reset, and read again later; the 100 units reported as system time before
    the reset are still reported after it, and the cursor is the one the first
    read left. *)
Lemma reset_keeps_cursors_witness :
  let before :=
    __cpuacct_get_usage_result TimeReconciler.adjust true demo_mem_busy 2 0
      (Some (demo_tg demo_se)) 100 in
  let mem' := fst (cpuusage_write demo_nr_cpu_ids demo_cpu_possible (fst before) 2 0) in
  let after :=
    __cpuacct_get_usage_result TimeReconciler.adjust true mem' 2 0
      (Some (demo_tg demo_se)) 200 in
  system (snd before) = 100 /\
  cpuacct_cpuusage_read mem' 2 0 CPUACCT_STAT_NSTATS = 0 /\
  prev_cputime1 (cpuusage (mem' 2%nat) 0%nat)
  = prev_cputime1 (cpuusage (fst before 2%nat) 0%nat) /\
  system (snd before) <= system (snd after).
Proof.
  intros before mem' after.
  destruct (reset_keeps_cursors demo_nr_cpu_ids demo_cpu_possible TimeReconciler.adjust
              (fst before) 2%nat) as (_ & Hcursors & _).
  destruct (reset_keeps_cursors demo_nr_cpu_ids demo_cpu_possible TimeReconciler.adjust
              demo_mem_busy 2%nat) as (_ & _ & _ & Hmono).
  split; [reflexivity|]. split; [reflexivity|].
  split.
  - apply Hcursors.
  - apply (Hmono adjust_cursor 0%nat (demo_tg demo_se) (demo_tg demo_se) 100 200 true true).
Defined.

(** * Further properties of the code *)

(** ** The usage files *)

Lemma sum_Z_map_add {A : Type} (f g : A -> Z) (l : list A) :
  sum_Z (map (fun x => f x + g x) l) = sum_Z (map f l) + sum_Z (map g l).
Proof.
  induction l as [|a l IH]; simpl; [reflexivity|]. rewrite IH. lia.
Qed.

Lemma u64_sum_Z_map (f : nat -> Z) (l : list nat) :
  u64 (sum_Z (map (fun x => u64 (f x)) l)) = u64 (sum_Z (map f l)).
Proof.
  induction l as [|a l IH]; simpl; [reflexivity|].
  rewrite u64_add_l, <- u64_add_r, IH, u64_add_r. reflexivity.
Qed.

Section UsageFiles.

Variable nr_cpu_ids : nat.
Variable cpu_possible : nat -> bool.

Local Abbreviation cpus := (possible_cpus nr_cpu_ids cpu_possible).

(** X1.  The total the [usage] file reports is the sum, modulo 2^64, of what
    the [usage_user] and [usage_sys] files report for the same group. *)
Theorem usage_is_user_plus_sys (mem : cpuacct_mem) (css : nat) :
  cpuusage_read nr_cpu_ids cpu_possible mem css
  = u64 (cpuusage_user_read nr_cpu_ids cpu_possible mem css
         + cpuusage_sys_read nr_cpu_ids cpu_possible mem css).
Proof.
  unfold cpuusage_read, cpuusage_user_read, cpuusage_sys_read, __cpuusage_read.
  rewrite !fold_u64_sum, u64_add_l, u64_add_r.
  rewrite <- sum_Z_map_add.
  rewrite <- (u64_sum_Z_map
                (fun i => cpuacct_cpuusage_read mem css i CPUACCT_STAT_USER
                          + cpuacct_cpuusage_read mem css i CPUACCT_STAT_SYSTEM)).
  f_equal. f_equal. apply map_ext. intros cpu. apply cpuusage_read_nstats.
Qed.

(** X2.  A per-CPU usage file prints one number for each possible CPU, and
    these numbers add up, modulo 2^64, to the total the matching usage file
    reports ([usage_percpu] to [usage], [usage_percpu_user] to [usage_user],
    [usage_percpu_sys] to [usage_sys]). *)
Theorem percpu_line_adds_up (mem : cpuacct_mem) (ca : nat)
    (index : cpuacct_stat_index) :
  length (__cpuacct_percpu_seq_show nr_cpu_ids cpu_possible mem ca index)
  = length cpus /\
  u64 (sum_Z (__cpuacct_percpu_seq_show nr_cpu_ids cpu_possible mem ca index))
  = __cpuusage_read nr_cpu_ids cpu_possible mem ca index.
Proof.
  unfold __cpuacct_percpu_seq_show, __cpuusage_read. split.
  - apply length_map.
  - now rewrite fold_u64_sum.
Qed.

(** X3.  The [usage_all] table has one row for each possible CPU, in the
    order of the per-CPU files; the row of a CPU holds, in this order, the
    number [usage_percpu_user] and the number [usage_percpu_sys] print for
    that CPU, and its two numbers add up, modulo 2^64, to the one
    [usage_percpu] prints.  The header names the columns [cpu], [user],
    [system]. *)
Theorem usage_all_agrees_with_percpu (mem : cpuacct_mem) (ca : nat) :
  let table := cpuacct_all_seq_show nr_cpu_ids cpu_possible mem ca in
  fst table = ["cpu"; "user"; "system"]%string /\
  map fst (snd table) = cpus /\
  map (fun row => nth 0 (snd row) 0) (snd table)
  = __cpuacct_percpu_seq_show nr_cpu_ids cpu_possible mem ca CPUACCT_STAT_USER /\
  map (fun row => nth 1 (snd row) 0) (snd table)
  = __cpuacct_percpu_seq_show nr_cpu_ids cpu_possible mem ca CPUACCT_STAT_SYSTEM /\
  map (fun row => u64 (sum_Z (snd row))) (snd table)
  = __cpuacct_percpu_seq_show nr_cpu_ids cpu_possible mem ca CPUACCT_STAT_NSTATS /\
  Forall (fun row => length (snd row) = 2%nat) (snd table).
Proof.
  unfold cpuacct_all_seq_show, __cpuacct_percpu_seq_show. simpl fst. simpl snd.
  split; [reflexivity|].
  split; [rewrite map_map; simpl; apply map_id|].
  split; [rewrite map_map; reflexivity|].
  split; [rewrite map_map; reflexivity|].
  split.
  - rewrite map_map. apply map_ext. intros cpu.
    rewrite cpuusage_read_nstats. simpl. now rewrite Z.add_0_r.
  - apply Forall_forall. intros row Hrow. apply in_map_iff in Hrow.
    destruct Hrow as (cpu & <- & _). reflexivity.
Qed.

End UsageFiles.

(** X4.  [cpuacct_cpuusage_write] stores the value in both accumulators of
    the CPU it is given: afterwards a read of the user or of the system
    accumulator of that CPU returns the value, and a read with the sum index
    returns twice the value modulo 2^64.  Reads of every other CPU of the
    group, and of every other group, return what they returned before. *)
Theorem cpuusage_write_then_read (mem : cpuacct_mem) (ca cpu : nat) (val : Z) :
  let mem' := cpuacct_cpuusage_write mem ca cpu val in
  cpuacct_cpuusage_read mem' ca cpu CPUACCT_STAT_USER = val /\
  cpuacct_cpuusage_read mem' ca cpu CPUACCT_STAT_SYSTEM = val /\
  cpuacct_cpuusage_read mem' ca cpu CPUACCT_STAT_NSTATS = u64 (2 * val) /\
  (forall ca' cpu' index,
      ca' <> ca \/ cpu' <> cpu ->
      cpuacct_cpuusage_read mem' ca' cpu' index
      = cpuacct_cpuusage_read mem ca' cpu' index).
Proof.
  intros mem'.
  assert (Hslot : forall i, (i < 2)%nat -> usages (cpuusage (mem' ca) cpu) i = val).
  { intros i Hi. subst mem'. rewrite cpuacct_cpuusage_write_at, Nat.eqb_refl.
    unfold usage_write_ca. simpl. rewrite upd_same. simpl. unfold upd.
    destruct i as [|[|i]]; simpl; try reflexivity. lia. }
  split; [apply Hslot; simpl; lia|]. split; [apply Hslot; simpl; lia|]. split.
  - rewrite cpuusage_read_nstats, !Hslot by lia. f_equal. lia.
  - intros ca' cpu' index Hother.
    assert (Hcu : cpuusage (mem' ca') cpu' = cpuusage (mem ca') cpu').
    { subst mem'. rewrite cpuacct_cpuusage_write_at.
      destruct (Nat.eqb_spec ca' ca) as [->|]; [|reflexivity].
      unfold usage_write_ca. simpl. apply upd_other. tauto. }
    unfold cpuacct_cpuusage_read. now rewrite Hcu.
Qed.

(** ** What a charge touches *)

Lemma charge_one_at (mem : cpuacct_mem) (a cpu index : nat) (x : Z) (g : nat) :
  charge_one mem a cpu index x g
  = if Nat.eqb g a then charge_ca cpu index x (mem a) else mem g.
Proof. reflexivity. Qed.

(** One iteration of the loop of [cpuacct_charge] writes one accumulator. *)
Lemma charge_one_frame (mem : cpuacct_mem) (a cpu index : nat) (x : Z) (g : nat) :
  css_parent (charge_one mem a cpu index x g) = css_parent (mem g) /\
  alistats (charge_one mem a cpu index x g) = alistats (mem g) /\
  cpustat (charge_one mem a cpu index x g) = cpustat (mem g) /\
  forall cpu',
    prev_cputime1 (cpuusage (charge_one mem a cpu index x g) cpu')
    = prev_cputime1 (cpuusage (mem g) cpu') /\
    prev_cputime2 (cpuusage (charge_one mem a cpu index x g) cpu')
    = prev_cputime2 (cpuusage (mem g) cpu') /\
    forall j, cpu' <> cpu \/ j <> index ->
      usages (cpuusage (charge_one mem a cpu index x g) cpu') j
      = usages (cpuusage (mem g) cpu') j.
Proof.
  rewrite charge_one_at. destruct (Nat.eqb_spec g a) as [->|_].
  - split; [reflexivity|]. split; [reflexivity|]. split; [reflexivity|].
    intros cpu'. split; [|split].
    + unfold charge_ca. simpl. unfold upd.
      destruct (Nat.eqb_spec cpu' cpu) as [->|]; reflexivity.
    + unfold charge_ca. simpl. unfold upd.
      destruct (Nat.eqb_spec cpu' cpu) as [->|]; reflexivity.
    + intros j Hj. rewrite charge_ca_usages.
      destruct (Nat.eqb_spec cpu' cpu), (Nat.eqb_spec j index); simpl;
        try reflexivity.
      tauto.
  - repeat split; reflexivity.
Qed.

(** Whatever the hierarchy, the walk of [cpuacct_charge] writes nothing but
    the accumulator [index] of CPU [cpu]. *)
Lemma charge_walk_frame (fuel cpu index : nat) (x : Z) :
  forall (ca : option nat) (mem mem' : cpuacct_mem),
    charge_walk fuel cpu index x ca mem = Done mem' ->
    forall g,
      css_parent (mem' g) = css_parent (mem g) /\
      alistats (mem' g) = alistats (mem g) /\
      cpustat (mem' g) = cpustat (mem g) /\
      forall cpu',
        prev_cputime1 (cpuusage (mem' g) cpu') = prev_cputime1 (cpuusage (mem g) cpu') /\
        prev_cputime2 (cpuusage (mem' g) cpu') = prev_cputime2 (cpuusage (mem g) cpu') /\
        forall j, cpu' <> cpu \/ j <> index ->
          usages (cpuusage (mem' g) cpu') j = usages (cpuusage (mem g) cpu') j.
Proof.
  induction fuel as [|fuel IH]; intros ca mem mem' Hrun g.
  - destruct ca as [a|]; simpl in Hrun; [discriminate|].
    injection Hrun as <-. repeat split; reflexivity.
  - destruct ca as [a|]; simpl in Hrun.
    + destruct (IH _ _ _ Hrun g) as (Hp & Ha & Hs & Hc).
      destruct (charge_one_frame mem a cpu index x g) as (Hp1 & Ha1 & Hs1 & Hc1).
      split; [congruence|]. split; [congruence|]. split; [congruence|].
      intros cpu'. destruct (Hc cpu') as (H1 & H2 & H3).
      destruct (Hc1 cpu') as (H11 & H21 & H31).
      split; [congruence|]. split; [congruence|].
      intros j Hj. rewrite H3 by assumption. now apply H31.
    + injection Hrun as <-. repeat split; reflexivity.
Qed.

(** The array [val] of the [stat] file is computed from the [cpustat] bank of
    the group alone. *)
Lemma stats_vals_local (nr_cpu_ids : nat) (cpu_possible : nat -> bool)
    (m1 m2 : cpuacct_mem) (ca : nat) :
  cpustat (m1 ca) = cpustat (m2 ca) ->
  cpuacct_stats_vals nr_cpu_ids cpu_possible m1 ca
  = cpuacct_stats_vals nr_cpu_ids cpu_possible m2 ca.
Proof.
  intros H. unfold cpuacct_stats_vals, stats_show_step. now rewrite H.
Qed.

Lemma stats_show_local (nr_cpu_ids : nat) (cpu_possible : nat -> bool)
    (nsec_to_clock_t : Z -> Z) (m1 m2 : cpuacct_mem) (ca : nat) :
  cpustat (m1 ca) = cpustat (m2 ca) ->
  cpuacct_stats_show nr_cpu_ids cpu_possible nsec_to_clock_t m1 ca
  = cpuacct_stats_show nr_cpu_ids cpu_possible nsec_to_clock_t m2 ca.
Proof.
  intros H. unfold cpuacct_stats_show.
  now rewrite (stats_vals_local nr_cpu_ids cpu_possible m1 m2 ca H).
Qed.

(** A read of an accumulator depends on the [usages] array of its slot alone. *)
Lemma cpuusage_read_local (m1 m2 : cpuacct_mem) (ca cpu : nat)
    (index : cpuacct_stat_index) :
  (forall j, usages (cpuusage (m1 ca) cpu) j = usages (cpuusage (m2 ca) cpu) j) ->
  cpuacct_cpuusage_read m1 ca cpu index = cpuacct_cpuusage_read m2 ca cpu index.
Proof.
  intros H. destruct index.
  - apply H.
  - apply H.
  - rewrite !cpuusage_read_nstats, !H. reflexivity.
Qed.

Lemma usage_total_local (nr_cpu_ids : nat) (cpu_possible : nat -> bool)
    (m1 m2 : cpuacct_mem) (ca : nat) (index : cpuacct_stat_index) :
  (forall cpu j, usages (cpuusage (m1 ca) cpu) j = usages (cpuusage (m2 ca) cpu) j) ->
  __cpuusage_read nr_cpu_ids cpu_possible m1 ca index
  = __cpuusage_read nr_cpu_ids cpu_possible m2 ca index.
Proof.
  intros H. unfold __cpuusage_read. rewrite !fold_u64_sum. f_equal. f_equal.
  apply map_ext. intros cpu. apply cpuusage_read_local. intros j. apply H.
Qed.

Lemma u64_replace_exact (s a x : Z) : u64 (s + (u64 (a + x) - a)) = u64 (s + x).
Proof.
  replace (s + (u64 (a + x) - a)) with ((s - a) + u64 (a + x)) by lia.
  rewrite u64_add_r. f_equal. lia.
Qed.

Section ChargeFiles.

Variable nr_cpu_ids : nat.
Variable cpu_possible : nat -> bool.
Variable nsec_to_clock_t : Z -> Z.

Local Abbreviation cpus := (possible_cpus nr_cpu_ids cpu_possible).
Local Abbreviation usage_file := (__cpuusage_read nr_cpu_ids cpu_possible).

(** X5.  [cpuacct_charge] tests the group pointer before each step: for a
    task without a group it returns at once with nothing written, and for a
    task whose group has a path to the root it returns, given a bound that
    covers the path.  Whatever the shape of the hierarchy, a call that
    returns has written nothing but the accumulator it selects for the task,
    on the CPU it runs on: in every group the parent link, the migration
    counters, the [cpustat] counters, both reconciliation cursors of every
    CPU, the other accumulator and the accumulators of the other CPUs hold
    what they held before.  In particular the [stat] file of every group
    prints what it printed before the charge. *)
Theorem cpuacct_charge_writes_one_accumulator (fuel this_cpu : nat)
    (tsk : task_struct) (cputime : Z) (mem : cpuacct_mem) :
  (task_ca tsk = None -> cpuacct_charge fuel this_cpu tsk cputime mem = Done mem) /\
  (forall leaf path,
      task_ca tsk = Some leaf -> path_to_root mem leaf path ->
      (length path <= fuel)%nat ->
      exists mem', cpuacct_charge fuel this_cpu tsk cputime mem = Done mem') /\
  (forall mem',
      cpuacct_charge fuel this_cpu tsk cputime mem = Done mem' ->
      (forall g,
          css_parent (mem' g) = css_parent (mem g) /\
          alistats (mem' g) = alistats (mem g) /\
          cpustat (mem' g) = cpustat (mem g)) /\
      (forall g cpu,
          prev_cputime1 (cpuusage (mem' g) cpu) = prev_cputime1 (cpuusage (mem g) cpu) /\
          prev_cputime2 (cpuusage (mem' g) cpu) = prev_cputime2 (cpuusage (mem g) cpu)) /\
      (forall g cpu j,
          cpu <> this_cpu \/ j <> stat_nr (charge_index tsk) ->
          usages (cpuusage (mem' g) cpu) j = usages (cpuusage (mem g) cpu) j) /\
      (forall g,
          cpuacct_stats_show nr_cpu_ids cpu_possible nsec_to_clock_t mem' g
          = cpuacct_stats_show nr_cpu_ids cpu_possible nsec_to_clock_t mem g)).
Proof.
  split; [|split].
  - intros Hnone. unfold cpuacct_charge. rewrite Hnone. now destruct fuel.
  - intros leaf path Hca Hpath Hfuel. eexists.
    now apply cpuacct_charge_done with (leaf := leaf) (path := path).
  - intros mem' Hrun. unfold cpuacct_charge in Hrun.
    pose proof (charge_walk_frame _ _ _ _ _ _ _ Hrun) as Hframe.
    split; [|split; [|split]].
    + intros g. destruct (Hframe g) as (Hp & Ha & Hs & _). auto.
    + intros g cpu. destruct (Hframe g) as (_ & _ & _ & Hc).
      destruct (Hc cpu) as (H1 & H2 & _). auto.
    + intros g cpu j Hj. destruct (Hframe g) as (_ & _ & _ & Hc).
      destruct (Hc cpu) as (_ & _ & H3). now apply H3.
    + intros g. apply stats_show_local. destruct (Hframe g) as (_ & _ & Hs & _).
      exact Hs.
Qed.

(** A charge of [x] to the accumulator [i] of [(g, this_cpu)], seen through
    the file of one accumulator. *)
Lemma charged_file (mem mem' : cpuacct_mem) (g this_cpu i : nat) (x : Z)
    (index : cpuacct_stat_index) :
  mem' g = charge_ca this_cpu i x (mem g) ->
  index <> CPUACCT_STAT_NSTATS ->
  In this_cpu cpus ->
  usage_file mem' g index
  = if Nat.eqb (stat_nr index) i
    then u64 (usage_file mem g index + x)
    else usage_file mem g index.
Proof.
  intros Hg Hindex Hin.
  assert (Hread : forall m cpu,
            cpuacct_cpuusage_read m g cpu index
            = usages (cpuusage (m g) cpu) (stat_nr index)).
  { intros m cpu. destruct index; try reflexivity. contradiction. }
  unfold __cpuusage_read. rewrite !fold_u64_sum.
  destruct (Nat.eqb_spec (stat_nr index) i) as [Hi|Hi].
  - rewrite (sum_Z_replace
               (fun c => cpuacct_cpuusage_read mem g c index)
               (fun c => cpuacct_cpuusage_read mem' g c index)
               cpus this_cpu).
    + rewrite !Hread, Hg, charge_ca_usages, Nat.eqb_refl, Hi, Nat.eqb_refl. simpl.
      rewrite u64_add_l. apply u64_replace_exact.
    + apply possible_cpus_NoDup.
    + assumption.
    + intros cpu _ Hne. rewrite !Hread, Hg, charge_ca_usages.
      destruct (Nat.eqb_spec cpu this_cpu); [contradiction | reflexivity].
  - f_equal. f_equal. apply map_ext. intros cpu.
    rewrite !Hread, Hg, charge_ca_usages.
    destruct (Nat.eqb_spec (stat_nr index) i); [contradiction|].
    now rewrite andb_false_r.
Qed.

(** X6.  A charge goes to one of the two usage files.  For a task running in
    user mode (its saved registers exist and [user_mode] holds for them) the
    charge adds the amount, modulo 2^64, to what [usage_user] reports for the
    task's group and for each of its ancestors, the root included, and
    [usage_sys] reports what it reported before; for every other task, a
    kernel thread without saved registers among them, it is [usage_sys] that
    grows and [usage_user] that stays. *)
Theorem cpuacct_charge_user_or_sys (mem : cpuacct_mem) (this_cpu : nat)
    (tsk : task_struct) (leaf : nat) (path : list nat) (cputime : Z) :
  task_ca tsk = Some leaf ->
  path_to_root mem leaf path ->
  In this_cpu cpus ->
  exists mem',
    (forall fuel, (length path <= fuel)%nat ->
                  cpuacct_charge fuel this_cpu tsk cputime mem = Done mem') /\
    forall g, In g path ->
      let user_before := cpuusage_user_read nr_cpu_ids cpu_possible mem g in
      let sys_before := cpuusage_sys_read nr_cpu_ids cpu_possible mem g in
      let user_after := cpuusage_user_read nr_cpu_ids cpu_possible mem' g in
      let sys_after := cpuusage_sys_read nr_cpu_ids cpu_possible mem' g in
      let in_user_mode :=
        match task_pt_regs tsk with
        | Some regs => user_mode regs
        | None => false
        end in
      if in_user_mode
      then user_after = u64 (user_before + cputime) /\ sys_after = sys_before
      else sys_after = u64 (sys_before + cputime) /\ user_after = user_before.
Proof.
  intros Hca Hpath Hcpu.
  exists (charge_along this_cpu (stat_nr (charge_index tsk)) cputime path mem).
  split.
  - intros fuel Hfuel. now apply cpuacct_charge_done with (leaf := leaf).
  - intros g Hg. cbv zeta.
    pose proof (path_NoDup _ _ _ Hpath) as Hnd.
    assert (Hobj : charge_along this_cpu (stat_nr (charge_index tsk)) cputime path mem g
                   = charge_ca this_cpu (stat_nr (charge_index tsk)) cputime (mem g))
      by now apply charge_along_in.
    pose proof (charged_file mem _ g this_cpu _ cputime CPUACCT_STAT_USER Hobj
                  ltac:(discriminate) Hcpu) as Huser.
    pose proof (charged_file mem _ g this_cpu _ cputime CPUACCT_STAT_SYSTEM Hobj
                  ltac:(discriminate) Hcpu) as Hsys.
    unfold cpuusage_user_read, cpuusage_sys_read.
    unfold charge_index in *.
    destruct (task_pt_regs tsk) as [regs|]; [destruct (user_mode regs)|];
      simpl in Huser, Hsys; auto.
Qed.

End ChargeFiles.

(** ** Edges of the tick accounting *)

(** X7.  [cpuacct_account_field] compares the group with the root before it
    touches it, and never tests it for NULL.  For a task of the root group it
    returns at once with nothing written, whatever the bound on the walk.  For
    a task without a group it dereferences NULL; and so it does, after having
    updated that group, when the task's group is not the root and has no
    parent: the walk can only end at the root. *)
Theorem cpuacct_account_field_needs_root (fuel this_cpu : nat)
    (tsk : task_struct) (index : cpu_usage_stat) (val : Z) (mem : cpuacct_mem) :
  (task_ca tsk = Some root_cpuacct ->
   cpuacct_account_field fuel this_cpu tsk index val mem = Done mem) /\
  (task_ca tsk = None ->
   cpuacct_account_field fuel this_cpu tsk index val mem = NullDeref) /\
  (forall g, task_ca tsk = Some g -> g <> root_cpuacct -> parent_ca mem g = None ->
   cpuacct_account_field (S fuel) this_cpu tsk index val mem = NullDeref).
Proof.
  unfold cpuacct_account_field. split; [|split].
  - intros ->. now destruct fuel.
  - intros ->. now destruct fuel.
  - intros g -> Hg Hparent. simpl.
    destruct (Nat.eqb_spec g root_cpuacct) as [|_]; [contradiction|].
    rewrite account_one_parent, Hparent. now destruct fuel.
Qed.

Lemma account_one_at (mem : cpuacct_mem) (a cpu : nat) (index : cpu_usage_stat)
    (val : Z) (g : nat) :
  account_one mem a cpu index val g
  = if Nat.eqb g a then account_ca cpu index val (mem a) else mem g.
Proof. reflexivity. Qed.

(** Whatever the hierarchy, the walk of [cpuacct_account_field] writes nothing
    but the counter [index] of CPU [cpu], and nothing in the root group. *)
Lemma account_walk_frame (fuel cpu : nat) (index : cpu_usage_stat) (val : Z) :
  forall (ca : option nat) (mem mem' : cpuacct_mem),
    account_walk fuel cpu index val ca mem = Done mem' ->
    mem' root_cpuacct = mem root_cpuacct /\
    forall g,
      css_parent (mem' g) = css_parent (mem g) /\
      alistats (mem' g) = alistats (mem g) /\
      cpuusage (mem' g) = cpuusage (mem g) /\
      forall cpu' j, cpu' <> cpu \/ j <> index ->
        cpustat (mem' g) cpu' j = cpustat (mem g) cpu' j.
Proof.
  assert (Hone : forall mem a g,
            css_parent (account_one mem a cpu index val g) = css_parent (mem g) /\
            alistats (account_one mem a cpu index val g) = alistats (mem g) /\
            cpuusage (account_one mem a cpu index val g) = cpuusage (mem g) /\
            forall cpu' j, cpu' <> cpu \/ j <> index ->
              cpustat (account_one mem a cpu index val g) cpu' j = cpustat (mem g) cpu' j).
  { intros mem a g. rewrite account_one_at.
    destruct (Nat.eqb_spec g a) as [->|_]; [|repeat split; reflexivity].
    split; [reflexivity|]. split; [reflexivity|]. split; [reflexivity|].
    intros cpu' j Hj. unfold account_ca. simpl. unfold upd.
    destruct (Nat.eqb_spec cpu' cpu) as [->|]; [|reflexivity].
    unfold cpustat_add. destruct (cpu_usage_stat_eqb_spec j index); [|reflexivity].
    tauto. }
  induction fuel as [|fuel IH]; intros ca mem mem' Hrun.
  - destruct ca as [a|]; simpl in Hrun; [|discriminate].
    destruct (Nat.eqb a root_cpuacct); [|discriminate].
    injection Hrun as <-. split; [reflexivity|]. repeat split; reflexivity.
  - destruct ca as [a|]; simpl in Hrun; [|discriminate].
    destruct (Nat.eqb_spec a root_cpuacct) as [|Hne].
    + injection Hrun as <-. split; [reflexivity|]. repeat split; reflexivity.
    + destruct (IH _ _ _ Hrun) as (Hroot & Hall). split.
      * rewrite Hroot, account_one_at.
        destruct (Nat.eqb_spec root_cpuacct a); [congruence | reflexivity].
      * intros g. destruct (Hall g) as (Hp & Ha & Hu & Hs).
        destruct (Hone mem a g) as (Hp1 & Ha1 & Hu1 & Hs1).
        split; [congruence|]. split; [congruence|]. split; [congruence|].
        intros cpu' j Hj. rewrite Hs by assumption. now apply Hs1.
Qed.

(** X8.  For a task whose group has a path to the root,
    [cpuacct_account_field] returns, given a bound that covers the path.
    Whatever the shape of the hierarchy, a call that returns has left the
    root group as it was and has written nothing but the counter of the given
    category on the CPU it runs on: every usage accumulator and every usage
    file ([usage], [usage_user], [usage_sys], and the per-CPU reads behind
    them) of every group reports what it reported before, and so do the
    migration counters and the counters of the other categories and CPUs. *)
Theorem cpuacct_account_field_keeps_usage (nr_cpu_ids : nat)
    (cpu_possible : nat -> bool) (fuel this_cpu : nat) (tsk : task_struct)
    (index : cpu_usage_stat) (val : Z) (mem : cpuacct_mem) :
  (forall g path,
      task_ca tsk = Some g -> path_to_root mem g path ->
      (length path <= fuel)%nat ->
      exists mem', cpuacct_account_field fuel this_cpu tsk index val mem = Done mem') /\
  (forall mem',
      cpuacct_account_field fuel this_cpu tsk index val mem = Done mem' ->
      mem' root_cpuacct = mem root_cpuacct /\
      (forall g cpu i,
          cpuacct_cpuusage_read mem' g cpu i = cpuacct_cpuusage_read mem g cpu i) /\
      (forall g i,
          __cpuusage_read nr_cpu_ids cpu_possible mem' g i
          = __cpuusage_read nr_cpu_ids cpu_possible mem g i) /\
      (forall g, cpuusage (mem' g) = cpuusage (mem g) /\
                 alistats (mem' g) = alistats (mem g) /\
                 css_parent (mem' g) = css_parent (mem g)) /\
      (forall g cpu j, cpu <> this_cpu \/ j <> index ->
          cpustat (mem' g) cpu j = cpustat (mem g) cpu j)).
Proof.
  split.
  - intros g path Hca Hpath Hfuel. eexists.
    unfold cpuacct_account_field. rewrite Hca.
    exact (account_walk_path mem g path this_cpu index val Hpath fuel mem Hfuel
             (fun _ => eq_refl)).
  - intros mem' Hrun. unfold cpuacct_account_field in Hrun.
    destruct (account_walk_frame _ _ _ _ _ _ _ Hrun) as (Hroot & Hall).
    split; [exact Hroot|]. split; [|split; [|split]].
    + intros g cpu i. apply cpuusage_read_local. intros j.
      destruct (Hall g) as (_ & _ & Hu & _). now rewrite Hu.
    + intros g i. apply usage_total_local. intros cpu j.
      destruct (Hall g) as (_ & _ & Hu & _). now rewrite Hu.
    + intros g. destruct (Hall g) as (Hp & Ha & Hu & _). auto.
    + intros g cpu j Hj. destruct (Hall g) as (_ & _ & _ & Hs). now apply Hs.
Qed.

(** X5 at work: 100 charged for a user-mode task of group 2 on CPU 0 leaves
    the system accumulator, the cursors and the [stat] file of group 2 alone. *)
Lemma cpuacct_charge_writes_one_accumulator_witness :
  exists mem',
    cpuacct_charge 3 0 demo_user_task 100 demo_mem = Done mem' /\
    usages (cpuusage (mem' 2%nat) 0%nat) 1%nat
    = usages (cpuusage (demo_mem 2%nat) 0%nat) 1%nat /\
    prev_cputime1 (cpuusage (mem' 2%nat) 0%nat)
    = prev_cputime1 (cpuusage (demo_mem 2%nat) 0%nat) /\
    cpuacct_stats_show demo_nr_cpu_ids demo_cpu_possible demo_nsec_to_clock_t mem' 2
    = cpuacct_stats_show demo_nr_cpu_ids demo_cpu_possible demo_nsec_to_clock_t demo_mem 2.
Proof.
  destruct (cpuacct_charge_writes_one_accumulator demo_nr_cpu_ids demo_cpu_possible
              demo_nsec_to_clock_t 3 0 demo_user_task 100 demo_mem)
    as (_ & Hreturns & Hframe).
  destruct (Hreturns 2%nat [2; 1; 0]%nat eq_refl demo_path) as (mem' & Hrun);
    [simpl; lia|].
  destruct (Hframe mem' Hrun) as (_ & Hcursors & Hother & Hstat).
  exists mem'. split; [exact Hrun|]. split; [|split].
  - apply Hother. right. discriminate.
  - apply Hcursors.
  - apply Hstat.
Defined.

(** X6 at work: 100 charged for a user-mode task of group 2 on CPU 0 show in
    [usage_user] of the root group and not in its [usage_sys]. *)
Lemma cpuacct_charge_user_or_sys_witness :
  exists mem',
    cpuacct_charge 3 0 demo_user_task 100 demo_mem = Done mem' /\
    cpuusage_user_read demo_nr_cpu_ids demo_cpu_possible mem' root_cpuacct = 100 /\
    cpuusage_sys_read demo_nr_cpu_ids demo_cpu_possible mem' root_cpuacct = 0.
Proof.
  destruct (cpuacct_charge_user_or_sys demo_nr_cpu_ids demo_cpu_possible demo_mem
              0%nat demo_user_task 2%nat [2; 1; 0]%nat 100)
    as (mem' & Hrun & Hfiles).
  - reflexivity.
  - exact demo_path.
  - simpl. auto.
  - exists mem'. split; [apply Hrun; simpl; lia|].
    destruct (Hfiles root_cpuacct) as (Huser & Hsys); [simpl; auto|].
    split.
    + rewrite Huser. reflexivity.
    + rewrite Hsys. reflexivity.
Defined.

(** X8 at work: 7 units of irq time accounted for a task of group 2 on CPU 1
    leave the usage of group 2 and the root group as they were. *)
Lemma cpuacct_account_field_keeps_usage_witness :
  exists mem',
    cpuacct_account_field 3 1 demo_user_task CPUTIME_IRQ 7 demo_mem = Done mem' /\
    cpuusage_read demo_nr_cpu_ids demo_cpu_possible mem' 2
    = cpuusage_read demo_nr_cpu_ids demo_cpu_possible demo_mem 2 /\
    mem' root_cpuacct = demo_mem root_cpuacct.
Proof.
  destruct (cpuacct_account_field_keeps_usage demo_nr_cpu_ids demo_cpu_possible
              3 1 demo_user_task CPUTIME_IRQ 7 demo_mem)
    as (Hreturns & Hframe).
  destruct (Hreturns 2%nat [2; 1; 0]%nat eq_refl demo_path) as (mem' & Hrun);
    [simpl; lia|].
  destruct (Hframe mem' Hrun) as (Hroot & _ & Hfile & _).
  exists mem'. split; [exact Hrun|]. split.
  - apply Hfile.
  - exact Hroot.
Defined.

(** ** The [stat] file *)

Lemma u64_s64 (z : Z) : u64 (s64 z) = u64 z.
Proof.
  unfold s64. destruct (u64 z <? 2 ^ 63); [apply u64_idem|].
  replace (u64 z - 2 ^ 64) with (u64 z + (-1) * 2 ^ 64) by lia.
  unfold u64. rewrite Z_mod_plus_full. apply Z.mod_mod. lia.
Qed.

Lemma s64_add_l (a b : Z) : u64 (s64 a + b) = u64 (a + b).
Proof. now rewrite <- u64_add_l, u64_s64, u64_add_l. Qed.

Lemma stats_show_step_at (mem : cpuacct_mem) (ca : nat) (val : nat -> Z) (cpu : nat) :
  let k := cpustat (mem ca) cpu in
  stats_show_step mem ca val cpu 0%nat
  = s64 (s64 (val 0%nat + k CPUTIME_USER) + k CPUTIME_NICE) /\
  stats_show_step mem ca val cpu 1%nat
  = s64 (s64 (s64 (val 1%nat + k CPUTIME_SYSTEM) + k CPUTIME_IRQ) + k CPUTIME_SOFTIRQ).
Proof. split; reflexivity. Qed.

(** The loop of [cpuacct_stats_show]: user and nice time go to [val[USER]],
    system, irq and softirq time to [val[SYSTEM]]. *)
Lemma stats_vals_loop (mem : cpuacct_mem) (ca : nat) (l : list nat) :
  forall v0 : nat -> Z,
    let k := cpustat (mem ca) in
    let v := fold_left (stats_show_step mem ca) l v0 in
    u64 (v 0%nat)
    = u64 (v0 0%nat
           + sum_Z (map (fun cpu => k cpu CPUTIME_USER + k cpu CPUTIME_NICE) l)) /\
    u64 (v 1%nat)
    = u64 (v0 1%nat
           + sum_Z (map (fun cpu => k cpu CPUTIME_SYSTEM + k cpu CPUTIME_IRQ
                                    + k cpu CPUTIME_SOFTIRQ) l)).
Proof.
  induction l as [|c l IH]; intros v0; cbv zeta.
  - simpl. rewrite !Z.add_0_r. split; reflexivity.
  - simpl fold_left. simpl map. simpl sum_Z.
    destruct (IH (stats_show_step mem ca v0 c)) as (Hu & Hs).
    destruct (stats_show_step_at mem ca v0 c) as (Eu & Es).
    rewrite Hu, Hs, Eu, Es. split.
    + rewrite s64_add_l, <- Z.add_assoc, s64_add_l. f_equal. lia.
    + rewrite s64_add_l, <- Z.add_assoc, s64_add_l, <- Z.add_assoc, s64_add_l.
      f_equal. lia.
Qed.

Lemma stats_vals_sums (nr_cpu_ids : nat) (cpu_possible : nat -> bool)
    (mem : cpuacct_mem) (ca : nat) :
  let k := cpustat (mem ca) in
  let cpus := possible_cpus nr_cpu_ids cpu_possible in
  u64 (cpuacct_stats_vals nr_cpu_ids cpu_possible mem ca 0%nat)
  = u64 (sum_Z (map (fun cpu => k cpu CPUTIME_USER + k cpu CPUTIME_NICE) cpus)) /\
  u64 (cpuacct_stats_vals nr_cpu_ids cpu_possible mem ca 1%nat)
  = u64 (sum_Z (map (fun cpu => k cpu CPUTIME_SYSTEM + k cpu CPUTIME_IRQ
                                + k cpu CPUTIME_SOFTIRQ) cpus)).
Proof.
  exact (stats_vals_loop mem ca (possible_cpus nr_cpu_ids cpu_possible) (fun _ => 0)).
Qed.

Lemma u64_bump (s d a x : Z) : d = u64 (a + x) - a -> u64 (s + d) = u64 (s + x).
Proof. intros ->. apply u64_replace_exact. Qed.

Section StatFile.

Variable nr_cpu_ids : nat.
Variable cpu_possible : nat -> bool.
Variable nsec_to_clock_t : Z -> Z.

Local Abbreviation cpus := (possible_cpus nr_cpu_ids cpu_possible).
Local Abbreviation stat_vals := (cpuacct_stats_vals nr_cpu_ids cpu_possible).
Local Abbreviation stat_file :=
  (cpuacct_stats_show nr_cpu_ids cpu_possible nsec_to_clock_t).

(** X9.  The [stat] file prints two lines, [user] and [system].  The number
    converted for [user] is the sum, modulo 2^64, of the user and nice
    counters of the group's [cpustat] bank over all possible CPUs; the one
    converted for [system] is the sum of its system, irq and softirq
    counters.  Each is handed to [nsec_to_clock_t] and the result is printed
    as a signed 64-bit number.  No CPU is skipped, and the usage
    accumulators play no part. *)
Theorem cpuacct_stats_show_sums (mem : cpuacct_mem) (ca : nat) :
  let k := cpustat (mem ca) in
  stat_file mem ca
  = [ ("user"%string,
       s64 (nsec_to_clock_t
              (u64 (sum_Z (map (fun cpu => k cpu CPUTIME_USER + k cpu CPUTIME_NICE)
                             cpus)))));
      ("system"%string,
       s64 (nsec_to_clock_t
              (u64 (sum_Z (map (fun cpu => k cpu CPUTIME_SYSTEM + k cpu CPUTIME_IRQ
                                           + k cpu CPUTIME_SOFTIRQ)
                             cpus))))) ].
Proof.
  destruct (stats_vals_sums nr_cpu_ids cpu_possible mem ca) as (Hu & Hs).
  cbv zeta in *. unfold cpuacct_stats_show. simpl map.
  rewrite Hu, Hs. reflexivity.
Qed.

Lemma account_field_done (mem : cpuacct_mem) (tsk : task_struct) (g : nat)
    (path : list nat) (this_cpu : nat) (index : cpu_usage_stat) (val : Z)
    (fuel : nat) :
  task_ca tsk = Some g ->
  path_to_root mem g path ->
  (length path <= fuel)%nat ->
  cpuacct_account_field fuel this_cpu tsk index val mem
  = Done (account_along this_cpu index val (removelast path) mem).
Proof.
  intros Hca Hpath Hfuel. unfold cpuacct_account_field. rewrite Hca.
  now apply (account_walk_path mem).
Qed.

Lemma account_along_at (mem : cpuacct_mem) (g : nat) (path : list nat)
    (this_cpu : nat) (index : cpu_usage_stat) (val : Z) (a : nat) :
  path_to_root mem g path ->
  account_along this_cpu index val (removelast path) mem a
  = if in_dec Nat.eq_dec a path
    then if Nat.eqb a root_cpuacct then mem a
         else account_ca this_cpu index val (mem a)
    else mem a.
Proof.
  intros Hpath.
  destruct (path_ends_at_root _ _ _ Hpath) as (_ & _ & Hnr & Hsplit).
  assert (Hnd : NoDup (removelast path)).
  { pose proof (path_NoDup _ _ _ Hpath) as Hnd. rewrite Hsplit in Hnd.
    now apply NoDup_remove_1 in Hnd; rewrite app_nil_r in Hnd. }
  unfold account_along.
  destruct (in_dec Nat.eq_dec a path) as [Hin|Hout].
  - destruct (Nat.eqb_spec a root_cpuacct) as [->|Hne].
    + now apply fold_upd_notin.
    + apply fold_upd_in; [assumption|].
      rewrite Hsplit in Hin. apply in_app_or in Hin.
      destruct Hin as [Hin | [Hin | []]]; [assumption | congruence].
  - apply fold_upd_notin. intros Hin. apply Hout.
    rewrite Hsplit. apply in_or_app. now left.
Qed.

(** X10.  Time accounted by [cpuacct_account_field] shows in the [stat] file
    of the task's group and of each of its ancestors other than the root:
    the nanoseconds converted for the [user] line grow by the value, modulo
    2^64, when the category is user or nice, those converted for the
    [system] line grow by it when the category is system, irq or softirq, and
    every other category (guest, steal, idle, iowait among them) leaves both
    lines as they were.  The [stat] file of the root group prints what it
    printed before: the root's counters are the caller's to update. *)
Theorem cpuacct_account_field_in_stat (mem : cpuacct_mem) (this_cpu : nat)
    (tsk : task_struct) (g : nat) (path : list nat) (index : cpu_usage_stat)
    (val : Z) :
  task_ca tsk = Some g ->
  path_to_root mem g path ->
  In this_cpu cpus ->
  exists mem',
    (forall fuel, (length path <= fuel)%nat ->
                  cpuacct_account_field fuel this_cpu tsk index val mem = Done mem') /\
    (forall a, In a path -> a <> root_cpuacct ->
       u64 (stat_vals mem' a (stat_nr CPUACCT_STAT_USER))
       = u64 (stat_vals mem a (stat_nr CPUACCT_STAT_USER)
              + match index with
                | CPUTIME_USER | CPUTIME_NICE => val
                | _ => 0
                end) /\
       u64 (stat_vals mem' a (stat_nr CPUACCT_STAT_SYSTEM))
       = u64 (stat_vals mem a (stat_nr CPUACCT_STAT_SYSTEM)
              + match index with
                | CPUTIME_SYSTEM | CPUTIME_IRQ | CPUTIME_SOFTIRQ => val
                | _ => 0
                end)) /\
    stat_file mem' root_cpuacct = stat_file mem root_cpuacct.
Proof.
  intros Hca Hpath Hcpu.
  exists (account_along this_cpu index val (removelast path) mem).
  split; [|split].
  - intros fuel Hfuel. now apply account_field_done with (g := g).
  - intros a Ha Hne.
    pose proof (account_along_at mem g path this_cpu index val a Hpath) as Hobj.
    destruct (in_dec Nat.eq_dec a path) as [_|]; [|contradiction].
    destruct (Nat.eqb_spec a root_cpuacct) as [|_]; [contradiction|].
    destruct (stats_vals_sums nr_cpu_ids cpu_possible mem a) as (Hu & Hs).
    destruct (stats_vals_sums nr_cpu_ids cpu_possible
                (account_along this_cpu index val (removelast path) mem) a)
      as (Hu' & Hs').
    cbv zeta in *. simpl stat_nr.
    rewrite <- (u64_add_l (stat_vals mem a 0%nat)), <- (u64_add_l (stat_vals mem a 1%nat)).
    rewrite Hu', Hs', Hu, Hs, !u64_add_l, Hobj.
    pose proof (possible_cpus_NoDup nr_cpu_ids cpu_possible) as Hnd.
    assert (Hk : forall cpu j,
              cpustat (account_ca this_cpu index val (mem a)) cpu j
              = if Nat.eqb cpu this_cpu
                then cpustat_add (cpustat (mem a) this_cpu) index val j
                else cpustat (mem a) cpu j).
    { intros cpu j. unfold account_ca. simpl. unfold upd.
      now destruct (Nat.eqb_spec cpu this_cpu) as [->|]. }
    split.
    + rewrite (sum_Z_replace
                 (fun cpu => cpustat (mem a) cpu CPUTIME_USER
                             + cpustat (mem a) cpu CPUTIME_NICE)
                 (fun cpu => cpustat (account_ca this_cpu index val (mem a)) cpu CPUTIME_USER
                             + cpustat (account_ca this_cpu index val (mem a)) cpu CPUTIME_NICE)
                 cpus this_cpu Hnd Hcpu).
      * rewrite !Hk, Nat.eqb_refl. unfold cpustat_add.
        destruct index; simpl;
          first [ f_equal; lia
                | match goal with
                  | |- context [u64 (?k + val)] => apply (u64_bump _ _ k val); lia
                  end ].
      * intros cpu _ Hc. rewrite !Hk.
        destruct (Nat.eqb_spec cpu this_cpu); [contradiction | reflexivity].
    + rewrite (sum_Z_replace
                 (fun cpu => cpustat (mem a) cpu CPUTIME_SYSTEM
                             + cpustat (mem a) cpu CPUTIME_IRQ
                             + cpustat (mem a) cpu CPUTIME_SOFTIRQ)
                 (fun cpu => cpustat (account_ca this_cpu index val (mem a)) cpu CPUTIME_SYSTEM
                             + cpustat (account_ca this_cpu index val (mem a)) cpu CPUTIME_IRQ
                             + cpustat (account_ca this_cpu index val (mem a)) cpu CPUTIME_SOFTIRQ)
                 cpus this_cpu Hnd Hcpu).
      * rewrite !Hk, Nat.eqb_refl. unfold cpustat_add.
        destruct index; simpl;
          first [ f_equal; lia
                | match goal with
                  | |- context [u64 (?k + val)] => apply (u64_bump _ _ k val); lia
                  end ].
      * intros cpu _ Hc. rewrite !Hk.
        destruct (Nat.eqb_spec cpu this_cpu); [contradiction | reflexivity].
  - apply stats_show_local.
    rewrite (account_along_at mem g path this_cpu index val root_cpuacct Hpath).
    destruct (in_dec Nat.eq_dec root_cpuacct path); reflexivity.
Qed.

End StatFile.

(** X10 at work: 30000000 ns of nice time accounted for a task of group 2 on
    CPU 1 show as 3 ticks in the [user] line of group 1, and the root's file
    is as before. *)
Lemma cpuacct_account_field_in_stat_witness :
  exists mem',
    cpuacct_account_field 3 1 demo_user_task CPUTIME_NICE 30000000 demo_mem = Done mem' /\
    cpuacct_stats_show demo_nr_cpu_ids demo_cpu_possible demo_nsec_to_clock_t mem' 1
    = [("user"%string, 3); ("system"%string, 0)] /\
    cpuacct_stats_show demo_nr_cpu_ids demo_cpu_possible demo_nsec_to_clock_t
      mem' root_cpuacct
    = [("user"%string, 0); ("system"%string, 0)].
Proof.
  destruct (cpuacct_account_field_in_stat demo_nr_cpu_ids demo_cpu_possible
              demo_nsec_to_clock_t demo_mem 1%nat demo_user_task 2%nat
              [2; 1; 0]%nat CPUTIME_NICE 30000000)
    as (mem' & Hrun & Hstat & Hroot).
  - reflexivity.
  - exact demo_path.
  - simpl. auto.
  - exists mem'. split; [apply Hrun; simpl; lia|].
    destruct (Hstat 1%nat) as (Hu & Hs); [simpl; auto | discriminate |].
    split.
    + unfold cpuacct_stats_show. simpl map. simpl stat_nr in Hu, Hs.
      rewrite Hu, Hs. reflexivity.
    + rewrite Hroot. reflexivity.
Defined.

(** ** The [proc_stat] file of the root group, and without a task group *)

Section ProcStatEdges.

Variable nr_cpu_ids : nat.
Variable cpu_possible : nat -> bool.
Variable housekeeping_cpu : nat -> bool.
Variable get_idle_time : nat -> Z.
Variable get_iowait_time : nat -> Z.
Variable cputime_adjust : task_cputime -> prev_cputime -> prev_cputime * (Z * Z).

Local Abbreviation cpus := (possible_cpus nr_cpu_ids cpu_possible).
Local Abbreviation sums :=
  (proc_stats_sums nr_cpu_ids cpu_possible housekeeping_cpu get_idle_time
     get_iowait_time cputime_adjust).
(** The loop of the root branch, field by field. *)
Lemma proc_stats_root_loop (mem : cpuacct_mem) (ca : nat) (l : list nat) :
  forall acc : proc_stat_sums,
    let k := cpustat (mem ca) in
    let into (f : nat -> Z) (a0 : Z) := fold_left (fun a cpu => u64 (a + f cpu)) l a0 in
    fold_left (proc_stats_root_step get_idle_time get_iowait_time mem ca) l acc
    = {| tot_user := into (fun cpu => k cpu CPUTIME_USER) (tot_user acc);
         tot_nice := into (fun cpu => k cpu CPUTIME_NICE) (tot_nice acc);
         tot_system := into (fun cpu => k cpu CPUTIME_SYSTEM) (tot_system acc);
         tot_idle := into get_idle_time (tot_idle acc);
         tot_iowait := into get_iowait_time (tot_iowait acc);
         tot_irq := into (fun cpu => k cpu CPUTIME_IRQ) (tot_irq acc);
         tot_softirq := into (fun cpu => k cpu CPUTIME_SOFTIRQ) (tot_softirq acc);
         tot_steal :=
           into (fun cpu => cpustat (mem root_cpuacct) cpu CPUTIME_STEAL) (tot_steal acc);
         tot_guest :=
           into (fun cpu => k cpu CPUTIME_GUEST + k cpu CPUTIME_GUEST_NICE)
             (tot_guest acc);
         tot_nr_migrations :=
           into (fun cpu => nr_migrations (alistats (mem ca) cpu))
             (tot_nr_migrations acc) |}.
Proof.
  induction l as [|c l IH]; intros acc; cbv zeta.
  - now destruct acc.
  - simpl fold_left. rewrite IH. cbv zeta. simpl.
    rewrite u64_add_l, Z.add_assoc. reflexivity.
Qed.

(** X11.  For the root group the [proc_stat] file takes the other branch: it
    advances no cursor and writes nothing, it skips no CPU (the CPUs isolated
    from the scheduler domains are summed like the others), and the task
    group, the schedstat switch and the clocks play no part.  User, nice,
    system, irq, softirq, steal and guest (guest plus guest_nice) are the
    sums, modulo 2^64, of the counters of the root [cpustat] bank over all
    possible CPUs; idle and iowait are the sums of [get_idle_time] and
    [get_iowait_time]; the migration count is the sum of the root's
    counters. *)
Theorem proc_stat_of_root (en : bool) (tg : option task_group)
    (cpu_clock : nat -> Z) (mem : cpuacct_mem) :
  let k := cpustat (mem root_cpuacct) in
  let total (f : nat -> Z) := u64 (sum_Z (map f cpus)) in
  sums en tg cpu_clock mem root_cpuacct
  = (mem,
     {| tot_user := total (fun cpu => k cpu CPUTIME_USER);
        tot_nice := total (fun cpu => k cpu CPUTIME_NICE);
        tot_system := total (fun cpu => k cpu CPUTIME_SYSTEM);
        tot_idle := total get_idle_time;
        tot_iowait := total get_iowait_time;
        tot_irq := total (fun cpu => k cpu CPUTIME_IRQ);
        tot_softirq := total (fun cpu => k cpu CPUTIME_SOFTIRQ);
        tot_steal := total (fun cpu => k cpu CPUTIME_STEAL);
        tot_guest := total (fun cpu => k cpu CPUTIME_GUEST + k cpu CPUTIME_GUEST_NICE);
        tot_nr_migrations :=
          total (fun cpu => nr_migrations (alistats (mem root_cpuacct) cpu)) |}).
Proof.
  cbv zeta. unfold proc_stats_sums. simpl negb. cbv iota.
  rewrite proc_stats_root_loop. cbv zeta. simpl tot_user. simpl tot_nice.
  simpl tot_system. simpl tot_idle. simpl tot_iowait. simpl tot_irq.
  simpl tot_softirq. simpl tot_steal. simpl tot_guest. simpl tot_nr_migrations.
  rewrite !fold_u64_sum. reflexivity.
Qed.

(** X12.  For a group other than the root whose cgroup has no task group,
    every snapshot is zeroed before either reconciliation step: the
    [proc_stat] file writes nothing, reports 0 for user, nice, system, idle,
    iowait, irq, softirq, steal and guest, whatever the counters of the group
    hold, and still reports the migration count, summed over the
    housekeeping possible CPUs. *)
Theorem proc_stat_without_task_group (en : bool) (cpu_clock : nat -> Z)
    (mem : cpuacct_mem) (ca : nat) :
  ca <> root_cpuacct ->
  sums en None cpu_clock mem ca
  = (mem,
     {| tot_user := 0; tot_nice := 0; tot_system := 0; tot_idle := 0;
        tot_iowait := 0; tot_irq := 0; tot_softirq := 0; tot_steal := 0;
        tot_guest := 0;
        tot_nr_migrations :=
          u64 (sum_Z (map (fun cpu => nr_migrations (alistats (mem ca) cpu))
                        (filter housekeeping_cpu cpus))) |}).
Proof.
  intros Hne. unfold proc_stats_sums.
  destruct (Nat.eqb_spec ca root_cpuacct) as [|_]; [contradiction|]. simpl negb. cbv iota.
  unfold zero_proc_stat_sums. rewrite proc_stats_loop_no_tg.
  now rewrite fold_u64_sum.
Qed.

(** The migration count of the [proc_stat] file, for either branch. *)
Lemma proc_stat_migrations (en : bool) (tg : option task_group)
    (cpu_clock : nat -> Z) (mem : cpuacct_mem) (ca : nat) :
  tot_nr_migrations (snd (sums en tg cpu_clock mem ca))
  = u64 (sum_Z (map (fun cpu => nr_migrations (alistats (mem ca) cpu))
                  (if Nat.eqb ca root_cpuacct then cpus
                   else filter housekeeping_cpu cpus))).
Proof.
  destruct (Nat.eqb_spec ca root_cpuacct) as [->|Hne].
  - unfold proc_stats_sums. simpl negb. cbv iota. simpl snd.
    rewrite proc_stats_root_loop. cbv zeta. simpl tot_nr_migrations.
    now rewrite fold_u64_sum.
  - unfold proc_stats_sums.
    destruct (Nat.eqb_spec ca root_cpuacct) as [|_]; [contradiction|]. simpl negb. cbv iota.
    destruct (proc_stats_loop housekeeping_cpu cputime_adjust en tg cpu_clock mem ca cpus
                (possible_cpus_NoDup nr_cpu_ids cpu_possible)
                mem zero_proc_stat_sums eq_refl eq_refl (fun _ _ => eq_refl))
      as (Hsnd & _).
    rewrite Hsnd.
    pose proof (add_usage_result_sums
                  (fun cpu => snd (cpu_snapshot cputime_adjust en tg cpu_clock mem ca cpu))
                  (fun cpu => nr_migrations (alistats (mem ca) cpu))
                  (filter housekeeping_cpu cpus) zero_proc_stat_sums) as Hsums.
    cbv beta zeta in Hsums.
    destruct Hsums as (_ & _ & _ & _ & _ & _ & _ & _ & _ & Hmig).
    rewrite Hmig. simpl tot_nr_migrations. now rewrite fold_u64_sum.
Qed.

(** X13.  [task_ca_increase_nr_migrations] dereferences the task's group
    without a check, so a task without a group makes it dereference NULL.
    Otherwise it adds one to the counter of that group on the CPU it runs on,
    and to no other: unlike a charge, a migration is not passed on to the
    ancestors.  The count the [proc_stat] file of the task's group reports
    grows by one, modulo 2^64, when that CPU is a housekeeping CPU or the
    group is the root, and is unchanged when the CPU is isolated; the count
    reported for every other group, the parent among them, is unchanged. *)
Theorem migration_counted_in_own_group (this_cpu : nat) (tsk : task_struct)
    (mem : cpuacct_mem) (en : bool) (tg : option task_group) (cpu_clock : nat -> Z) :
  In this_cpu cpus ->
  let reported m ca := tot_nr_migrations (snd (sums en tg cpu_clock m ca)) in
  match task_ca tsk with
  | None => task_ca_increase_nr_migrations this_cpu tsk mem = NullDeref
  | Some g =>
      exists mem',
        task_ca_increase_nr_migrations this_cpu tsk mem = Done mem' /\
        nr_migrations (alistats (mem' g) this_cpu)
        = u64 (nr_migrations (alistats (mem g) this_cpu) + 1) /\
        reported mem' g
        = (if Nat.eqb g root_cpuacct || housekeeping_cpu this_cpu
           then u64 (reported mem g + 1)
           else reported mem g) /\
        (forall ca, ca <> g -> mem' ca = mem ca /\ reported mem' ca = reported mem ca)
  end.
Proof.
  intros Hcpu reported. unfold task_ca_increase_nr_migrations.
  destruct (task_ca tsk) as [g|]; [|reflexivity].
  eexists. split; [reflexivity|].
  set (mem' := upd mem g _).
  assert (Hali : forall cpu,
            nr_migrations (alistats (mem' g) cpu)
            = if Nat.eqb cpu this_cpu
              then u64 (nr_migrations (alistats (mem g) this_cpu) + 1)
              else nr_migrations (alistats (mem g) cpu)).
  { intros cpu. subst mem'. rewrite upd_same. simpl. unfold upd.
    now destruct (Nat.eqb_spec cpu this_cpu) as [->|]. }
  split; [|split].
  - now rewrite Hali, Nat.eqb_refl.
  - subst reported. cbv beta. rewrite !proc_stat_migrations.
    set (visited := if Nat.eqb g root_cpuacct then cpus else filter housekeeping_cpu cpus).
    assert (Hnd : NoDup visited).
    { subst visited. destruct (Nat.eqb g root_cpuacct).
      - apply possible_cpus_NoDup.
      - apply NoDup_filter, possible_cpus_NoDup. }
    assert (Hin : In this_cpu visited
                  <-> Nat.eqb g root_cpuacct || housekeeping_cpu this_cpu = true).
    { subst visited. destruct (Nat.eqb g root_cpuacct); simpl; [tauto|].
      rewrite filter_In. tauto. }
    destruct (Nat.eqb g root_cpuacct || housekeeping_cpu this_cpu).
    + rewrite (sum_Z_replace
                 (fun cpu => nr_migrations (alistats (mem g) cpu))
                 (fun cpu => nr_migrations (alistats (mem' g) cpu))
                 visited this_cpu Hnd).
      * rewrite Hali, Nat.eqb_refl, u64_add_l. apply u64_replace_exact.
      * now apply Hin.
      * intros cpu _ Hne. rewrite Hali.
        destruct (Nat.eqb_spec cpu this_cpu); [contradiction | reflexivity].
    + f_equal. f_equal. apply map_ext_in. intros cpu Hc. rewrite Hali.
      destruct (Nat.eqb_spec cpu this_cpu) as [->|]; [|reflexivity].
      apply Hin in Hc. discriminate.
  - intros ca Hne.
    assert (Hsame : mem' ca = mem ca) by (subst mem'; now apply upd_other).
    split; [exact Hsame|].
    subst reported. cbv beta. rewrite !proc_stat_migrations, Hsame. reflexivity.
Qed.

(** A snapshot keeps the accumulators, the [cpustat] counters, the migration
    counters and the parent links of every group. *)
Lemma get_usage_result_keeps (en : bool) (m : cpuacct_mem) (ca cpu : nat)
    (tg : option task_group) (clock : Z) (g : nat) :
  let m' := fst (__cpuacct_get_usage_result cputime_adjust en m ca cpu tg clock) in
  css_parent (m' g) = css_parent (m g) /\
  alistats (m' g) = alistats (m g) /\
  cpustat (m' g) = cpustat (m g) /\
  (forall cpu' j, usages (cpuusage (m' g) cpu') j = usages (cpuusage (m g) cpu') j) /\
  (g <> ca -> m' g = m g).
Proof.
  destruct tg as [tg|]; [|simpl; repeat split; reflexivity].
  cbv zeta. rewrite get_usage_result_mem.
  destruct (Nat.eqb_spec g ca) as [->|Hne]; [|repeat split; reflexivity].
  split; [reflexivity|]. split; [reflexivity|]. split; [reflexivity|]. split.
  - intros cpu' j. simpl. unfold upd.
    now destruct (Nat.eqb_spec cpu' cpu) as [->|].
  - intros Hne. contradiction.
Qed.

Lemma proc_stats_loop_keeps (en : bool) (tg : option task_group)
    (cpu_clock : nat -> Z) (ca : nat) (l : list nat) :
  forall (m : cpuacct_mem) (acc : proc_stat_sums) (g : nat),
    let m' :=
      fst (fold_left (proc_stats_step housekeeping_cpu cputime_adjust en tg cpu_clock ca)
             l (m, acc)) in
    css_parent (m' g) = css_parent (m g) /\
    alistats (m' g) = alistats (m g) /\
    cpustat (m' g) = cpustat (m g) /\
    (forall cpu' j, usages (cpuusage (m' g) cpu') j = usages (cpuusage (m g) cpu') j) /\
    (g <> ca -> m' g = m g).
Proof.
  induction l as [|c l IH]; intros m acc g; cbv zeta.
  - simpl. repeat split; reflexivity.
  - simpl fold_left. rewrite proc_stats_step_eq.
    destruct (housekeeping_cpu c); [|apply IH].
    cbv zeta.
    destruct (IH (fst (__cpuacct_get_usage_result cputime_adjust en m ca c tg (cpu_clock c)))
                (add_usage_result acc
                   (snd (__cpuacct_get_usage_result cputime_adjust en m ca c tg (cpu_clock c)))
                   (nr_migrations
                      (alistats
                         (fst (__cpuacct_get_usage_result cputime_adjust en m ca c tg
                                 (cpu_clock c)) ca) c)))
                g) as (Hp & Ha & Hs & Hu & Hg).
    destruct (get_usage_result_keeps en m ca c tg (cpu_clock c) g)
      as (Hp1 & Ha1 & Hs1 & Hu1 & Hg1).
    split; [congruence|]. split; [congruence|]. split; [congruence|]. split.
    + intros cpu' j. now rewrite Hu, Hu1.
    + intros Hne. now rewrite Hg, Hg1.
Qed.

Variable nsec_to_clock_t : Z -> Z.

Local Abbreviation proc_stat_file :=
  (cpuacct_proc_stats_show nr_cpu_ids cpu_possible housekeeping_cpu
     nsec_to_clock_t get_idle_time get_iowait_time cputime_adjust).

(** X14.  Reading the [proc_stat] file of a group writes reconciliation
    cursors of that group and nothing else: afterwards every usage
    accumulator, every usage file and the [stat] file of every group report
    what they reported before, the parent links, the migration counters and
    the [cpustat] counters are what they were, and every other group is
    untouched. *)
Theorem proc_stat_read_keeps_files (en : bool) (tg : option task_group)
    (cpu_clock : nat -> Z) (mem : cpuacct_mem) (ca : nat) :
  let mem' := fst (proc_stat_file en tg cpu_clock mem ca) in
  (forall g cpu i,
      cpuacct_cpuusage_read mem' g cpu i = cpuacct_cpuusage_read mem g cpu i) /\
  (forall g i,
      __cpuusage_read nr_cpu_ids cpu_possible mem' g i
      = __cpuusage_read nr_cpu_ids cpu_possible mem g i) /\
  (forall g,
      cpuacct_stats_show nr_cpu_ids cpu_possible nsec_to_clock_t mem' g
      = cpuacct_stats_show nr_cpu_ids cpu_possible nsec_to_clock_t mem g) /\
  (forall g,
      css_parent (mem' g) = css_parent (mem g) /\
      alistats (mem' g) = alistats (mem g) /\
      cpustat (mem' g) = cpustat (mem g)) /\
  (forall g, g <> ca -> mem' g = mem g).
Proof.
  intros mem'.
  assert (Hkeeps : forall g,
            css_parent (mem' g) = css_parent (mem g) /\
            alistats (mem' g) = alistats (mem g) /\
            cpustat (mem' g) = cpustat (mem g) /\
            (forall cpu' j,
                usages (cpuusage (mem' g) cpu') j = usages (cpuusage (mem g) cpu') j) /\
            (g <> ca -> mem' g = mem g)).
  { intros g. subst mem'. unfold cpuacct_proc_stats_show.
    destruct (sums en tg cpu_clock mem ca) as [m t] eqn:Hsums. simpl fst.
    assert (Hm : m = fst (sums en tg cpu_clock mem ca)) by now rewrite Hsums.
    rewrite Hm. unfold proc_stats_sums.
    destruct (negb (Nat.eqb ca root_cpuacct)).
    - apply proc_stats_loop_keeps.
    - simpl. repeat split; reflexivity. }
  split; [|split; [|split; [|split]]].
  - intros g cpu i. apply cpuusage_read_local. intros j.
    destruct (Hkeeps g) as (_ & _ & _ & Hu & _). apply Hu.
  - intros g i. apply usage_total_local. intros cpu j.
    destruct (Hkeeps g) as (_ & _ & _ & Hu & _). apply Hu.
  - intros g. apply stats_show_local. destruct (Hkeeps g) as (_ & _ & Hs & _).
    exact Hs.
  - intros g. destruct (Hkeeps g) as (Hp & Ha & Hs & _). auto.
  - intros g Hne. destruct (Hkeeps g) as (_ & _ & _ & _ & Hg). now apply Hg.
Qed.

End ProcStatEdges.

(** X12 at work: group 1, with three migrations on CPU 0 and four on the
    isolated CPU 1, read while its cgroup has no task group. *)
Lemma proc_stat_without_task_group_witness :
  snd (proc_stats_sums demo_nr_cpu_ids demo_cpu_possible demo_housekeeping_cpu
         (fun _ => 0) (fun _ => 0) TimeReconciler.adjust true None (fun _ => 100)
         demo_mem_migrated 1)
  = {| tot_user := 0; tot_nice := 0; tot_system := 0; tot_idle := 0;
       tot_iowait := 0; tot_irq := 0; tot_softirq := 0; tot_steal := 0;
       tot_guest := 0; tot_nr_migrations := 3 |}.
Proof.
  rewrite (proc_stat_without_task_group demo_nr_cpu_ids demo_cpu_possible
             demo_housekeeping_cpu (fun _ => 0) (fun _ => 0) TimeReconciler.adjust
             true (fun _ => 100) demo_mem_migrated 1%nat) by discriminate.
  reflexivity.
Defined.

(** X13 at work: a task of group 1 migrates on CPU 0; the file of group 1
    reports one migration and the file of the root, its parent, none. *)
Lemma migration_counted_in_own_group_witness :
  exists mem',
    task_ca_increase_nr_migrations 0 demo_task1 demo_mem = Done mem' /\
    tot_nr_migrations
      (snd (proc_stats_sums demo_nr_cpu_ids demo_cpu_possible demo_housekeeping_cpu
              (fun _ => 0) (fun _ => 0) TimeReconciler.adjust true
              (Some (demo_tg demo_se)) (fun _ => 100) mem' 1)) = 1 /\
    tot_nr_migrations
      (snd (proc_stats_sums demo_nr_cpu_ids demo_cpu_possible demo_housekeeping_cpu
              (fun _ => 0) (fun _ => 0) TimeReconciler.adjust true
              (Some (demo_tg demo_se)) (fun _ => 100) mem' root_cpuacct)) = 0.
Proof.
  pose proof (migration_counted_in_own_group demo_nr_cpu_ids demo_cpu_possible
                demo_housekeeping_cpu (fun _ => 0) (fun _ => 0) TimeReconciler.adjust
                0%nat demo_task1 demo_mem true (Some (demo_tg demo_se)) (fun _ => 100))
    as H.
  cbv zeta in H. simpl task_ca in H. cbv iota in H.
  destruct H as (mem' & Hrun & _ & Hown & Hother); [simpl; auto|].
  exists mem'. split; [exact Hrun|]. split.
  - rewrite Hown. reflexivity.
  - destruct (Hother root_cpuacct) as (_ & Hroot); [discriminate|].
    rewrite Hroot. reflexivity.
Defined.

(** ** Windows over time *)

Section WindowsOverTime.

Variable cputime_adjust : task_cputime -> prev_cputime -> prev_cputime * (Z * Z).

Local Abbreviation get_usage_result := (__cpuacct_get_usage_result cputime_adjust).

(** X15.  The writer and the reader of the idle window agree.  Let the idle
    window of an entity be opened by [cgroup_idle_start] at [t0] and closed
    by [cgroup_idle_end] at a later [t1], with [t0] not zero, the iowait
    window being closed whenever no task of the entity waits for I/O.  Then
    the idle and the iowait values a snapshot reports at any time after the
    closing are those a snapshot taken at [t1], with the window still open,
    reported: closing a window freezes what the reader saw. *)
Theorem idle_window_closed_keeps_reading (mem : cpuacct_mem) (ca cpu : nat)
    (tg : task_group) (e : sched_entity) (t0 t1 t2 : Z) :
  0 < t0 < t1 ->
  cg_nr_iowait e <> 0 \/ cg_iowait_start e = 0 ->
  let opened := cgroup_idle_start true t0 e in
  let closed := cgroup_idle_end true t1 opened in
  let with_se x := mk_task_group (upd (se tg) cpu (Some x)) in
  let r_open := snd (get_usage_result true mem ca cpu (Some (with_se opened)) t1) in
  let r_closed := snd (get_usage_result true mem ca cpu (Some (with_se closed)) t2) in
  idle r_closed = idle r_open /\ iowait r_closed = iowait r_open.
Proof.
  intros Ht Hio opened closed with_se r_open r_closed.
  pose proof (get_usage_result_windows cputime_adjust true mem ca cpu
                (with_se opened) t1) as Wo.
  pose proof (get_usage_result_windows cputime_adjust true mem ca cpu
                (with_se closed) t2) as Wc.
  cbv zeta in Wo, Wc.
  assert (Hse : forall x, se (with_se x) cpu = Some x) by (intros x; apply upd_same).
  rewrite Hse in Wo, Wc.
  destruct Wo as (Wo_io & Wo_idle & _). destruct Wc as (Wc_io & Wc_idle & _).
  fold r_open in Wo_io, Wo_idle. fold r_closed in Wc_io, Wc_idle.
  assert (Hidle : idle_sum_at closed t2 = idle_sum_at opened t1).
  { unfold idle_sum_at, closed, opened, cgroup_idle_end, cgroup_idle_start. simpl.
    destruct (Z.eqb_spec t0 0); [lia|]. destruct (Z.leb_spec t1 t0); [lia|].
    simpl. apply u64_add_r. }
  assert (Hiowait : iowait_sum_at closed t2 = iowait_sum_at opened t1).
  { unfold iowait_sum_at, closed, opened, cgroup_idle_end, cgroup_idle_start. simpl.
    destruct (Z.eqb_spec (cg_nr_iowait e) 0) as [Hnr|Hnr]; simpl.
    - destruct Hio as [Hio|Hio]; [contradiction|]. rewrite Hio. reflexivity.
    - destruct (Z.eqb_spec t0 0); [lia|]. apply u64_add_r. }
  split.
  - now rewrite Wc_idle, Wo_idle, Hidle, Hiowait.
  - now rewrite Wc_io, Wo_io, Hiowait.
Qed.

(** X16.  The times of a snapshot add up.  With schedstats enabled and an
    entity on the CPU, the reported steal, idle and iowait times, the raw
    execution time of the entity and its ineffective time at the clock of the
    snapshot add up, modulo 2^64, to the time elapsed since the entity was
    created, unless the recorded times without steal already exceed the
    elapsed time, in which case steal is zero and the sum is that of the
    recorded times. *)
Theorem snapshot_times_add_up (mem : cpuacct_mem) (ca cpu : nat)
    (tg : task_group) (e : sched_entity) (clock : Z) :
  se tg cpu = Some e ->
  let r := snd (get_usage_result true mem ca cpu (Some tg) clock) in
  let recorded := idle r + iowait r + sum_exec_raw e + ineffective_sum_at e clock in
  u64 (steal r + recorded) = Z.max (u64 (clock - cg_init_time e)) (u64 recorded).
Proof.
  intros Hse r recorded.
  pose proof (get_usage_result_windows cputime_adjust true mem ca cpu tg clock) as W.
  cbv zeta in W. rewrite Hse in W. fold r in W.
  destruct W as (Wio & Widle & Wsteal).
  assert (Hrec : u64 recorded
                 = u64 (idle_sum_at e clock + sum_exec_raw e + ineffective_sum_at e clock)).
  { subst recorded. rewrite Widle, Wio.
    rewrite <- !Z.add_assoc, u64_add_l. f_equal. lia. }
  rewrite <- Hrec in Wsteal.
  pose proof (u64_range (clock - cg_init_time e)) as HE.
  pose proof (u64_range recorded) as HC.
  rewrite <- u64_add_r, Wsteal.
  destruct (Z.ltb_spec (u64 recorded) (u64 (clock - cg_init_time e))) as [Hlt|Hge].
  - replace (u64 (clock - cg_init_time e) - u64 recorded + u64 recorded)
      with (u64 (clock - cg_init_time e)) by lia.
    rewrite u64_idem. lia.
  - simpl. rewrite u64_idem. lia.
Qed.

(** X17.  Time spent outside the cpuset is not reported as steal.  After the
    entity of a CPU has gone through the [deleted] loop of
    [cpuacct_cpuset_changed] at clock [t0], its idle window is closed and its
    ineffective window is open, so the complement grows with the clock as the
    elapsed time does: as long as no 64-bit value wraps, two snapshots taken
    at [t] and at a later [t'] report the same steal time. *)
Theorem steal_frozen_after_cpu_removed (mem : cpuacct_mem) (ca cpu : nat)
    (tg : task_group) (e0 : sched_entity) (t0 t t' : Z) :
  let e := cpuset_cpu_deleted t0 e0 in
  let with_se := mk_task_group (upd (se tg) cpu (Some e)) in
  0 < t0 <= t ->
  t <= t' <= U64_MAX ->
  0 <= cg_init_time e0 <= t ->
  0 <= sum_exec_raw e0 ->
  0 <= cg_ineffective_sum e0 ->
  cg_idle_sum e + sum_exec_raw e0 + cg_ineffective_sum e0 + (t' - t0) <= U64_MAX ->
  steal (snd (get_usage_result true mem ca cpu (Some with_se) t'))
  = steal (snd (get_usage_result true mem ca cpu (Some with_se) t)).
Proof.
  intros e with_se Ht0 Ht Hinit Hexec Hineff Hfit.
  pose proof (get_usage_result_windows cputime_adjust true mem ca cpu with_se t) as W.
  pose proof (get_usage_result_windows cputime_adjust true mem ca cpu with_se t') as W'.
  cbv zeta in W, W'.
  assert (Hse : se with_se cpu = Some e) by apply upd_same.
  rewrite Hse in W, W'.
  destruct W as (_ & _ & ->). destruct W' as (_ & _ & ->).
  assert (Hidle : forall c, idle_sum_at e c = cg_idle_sum e) by reflexivity.
  assert (Hpos : 0 <= cg_idle_sum e).
  { change (cg_idle_sum e)
      with (u64 (cg_idle_sum e0 + u64 (t0 - cg_idle_start e0))).
    apply u64_range. }
  assert (Hexec' : sum_exec_raw e = sum_exec_raw e0) by reflexivity.
  assert (Hinit' : cg_init_time e = cg_init_time e0) by reflexivity.
  assert (HF : forall c, t0 <= c <= t' ->
            ineffective_sum_at e c = cg_ineffective_sum e0 + (c - t0)).
  { intros c Hc. unfold ineffective_sum_at.
    change (cg_ineffective_start e) with t0.
    change (cg_ineffective_sum e) with (cg_ineffective_sum e0).
    destruct (Z.eqb_spec t0 0); [lia|].
    apply u64_small. unfold is_u64. lia. }
  rewrite !Hidle, !HF, Hexec', Hinit' by lia.
  unfold U64_MAX in *.
  rewrite !u64_small by (unfold is_u64, U64_MAX; lia).
  destruct (Z.ltb_spec (cg_idle_sum e + sum_exec_raw e0 + (cg_ineffective_sum e0 + (t' - t0)))
              (t' - cg_init_time e0)),
           (Z.ltb_spec (cg_idle_sum e + sum_exec_raw e0 + (cg_ineffective_sum e0 + (t - t0)))
              (t - cg_init_time e0)); lia.
Qed.

End WindowsOverTime.

(** X15 at work: the entity idle since 40 with a task in iowait has its
    windows opened at 50 and closed at 80; read at 300, it reports the idle
    and iowait values of a read at 80. *)
Lemma idle_window_closed_keeps_reading_witness :
  let closed := cgroup_idle_end true 80 (cgroup_idle_start true 50 demo_se_waiting) in
  let r :=
    snd (__cpuacct_get_usage_result TimeReconciler.adjust true demo_mem 1 0
           (Some (mk_task_group (upd (se (demo_tg demo_se)) 0 (Some closed)))) 300) in
  idle r = 15 /\ iowait r = 35.
Proof.
  intros closed r.
  destruct (idle_window_closed_keeps_reading TimeReconciler.adjust demo_mem 1 0
              (demo_tg demo_se) demo_se_waiting 50 80 300) as (Hidle & Hiowait).
  - lia.
  - left. discriminate.
  - split.
    + subst r closed. rewrite Hidle. reflexivity.
    + subst r closed. rewrite Hiowait. reflexivity.
Defined.

(** X16 at work: the entity created at 10, read at 100: 40 of steal, 20 of
    idle, 30 of execution make up the 90 elapsed. *)
Lemma snapshot_times_add_up_witness :
  let r :=
    snd (__cpuacct_get_usage_result TimeReconciler.adjust true demo_mem 1 0
           (Some (demo_tg demo_se)) 100) in
  u64 (steal r + (idle r + iowait r + sum_exec_raw demo_se
                  + ineffective_sum_at demo_se 100)) = 90.
Proof.
  intros r.
  pose proof (snapshot_times_add_up TimeReconciler.adjust demo_mem 1 0
                (demo_tg demo_se) demo_se 100 eq_refl) as H.
  cbv zeta in H. fold r in H. rewrite H. reflexivity.
Defined.

(** X17 at work: the CPU of the light entity leaves the cpuset at 50; the
    steal time read at 200 is the one read at 100. *)
Lemma steal_frozen_after_cpu_removed_witness :
  let tg := mk_task_group (upd (se (demo_tg demo_se)) 0
                             (Some (cpuset_cpu_deleted 50 demo_se_light))) in
  steal (snd (__cpuacct_get_usage_result TimeReconciler.adjust true demo_mem 1 0
                (Some tg) 200)) = 15 /\
  steal (snd (__cpuacct_get_usage_result TimeReconciler.adjust true demo_mem 1 0
                (Some tg) 100)) = 15.
Proof.
  intros tg.
  pose proof (steal_frozen_after_cpu_removed TimeReconciler.adjust demo_mem 1 0
                (demo_tg demo_se) demo_se_light 50 100 200) as H.
  cbv zeta in H. fold tg in H.
  assert (Hlater : steal (snd (__cpuacct_get_usage_result TimeReconciler.adjust true
                                 demo_mem 1 0 (Some tg) 100)) = 15) by reflexivity.
  split; [|exact Hlater].
  rewrite H; [exact Hlater | | | | | |]; unfold U64_MAX; simpl; lia.
Defined.

(** ** CPUs entering and leaving the cpuset *)

Lemma in_mask_filter (n : nat) (m : nat -> bool) (cpu : nat) :
  In cpu (filter m (seq 0 n)) <-> in_mask n (Some m) cpu = true.
Proof.
  simpl. rewrite filter_In, in_seq, andb_true_iff, Nat.ltb_lt. intuition lia.
Qed.

(** A loop over entities that are all there rewrites each of them once. *)
Lemma for_each_se_done (body : nat -> sched_entity -> sched_entity) (l : list nat) :
  NoDup l ->
  forall tg : task_group,
    (forall cpu, In cpu l -> se tg cpu <> None) ->
    exists tg',
      for_each_se body l tg = Done tg' /\
      (forall cpu, In cpu l -> se tg' cpu = option_map (body cpu) (se tg cpu)) /\
      (forall cpu, ~ In cpu l -> se tg' cpu = se tg cpu).
Proof.
  induction 1 as [|c l Hnotin Hnd IH]; intros tg Hall.
  - exists tg. simpl. split; [reflexivity|]. split; [intros cpu []|reflexivity].
  - simpl. destruct (se tg c) as [e|] eqn:Hc.
    2:{ exfalso. apply (Hall c); [now left | assumption]. }
    destruct (IH (mk_task_group (upd (se tg) c (Some (body c e)))))
      as (tg' & Hrun & Hin & Hout).
    { intros cpu Hcpu. simpl. rewrite upd_other by (intros ->; contradiction).
      apply Hall. now right. }
    exists tg'. split; [exact Hrun|]. split.
    + intros cpu [<- | Hcpu].
      * rewrite Hout by assumption. simpl. now rewrite upd_same, Hc.
      * rewrite Hin by assumption. simpl.
        now rewrite upd_other by (intros ->; contradiction).
    + intros cpu Hcpu. rewrite Hout by (intros H; apply Hcpu; now right).
      simpl. apply upd_other. intros ->. apply Hcpu. now left.
Qed.

(** A loop that meets a CPU without an entity dereferences NULL. *)
Lemma for_each_se_null (body : nat -> sched_entity -> sched_entity) (l : list nat) :
  forall (tg : task_group) (cpu : nat),
    In cpu l -> se tg cpu = None -> for_each_se body l tg = NullDeref.
Proof.
  induction l as [|c l IH]; intros tg cpu Hin Hnone; [destruct Hin|].
  simpl. destruct (se tg c) as [e|] eqn:Hc; [|reflexivity].
  destruct Hin as [-> | Hin]; [congruence|].
  apply (IH _ cpu Hin). simpl. rewrite upd_other; [assumption|].
  intros ->. congruence.
Qed.

(** A loop that returns has left the missing entities missing. *)
Lemma for_each_se_keeps_none (body : nat -> sched_entity -> sched_entity)
    (l : list nat) :
  forall (tg : task_group),
    match for_each_se body l tg with
    | Done tg' => forall cpu, se tg cpu = None -> se tg' cpu = None
    | NullDeref => True
    | OutOfFuel => False
    end.
Proof.
  induction l as [|c l IH]; intros tg; simpl; [auto|].
  destruct (se tg c) as [e|] eqn:Hc; [|exact I].
  specialize (IH (mk_task_group (upd (se tg) c (Some (body c e))))).
  destruct (for_each_se body l _) as [tg'| |]; try exact IH.
  intros cpu Hnone. apply IH. simpl. rewrite upd_other; [assumption|].
  intros ->. congruence.
Qed.

(** X18.  What [cpuacct_cpuset_changed] does, schedstats being enabled, to a
    task group whose entities exist on every CPU of the two masks.  It
    returns, and the entity of each CPU has gone through the body of the
    [added] loop if the CPU is in [added], then through the body of the
    [deleted] loop if it is in [deleted]: a CPU in both masks ends up marked
    as removed.  The entities of all other CPUs, those at or above
    [nr_cpu_ids] among them, are untouched, and a NULL mask pointer stands
    for no CPU at all. *)
Theorem cpuacct_cpuset_changed_effect (nr_cpu_ids : nat) (rq_clock : nat -> Z)
    (tg : task_group) (deleted added : option (nat -> bool)) :
  (forall cpu,
      in_mask nr_cpu_ids added cpu || in_mask nr_cpu_ids deleted cpu = true ->
      se tg cpu <> None) ->
  exists tg',
    cpuacct_cpuset_changed nr_cpu_ids true rq_clock (Some tg) deleted added
    = Done (Some tg') /\
    forall cpu,
      se tg' cpu
      = option_map
          (fun e =>
             let e :=
               if in_mask nr_cpu_ids added cpu
               then cpuset_cpu_added (rq_clock cpu) e else e in
             if in_mask nr_cpu_ids deleted cpu
             then cpuset_cpu_deleted (rq_clock cpu) e else e)
          (se tg cpu).
Proof.
  intros Hall. unfold cpuacct_cpuset_changed. simpl negb. cbv iota.
  assert (Hstep : forall (body : nat -> sched_entity -> sched_entity)
                         (mask : option (nat -> bool)) (tg0 : task_group),
            (forall cpu, in_mask nr_cpu_ids mask cpu = true -> se tg0 cpu <> None) ->
            exists tg1,
              match mask with
              | Some m => for_each_se body (filter m (seq 0 nr_cpu_ids)) tg0
              | None => Done tg0
              end = Done tg1 /\
              forall cpu,
                se tg1 cpu
                = option_map (fun e => if in_mask nr_cpu_ids mask cpu then body cpu e else e)
                    (se tg0 cpu)).
  { intros body [m|] tg0 Hthere.
    - destruct (for_each_se_done body (filter m (seq 0 nr_cpu_ids))
                  (NoDup_filter _ (seq_NoDup _ _)) tg0) as (tg1 & Hrun & Hin & Hout).
      { intros cpu Hcpu. apply Hthere. now apply in_mask_filter. }
      exists tg1. split; [exact Hrun|]. intros cpu.
      destruct (in_mask nr_cpu_ids (Some m) cpu) eqn:Hm.
      + apply Hin. now apply in_mask_filter.
      + rewrite Hout.
        * now destruct (se tg0 cpu).
        * intros Hcpu. apply in_mask_filter in Hcpu. congruence.
    - exists tg0. split; [reflexivity|]. intros cpu. simpl. now destruct (se tg0 cpu). }
  destruct (Hstep (fun cpu => cpuset_cpu_added (rq_clock cpu)) added tg)
    as (tg1 & Hrun1 & Hse1).
  { intros cpu Hcpu. apply Hall. now rewrite Hcpu. }
  destruct (Hstep (fun cpu => cpuset_cpu_deleted (rq_clock cpu)) deleted tg1)
    as (tg2 & Hrun2 & Hse2).
  { intros cpu Hcpu. rewrite Hse1.
    assert (Hthere : se tg cpu <> None) by (apply Hall; rewrite Hcpu; apply orb_true_r).
    destruct (se tg cpu); [discriminate | contradiction]. }
  exists tg2. split.
  - rewrite Hrun1. destruct deleted as [m|].
    + now rewrite Hrun2.
    + injection Hrun2 as ->. reflexivity.
  - intros cpu. rewrite Hse2, Hse1. now destruct (se tg cpu).
Qed.

(** X19.  [cpuacct_cpuset_changed] takes the entity of every CPU of its masks
    without testing it: with schedstats enabled, a CPU of either mask for
    which the task group has no entity makes it dereference NULL. *)
Theorem cpuacct_cpuset_changed_null_entity (nr_cpu_ids : nat)
    (rq_clock : nat -> Z) (tg : task_group) (deleted added : option (nat -> bool))
    (cpu : nat) :
  in_mask nr_cpu_ids added cpu || in_mask nr_cpu_ids deleted cpu = true ->
  se tg cpu = None ->
  cpuacct_cpuset_changed nr_cpu_ids true rq_clock (Some tg) deleted added = NullDeref.
Proof.
  intros Hmask Hnone. unfold cpuacct_cpuset_changed. simpl negb. cbv iota.
  destruct added as [ma|].
  - destruct (in_mask nr_cpu_ids (Some ma) cpu) eqn:Ha.
    + rewrite (for_each_se_null _ _ tg cpu); [reflexivity | | assumption].
      now apply in_mask_filter.
    + simpl orb in Hmask.
      pose proof (for_each_se_keeps_none
                    (fun c => cpuset_cpu_added (rq_clock c))
                    (filter ma (seq 0 nr_cpu_ids)) tg) as Hkeep.
      destruct (for_each_se _ (filter ma (seq 0 nr_cpu_ids)) tg) as [tg1| |];
        [|reflexivity|contradiction].
      destruct deleted as [md|]; [|discriminate].
      rewrite (for_each_se_null _ _ tg1 cpu); [reflexivity | | now apply Hkeep].
      now apply in_mask_filter.
  - simpl in Hmask. destruct deleted as [md|]; [|discriminate].
    rewrite (for_each_se_null _ _ tg cpu); [reflexivity | | assumption].
    now apply in_mask_filter.
Qed.

(** X20.  A CPU taken out of the cpuset and put back.  When the CPUs of a
    mask are removed at the clocks [clock0] and added again at the clocks
    [clock1], each in a call of [cpuacct_cpuset_changed] with the other mask
    NULL, the entity of each such CPU has its ineffective time grown by
    [clock1 - clock0] (modulo 2^64) and its ineffective window closed; its
    idle window, closed at the removal, with [clock0 - cg_idle_start] added
    to the idle time whether or not the window was open, is open again from
    [clock1]; creation time and execution time are untouched, as are the
    entities of the CPUs outside the mask. *)
Theorem cpu_removed_then_added (nr_cpu_ids : nat) (clock0 clock1 : nat -> Z)
    (tg : task_group) (mask : nat -> bool) :
  (forall cpu, in_mask nr_cpu_ids (Some mask) cpu = true -> se tg cpu <> None) ->
  exists tg1 tg2,
    cpuacct_cpuset_changed nr_cpu_ids true clock0 (Some tg) (Some mask) None
    = Done (Some tg1) /\
    cpuacct_cpuset_changed nr_cpu_ids true clock1 (Some tg1) None (Some mask)
    = Done (Some tg2) /\
    (forall cpu, in_mask nr_cpu_ids (Some mask) cpu = false -> se tg2 cpu = se tg cpu) /\
    (forall cpu e,
        in_mask nr_cpu_ids (Some mask) cpu = true ->
        se tg cpu = Some e ->
        exists e2,
          se tg2 cpu = Some e2 /\
          cg_ineffective_sum e2
          = u64 (cg_ineffective_sum e + (clock1 cpu - clock0 cpu)) /\
          cg_ineffective_start e2 = 0 /\
          cg_idle_start e2 = clock1 cpu /\
          cg_idle_sum e2 = u64 (cg_idle_sum e + (clock0 cpu - cg_idle_start e)) /\
          cg_init_time e2 = cg_init_time e /\
          sum_exec_raw e2 = sum_exec_raw e).
Proof.
  intros Hall.
  pose proof (NoDup_filter mask (seq_NoDup nr_cpu_ids 0)) as Hnd.
  destruct (for_each_se_done (fun c => cpuset_cpu_deleted (clock0 c))
              (filter mask (seq 0 nr_cpu_ids)) Hnd tg)
    as (tg1 & Hrun1 & Hin1 & Hout1).
  { intros cpu Hcpu. apply Hall. now apply in_mask_filter. }
  destruct (for_each_se_done (fun c => cpuset_cpu_added (clock1 c))
              (filter mask (seq 0 nr_cpu_ids)) Hnd tg1)
    as (tg2 & Hrun2 & Hin2 & Hout2).
  { intros cpu Hcpu. rewrite Hin1 by assumption.
    assert (Hthere : se tg cpu <> None) by (apply Hall; now apply in_mask_filter).
    destruct (se tg cpu); [discriminate | contradiction]. }
  exists tg1, tg2.
  split; [|split; [|split]].
  - unfold cpuacct_cpuset_changed. simpl negb. cbv iota. now rewrite Hrun1.
  - unfold cpuacct_cpuset_changed. simpl negb. cbv iota. now rewrite Hrun2.
  - intros cpu Hcpu.
    assert (Hnot : ~ In cpu (filter mask (seq 0 nr_cpu_ids))).
    { intros Hin. apply in_mask_filter in Hin. congruence. }
    now rewrite Hout2, Hout1.
  - intros cpu e Hcpu He. apply in_mask_filter in Hcpu.
    rewrite Hin2, Hin1, He by assumption. simpl option_map.
    eexists. split; [reflexivity|].
    unfold cpuset_cpu_added, cpuset_cpu_deleted, cgroup_idle_start, cgroup_idle_end.
    simpl. repeat split.
    + now rewrite u64_add_r.
    + now rewrite u64_add_r.
Qed.

(** X18 at work: on the two-CPU machine CPU 0 is added and CPU 1 is removed
    at clock 100. *)
Lemma cpuacct_cpuset_changed_effect_witness :
  exists tg',
    cpuacct_cpuset_changed 2 true (fun _ => 100) (Some (demo_tg demo_se_light))
      (Some (Nat.eqb 1)) (Some (Nat.eqb 0)) = Done (Some tg') /\
    se tg' 0%nat = Some (cpuset_cpu_added 100 demo_se_light) /\
    se tg' 1%nat = Some (cpuset_cpu_deleted 100 demo_se_light) /\
    se tg' 2%nat = Some demo_se_light.
Proof.
  destruct (cpuacct_cpuset_changed_effect 2 (fun _ => 100) (demo_tg demo_se_light)
              (Some (Nat.eqb 1)) (Some (Nat.eqb 0))) as (tg' & Hrun & Hse).
  - intros cpu _. discriminate.
  - exists tg'. split; [exact Hrun|]. rewrite !Hse. repeat split; reflexivity.
Defined.

(** X19 at work: a task group without an entity on CPU 1, and CPU 1 removed. *)
Lemma cpuacct_cpuset_changed_null_entity_witness :
  cpuacct_cpuset_changed 2 true (fun _ => 100)
    (Some (mk_task_group (fun cpu => if Nat.eqb cpu 1 then None else Some demo_se)))
    (Some (fun _ => true)) None = NullDeref.
Proof.
  apply (cpuacct_cpuset_changed_null_entity 2 (fun _ => 100)
           (mk_task_group (fun cpu => if Nat.eqb cpu 1 then None else Some demo_se))
           (Some (fun _ => true)) None 1%nat); reflexivity.
Defined.

(** X20 at work: CPU 1 is removed at 50 and added again at 120; its entity
    has 70 of ineffective time, and its idle window is open from 120. *)
Lemma cpu_removed_then_added_witness :
  exists tg1 tg2,
    cpuacct_cpuset_changed 2 true (fun _ => 50) (Some (demo_tg demo_se_light))
      (Some (Nat.eqb 1)) None = Done (Some tg1) /\
    cpuacct_cpuset_changed 2 true (fun _ => 120) (Some tg1)
      None (Some (Nat.eqb 1)) = Done (Some tg2) /\
    option_map cg_ineffective_sum (se tg2 1%nat) = Some 70 /\
    option_map cg_idle_start (se tg2 1%nat) = Some 120 /\
    se tg2 0%nat = Some demo_se_light.
Proof.
  destruct (cpu_removed_then_added 2 (fun _ => 50) (fun _ => 120)
              (demo_tg demo_se_light) (Nat.eqb 1))
    as (tg1 & tg2 & Hrun1 & Hrun2 & Hout & Hin).
  - intros cpu _. discriminate.
  - exists tg1, tg2. split; [exact Hrun1|]. split; [exact Hrun2|].
    destruct (Hin 1%nat demo_se_light eq_refl eq_refl)
      as (e2 & He2 & Hsum & _ & Hstart & _).
    rewrite He2. simpl option_map. rewrite Hsum, Hstart.
    split; [reflexivity|]. split; [reflexivity|].
    now rewrite (Hout 0%nat eq_refl).
Defined.

(** ** Creation and destruction of a group *)

(** X21.  [cpuacct_css_alloc] leaks nothing and frees nothing twice.  For a
    NULL parent it returns the root group and asks nothing of the allocator.
    Otherwise it returns a new group exactly when all four requests are
    granted; the four allocations are then held, and [cpuacct_css_free] after
    it releases each of them once.  The parent is tested and not stored: the
    parent link of the object returned is NULL.  When a request is refused
    it returns [-ENOMEM], and by then every allocation it had obtained has
    been freed, once, and none is held. *)
Theorem cpuacct_css_alloc_balanced (parent_css : option nat) (a : allocator) :
  let result := fst (cpuacct_css_alloc_paths parent_css a) in
  let requests := snd (cpuacct_css_alloc_paths parent_css a) in
  match parent_css with
  | None => result = css_root /\ requests = []
  | Some parent =>
      if grants_ca a && grants_cpuusage a && grants_cpustat a && grants_alistats a
      then
        result = css_new (cpuacct_css_alloc parent) /\
        css_parent (cpuacct_css_alloc parent) = None /\
        replay requests [] = Some [the_alistats; the_cpustat; the_cpuusage; the_ca] /\
        replay (requests ++ cpuacct_css_free) [] = Some []
      else
        result = css_err (- ENOMEM) /\ replay requests [] = Some []
  end.
Proof.
  destruct parent_css as [parent|]; [|split; reflexivity].
  destruct a as [[] [] [] []]; cbv zeta; simpl; repeat split; reflexivity.
Qed.

(** X22.  A group starts from zero.  For the object [cpuacct_css_alloc]
    returns when all its requests are granted, as returned or once the
    cgroup core has stored a parent link in it, every usage file reads 0,
    each number of the per-CPU lines is 0, the nanoseconds behind both lines
    of the [stat] file are 0, and [proc_stat] reports no migration. *)
Theorem new_group_reads_zero (nr_cpu_ids : nat) (cpu_possible housekeeping_cpu : nat -> bool)
    (get_idle_time get_iowait_time : nat -> Z)
    (cputime_adjust : task_cputime -> prev_cputime -> prev_cputime * (Z * Z))
    (en : bool) (tg : option task_group) (cpu_clock : nat -> Z)
    (mem : cpuacct_mem) (g parent : nat) (link : option nat) :
  mem g = set_css_parent (cpuacct_css_alloc parent) link ->
  (forall cpu i, cpuacct_cpuusage_read mem g cpu i = 0) /\
  (forall i, __cpuusage_read nr_cpu_ids cpu_possible mem g i = 0) /\
  (forall i, Forall (fun x => x = 0)
               (__cpuacct_percpu_seq_show nr_cpu_ids cpu_possible mem g i)) /\
  u64 (cpuacct_stats_vals nr_cpu_ids cpu_possible mem g (stat_nr CPUACCT_STAT_USER)) = 0 /\
  u64 (cpuacct_stats_vals nr_cpu_ids cpu_possible mem g (stat_nr CPUACCT_STAT_SYSTEM)) = 0 /\
  tot_nr_migrations
    (snd (proc_stats_sums nr_cpu_ids cpu_possible housekeeping_cpu get_idle_time
            get_iowait_time cputime_adjust en tg cpu_clock mem g)) = 0.
Proof.
  intros Hnew.
  assert (Hread : forall cpu i, cpuacct_cpuusage_read mem g cpu i = 0).
  { intros cpu i. destruct i.
    - unfold cpuacct_cpuusage_read. now rewrite Hnew.
    - unfold cpuacct_cpuusage_read. now rewrite Hnew.
    - rewrite cpuusage_read_nstats, Hnew. reflexivity. }
  split; [exact Hread|]. split; [|split; [|split; [|split]]].
  - intros i. unfold __cpuusage_read. rewrite fold_u64_sum.
    rewrite sum_Z_map_zero by (intros cpu _; apply Hread). reflexivity.
  - intros i. unfold __cpuacct_percpu_seq_show. apply Forall_forall.
    intros x Hx. apply in_map_iff in Hx. destruct Hx as (cpu & <- & _). apply Hread.
  - destruct (stats_vals_sums nr_cpu_ids cpu_possible mem g) as (Hu & _).
    cbv zeta in Hu. simpl stat_nr. rewrite Hu, Hnew.
    rewrite sum_Z_map_zero by reflexivity. reflexivity.
  - destruct (stats_vals_sums nr_cpu_ids cpu_possible mem g) as (_ & Hs).
    cbv zeta in Hs. simpl stat_nr. rewrite Hs, Hnew.
    rewrite sum_Z_map_zero by reflexivity. reflexivity.
  - rewrite proc_stat_migrations, Hnew.
    rewrite sum_Z_map_zero by reflexivity. reflexivity.
Qed.

(** X22 at work: group 1 of the concrete machine is the object created under
    the root, with the parent link the cgroup core stored. *)
Lemma new_group_reads_zero_witness :
  cpuusage_read demo_nr_cpu_ids demo_cpu_possible demo_mem 1 = 0 /\
  cpuacct_cpuusage_read demo_mem 1 1 CPUACCT_STAT_NSTATS = 0.
Proof.
  destruct (new_group_reads_zero demo_nr_cpu_ids demo_cpu_possible
              demo_housekeeping_cpu (fun _ => 0) (fun _ => 0) TimeReconciler.adjust
              true None (fun _ => 0) demo_mem 1%nat 0%nat (Some 0%nat) eq_refl)
    as (Hread & Hfile & _).
  split.
  - apply Hfile.
  - apply Hread.
Defined.

(** ** Charges in either order *)

Lemma charge_along_usages (cpu i : nat) (x : Z) (l : list nat) (mem : cpuacct_mem)
    (g cpu' j : nat) :
  NoDup l ->
  usages (cpuusage (charge_along cpu i x l mem g) cpu') j
  = if existsb (Nat.eqb g) l && (Nat.eqb cpu' cpu && Nat.eqb j i)
    then u64 (usages (cpuusage (mem g) cpu) i + x)
    else usages (cpuusage (mem g) cpu') j.
Proof.
  intros Hnd. destruct (existsb (Nat.eqb g) l) eqn:Hin.
  - apply existsb_exists in Hin. destruct Hin as (a & Ha & Heq).
    apply Nat.eqb_eq in Heq. subst a.
    rewrite charge_along_in by assumption. apply charge_ca_usages.
  - rewrite charge_along_notin; [reflexivity|].
    intros Hg. apply Bool.not_true_iff_false in Hin. apply Hin.
    apply existsb_exists. exists g. split; [assumption | apply Nat.eqb_refl].
Qed.

(** X23.  Charges commute.  Two charges, for any two tasks, on any two CPUs,
    of any two amounts, leave the same accumulators whichever is made first:
    after either order every read of every group, CPU and index returns the
    same value. *)
Theorem cpuacct_charges_commute (mem : cpuacct_mem)
    (cpu1 : nat) (tsk1 : task_struct) (leaf1 : nat) (path1 : list nat) (x1 : Z)
    (cpu2 : nat) (tsk2 : task_struct) (leaf2 : nat) (path2 : list nat) (x2 : Z) :
  task_ca tsk1 = Some leaf1 -> path_to_root mem leaf1 path1 ->
  task_ca tsk2 = Some leaf2 -> path_to_root mem leaf2 path2 ->
  exists m1 m12 m2 m21,
    (forall fuel, (length path1 <= fuel)%nat -> (length path2 <= fuel)%nat ->
       cpuacct_charge fuel cpu1 tsk1 x1 mem = Done m1 /\
       cpuacct_charge fuel cpu2 tsk2 x2 m1 = Done m12 /\
       cpuacct_charge fuel cpu2 tsk2 x2 mem = Done m2 /\
       cpuacct_charge fuel cpu1 tsk1 x1 m2 = Done m21) /\
    forall g cpu i,
      cpuacct_cpuusage_read m12 g cpu i = cpuacct_cpuusage_read m21 g cpu i.
Proof.
  intros Hca1 Hpath1 Hca2 Hpath2.
  set (i1 := stat_nr (charge_index tsk1)). set (i2 := stat_nr (charge_index tsk2)).
  set (m1 := charge_along cpu1 i1 x1 path1 mem).
  set (m2 := charge_along cpu2 i2 x2 path2 mem).
  exists m1, (charge_along cpu2 i2 x2 path2 m1), m2, (charge_along cpu1 i1 x1 path1 m2).
  pose proof (path_NoDup _ _ _ Hpath1) as Hnd1.
  pose proof (path_NoDup _ _ _ Hpath2) as Hnd2.
  split.
  - intros fuel Hf1 Hf2.
    split; [now apply cpuacct_charge_done with (leaf := leaf1)|].
    split; [|split; [now apply cpuacct_charge_done with (leaf := leaf2)|]].
    + apply cpuacct_charge_done with (leaf := leaf2); try assumption.
      apply (path_same_parents mem); [|assumption].
      intros a. apply charge_along_parent.
    + apply cpuacct_charge_done with (leaf := leaf1); try assumption.
      apply (path_same_parents mem); [|assumption].
      intros a. apply charge_along_parent.
  - intros g cpu i. apply cpuusage_read_local. intros j.
    subst m1 m2. rewrite !charge_along_usages by assumption.
    clearbody i1 i2.
    destruct (existsb (Nat.eqb g) path1), (existsb (Nat.eqb g) path2); simpl;
      destruct (Nat.eqb_spec cpu cpu1), (Nat.eqb_spec cpu cpu2),
               (Nat.eqb_spec j i1), (Nat.eqb_spec j i2);
      subst; simpl; rewrite ?Nat.eqb_refl; simpl;
      repeat match goal with
             | H : ?a <> ?b |- context [Nat.eqb ?a ?b] =>
                 destruct (Nat.eqb_spec a b); [contradiction|]
             end; simpl; try reflexivity;
      rewrite !u64_add_l; f_equal; lia.
Qed.

(** X23 at work: a user-mode charge of 100 to group 2 on CPU 0 and a charge of
    7 to group 1 on CPU 0, in either order, leave 107 in the root group. *)
Lemma cpuacct_charges_commute_witness :
  exists m12 m21,
    cpuacct_charges 3 0 [(demo_user_task, 100); (demo_task1, 7)] demo_mem = Done m12 /\
    cpuacct_charges 3 0 [(demo_task1, 7); (demo_user_task, 100)] demo_mem = Done m21 /\
    cpuacct_cpuusage_read m12 root_cpuacct 0 CPUACCT_STAT_NSTATS
    = cpuacct_cpuusage_read m21 root_cpuacct 0 CPUACCT_STAT_NSTATS.
Proof.
  destruct (cpuacct_charges_commute demo_mem
              0%nat demo_user_task 2%nat [2; 1; 0]%nat 100
              0%nat demo_task1 1%nat [1; 0]%nat 7)
    as (m1 & m12 & m2 & m21 & Hrun & Hsame).
  - reflexivity.
  - exact demo_path.
  - reflexivity.
  - constructor 2 with (p := 0%nat); [discriminate | reflexivity |].
    constructor 1. reflexivity.
  - exists m12, m21.
    destruct (Hrun 3%nat) as (H1 & H12 & H2 & H21); [simpl; lia | simpl; lia |].
    split; [|split].
    + cbn [cpuacct_charges]. rewrite H1, H12. reflexivity.
    + cbn [cpuacct_charges]. rewrite H2, H21. reflexivity.
    + apply Hsame.
Defined.
